(** * deck.gl layers: text-layer utilities and the path layer

    A shallow embedding of
      - [modules/layers/src/text-layer/utils.js]
        ([nextPowOfTwo], [buildMapping], [autoWrapping], [transformRow],
        [transformParagraph]), and
      - [modules/layers/src/path-layer/path-layer.js]
        ([ATTRIBUTE_TRANSITION], [initializeState], [updateState], [draw],
        the segment geometry of [_getModel] and the attribute update
        callbacks), together with the path tesselator it delegates to.

    Conventions.  JavaScript numbers are modelled by mathematical integers
    [Z] (pixel units), on which the sums, products and comparisons of the
    code are exact.  The one operation that is not exact on integers is the
    logarithm inside [nextPowOfTwo]: it is modelled with the rounding of a
    double, and the values it can produce besides integers, [-Infinity]
    and [NaN], are explicit constructors of [number].  A JavaScript object used as a dictionary is a
    [gmap] keyed by strings; a character is a one-character string.  Arrays
    that are shared and mutated after they were handed out ([size] in
    [transformParagraph]) live in an explicit store and are named by their
    location. *)

From Stdlib Require Import ZArith List Ascii String Lia.
From stdpp Require Import base option list gmap strings fin_maps.
Import ListNotations.

Local Open Scope string_scope.
Local Open Scope Z_scope.

(** ** text-layer/utils.js *)

Module TextUtils.

(** [const MISSING_CHAR_WIDTH = 32;] *)
Definition MISSING_CHAR_WIDTH : Z := 32.

(** The values [Math.ceil], [Math.log2] and [Math.pow] produce here. *)
Inductive number : Type :=
  | Num (z : Z)
  | NegInfinity
  | NaN.

(** Whether [Math.log2(n)] comes out as the integer just below the
    logarithm.  [Math.log2] returns a double, the one nearest to the
    logarithm.  For [2^j < n < 2^(j+1)] the logarithm lies strictly
    between [j] and [j + 1]; the doubles from [j] on are [2^(e-52)] apart,
    where [2^e <= j < 2^(e+1)], so the logarithm is rounded to [j] itself
    when it is less than [2^(e-53)] above it: [log2 n < j + 2^(-m)] with
    [m = 53 - e], which in integers reads [n^(2^m) < 2^(j * 2^m + 1)]. *)
Definition log2RoundsDown (n : Z) : bool :=
  let j := Z.log2_up n - 1 in
  let m := 53 - Z.log2 j in
  n ^ 2 ^ m <? 2 ^ (j * 2 ^ m + 1).

(** [Math.ceil(Math.log2(n))] for an integer [n >= 1].  The logarithm of a
    power of two is its exponent, exactly.  Otherwise the ceiling is the
    ceiling of the exact logarithm, [Z.log2_up n], unless the double that
    [Math.log2] returns is the integer below.  Up to [2^49] that does not
    happen (lemma [log2RoundsDown_small]), and the test, which takes powers
    with exponents near [2^48], is not run there. *)
Definition ceilLog2 (n : Z) : Z :=
  if n =? 2 ^ Z.log2_up n then Z.log2_up n
  else if n <=? 2 ^ 49 then Z.log2_up n
  else if log2RoundsDown n then Z.log2_up n - 1
  else Z.log2_up n.

(** [Math.ceil(Math.log2(number))] on an integer argument.
    [Math.log2(0)] is [-Infinity], which [Math.ceil] leaves alone, and the
    logarithm of a negative number is [NaN]. *)
Definition Math_ceil_log2 (n : Z) : number :=
  if 0 <? n then Num (ceilLog2 n)
  else if n =? 0 then NegInfinity
  else NaN.

(** [Math.pow(2, e)]; the exponents met here are never negative integers. *)
Definition Math_pow2 (e : number) : number :=
  match e with
  | Num k => Num (2 ^ k)
  | NegInfinity => Num 0
  | NaN => NaN
  end.

(** [export function nextPowOfTwo(number)] *)
Definition nextPowOfTwo (n : Z) : number :=
  Math_pow2 (Math_ceil_log2 n).

(** An entry of the character mapping table:
    [{x, y, width, height, mask}]. *)
Record Frame : Type := mkFrame {
  fx : Z;
  fy : Z;
  fwidth : Z;
  fheight : Z;
  fmask : bool
}.

(** The variables the [forEach] callback of [buildMapping] closes over and
    mutates: [mapping], [x] and [row]. *)
Record Packing : Type := mkPacking {
  pk_mapping : gmap string Frame;
  pk_x : Z;
  pk_row : Z
}.

(** The body of the callback [(char, i) => { if (!mapping[char]) ... }]. *)
Definition placeChar (getFontWidth : string -> nat -> Z)
    (fontHeight buffer maxCanvasWidth yOffset : Z)
    (st : Packing) (char : string) (i : nat) : Packing :=
  match pk_mapping st !! char with
  | Some _ => st
  | None =>
      let width := getFontWidth char i in
      let wrap := pk_x st + width + buffer * 2 >? maxCanvasWidth in
      let x := if wrap then 0 else pk_x st in
      let row := if wrap then pk_row st + 1 else pk_row st in
      {| pk_mapping :=
           <[char := {| fx := x + buffer;
                        fy := yOffset + row * (fontHeight + buffer * 2) + buffer;
                        fwidth := width;
                        fheight := fontHeight;
                        fmask := true |}]> (pk_mapping st);
         pk_x := x + (width + buffer * 2);
         pk_row := row |}
  end.

(** [Array.from(characterSet).forEach(callback)], started at index [i]. *)
Fixpoint forEachChar (getFontWidth : string -> nat -> Z)
    (fontHeight buffer maxCanvasWidth yOffset : Z)
    (i : nat) (chars : list string) (st : Packing) : Packing :=
  match chars with
  | [] => st
  | char :: rest =>
      forEachChar getFontWidth fontHeight buffer maxCanvasWidth yOffset (S i) rest
        (placeChar getFontWidth fontHeight buffer maxCanvasWidth yOffset st char i)
  end.

(** The object [buildMapping] returns. *)
Record MappingResult : Type := mkMappingResult {
  mapping : gmap string Frame;
  xOffset : Z;
  yOffset : Z;
  canvasHeight : number
}.

(** [export function buildMapping({characterSet, getFontWidth, fontHeight,
    buffer, maxCanvasWidth, mapping = {}, xOffset = 0, yOffset = 0})].
    The defaults are the caller's to pass: [∅], [0] and [0]. *)
Definition buildMapping (characterSet : list string)
    (getFontWidth : string -> nat -> Z)
    (fontHeight buffer maxCanvasWidth : Z)
    (mapping0 : gmap string Frame) (xOffset0 yOffset0 : Z) : MappingResult :=
  let st := forEachChar getFontWidth fontHeight buffer maxCanvasWidth yOffset0 0
              characterSet
              {| pk_mapping := mapping0; pk_x := xOffset0; pk_row := 0 |} in
  let rowHeight := fontHeight + buffer * 2 in
  {| mapping := pk_mapping st;
     xOffset := pk_x st;
     yOffset := yOffset0 + pk_row st * rowHeight;
     canvasHeight := nextPowOfTwo (yOffset0 + (pk_row st + 1) * rowHeight) |}.

(** *** Row and paragraph layout *)

(** A call either returns or throws a [TypeError]. *)
Inductive result (A : Type) : Type :=
  | Ok (a : A)
  | TypeError (msg : string).
Arguments Ok {A} a.
Arguments TypeError {A} msg.

(** [paragraph.split('\n')] *)
Fixpoint split_newline (s : string) : list string :=
  match s with
  | EmptyString => [EmptyString]
  | String c rest =>
      if Ascii.eqb c "010"%char then EmptyString :: split_newline rest
      else match split_newline rest with
           | r :: rs => String c r :: rs
           | [] => [String c EmptyString]
           end
  end.

(** [Array.from(string)]: the characters, each a one-character string. *)
Fixpoint Array_from (s : string) : list string :=
  match s with
  | EmptyString => []
  | String c rest => String c EmptyString :: Array_from rest
  end.

(** Truthiness of an optional string argument ([undefined] and the empty
    string are falsy). *)
Definition truthy (o : option string) : bool :=
  match o with
  | Some s => negb (String.eqb s EmptyString)
  | None => false
  end.

(** The [div] that [autoWrapping] builds: one [span] per character, under
    the style the arguments spell out. *)
Record TextDiv : Type := mkTextDiv {
  div_spans : list string;
  div_wordBreak : string;
  div_height : Z;
  div_width : Z;
  div_fontSize : Z;
  div_fontFamily : string;
  div_fontWeight : string;
  div_textAlign : string
}.

(** What [span.getBoundingClientRect()] returns, as far as it is read. *)
Record DOMRect : Type := mkDOMRect {
  rect_top : Z;
  rect_left : Z;
  rect_width : Z;
  rect_bottom : Z
}.

(** The browser's layout engine: the rectangle of the [i]-th child of a
    [div] appended to the document. *)
Definition Measure : Type := TextDiv -> nat -> DOMRect.

(** [export function autoWrapping(string, iconMapping, height, width,
    wordBreak, fontSize, fontFamily, fontWeight, textAlign)] *)
Definition autoWrapping (str : string) (iconMapping : gmap string Frame)
    (height width : Z) (wordBreak : string) (fontSize : Z)
    (fontFamily fontWeight : string) (textAlign : option string) : TextDiv :=
  {| div_spans := Array_from str;
     div_wordBreak := wordBreak;
     div_height := height;
     div_width := width;
     div_fontSize := fontSize;
     div_fontFamily := fontFamily;
     div_fontWeight := fontWeight;
     div_textAlign := if truthy textAlign then default "left" textAlign
                      else "left" |}.

(** Locations of arrays in the store. *)
Abbreviation loc := nat (only parsing).

(** A character record.  [size] and [rowSize] are [undefined] until
    [transformParagraph] sets them to (references to) arrays. *)
Record Datum : Type := mkDatum {
  text : string;
  offsetTop : Z;
  offsetLeft : Z;
  size : option loc;
  rowSize : option loc
}.

(** The variables the [map] callback of [transformRow] mutates,
    [offsetLeft] and [rowHeight], and the diagnostics [log.warn] was
    given so far. *)
Record RowAcc : Type := mkRowAcc {
  acc_offsetLeft : Z;
  acc_rowHeight : Z;
  acc_warnings : list string
}.

(** [log.warn(`Missing character: ${character}`)()] *)
Definition missing_character (character : string) : string :=
  String.append "Missing character: " character.

(** The body of [(character, i) => { ... return datum; }].  [textDiv] is
    defined exactly when [wordBreak] is truthy, so the test [if (wordBreak)]
    is the case distinction on it; [n] is [characters.length]. *)
Definition rowChar (iconMapping : gmap string Frame) (lineHeight : Z)
    (measure : Measure) (textDiv : option TextDiv) (n : nat)
    (acc : RowAcc) (character : string) (i : nat) : Datum * RowAcc :=
  match textDiv with
  | Some div =>
      let rect := measure div i in
      let datum := {| text := character; offsetTop := rect_top rect;
                      offsetLeft := rect_left rect;
                      size := None; rowSize := None |} in
      let '(offsetLeft1, warnings1) :=
        match iconMapping !! character with
        | Some frame => (acc_offsetLeft acc + rect_width rect, acc_warnings acc)
        | None => (acc_offsetLeft acc + MISSING_CHAR_WIDTH,
                   (acc_warnings acc ++ [missing_character character])%list)
        end in
      let rowHeight1 :=
        if Z.of_nat i =? Z.of_nat n - 1 then rect_bottom rect
        else acc_rowHeight acc in
      (datum, {| acc_offsetLeft := offsetLeft1; acc_rowHeight := rowHeight1;
                 acc_warnings := warnings1 |})
  | None =>
      let datum := {| text := character; offsetTop := 0;
                      offsetLeft := acc_offsetLeft acc;
                      size := None; rowSize := None |} in
      match iconMapping !! character with
      | Some frame =>
          (datum,
           {| acc_offsetLeft := acc_offsetLeft acc + fwidth frame;
              acc_rowHeight := if acc_rowHeight acc =? 0
                               then fheight frame * lineHeight
                               else acc_rowHeight acc;
              acc_warnings := acc_warnings acc |})
      | None =>
          (datum,
           {| acc_offsetLeft := acc_offsetLeft acc + MISSING_CHAR_WIDTH;
              acc_rowHeight := acc_rowHeight acc;
              acc_warnings := (acc_warnings acc ++ [missing_character character])%list |})
      end
  end.

(** [characters.map(callback)], started at index [i]. *)
Fixpoint mapChars (iconMapping : gmap string Frame) (lineHeight : Z)
    (measure : Measure) (textDiv : option TextDiv) (n : nat)
    (i : nat) (characters : list string) (acc : RowAcc)
    : list Datum * RowAcc :=
  match characters with
  | [] => ([], acc)
  | character :: rest =>
      let '(datum, acc1) :=
        rowChar iconMapping lineHeight measure textDiv n acc character i in
      let '(data, acc2) :=
        mapChars iconMapping lineHeight measure textDiv n (S i) rest acc1 in
      (datum :: data, acc2)
  end.

(** The object [transformRow] returns, with the diagnostics it logged. *)
Record Row : Type := mkRow {
  characters : list Datum;
  rowWidth : Z;
  rowHeight : Z;
  warnings : list string
}.

(** [Object.values(iconMapping)]; the enumeration order is the map's, not
    JavaScript's property order, and only feeds the height of the measured
    [div]. *)
Definition Object_values (iconMapping : gmap string Frame) : list Frame :=
  snd <$> map_to_list iconMapping.

(** The first statement of [transformRow]:
    [if (wordBreak) { const height = Object.values(iconMapping)[0].height *
    lineHeight; textDiv = autoWrapping(...); }].  Reading [height] of the
    first value throws on an empty table; without [wordBreak], [textDiv]
    stays [undefined]. *)
Definition measuredDiv (row : string)
    (iconMapping : gmap string Frame) (width lineHeight : Z)
    (wordBreak : option string) (fontSize : Z)
    (fontFamily fontWeight : string) (textAlign : option string)
    : result (option TextDiv) :=
  if truthy wordBreak then
    match head (Object_values iconMapping) with
    | Some first =>
        let height := fheight first * lineHeight in
        Ok (Some (autoWrapping row iconMapping height width
                    (default EmptyString wordBreak) fontSize fontFamily
                    fontWeight textAlign))
    | None => TypeError "Cannot read property 'height' of undefined"
    end
  else Ok None.

(** The accumulator [transformRow] starts from:
    [let offsetLeft = 0; let rowHeight = 0;], nothing logged. *)
Definition rowStart : RowAcc :=
  {| acc_offsetLeft := 0; acc_rowHeight := 0; acc_warnings := [] |}.

(** [export function transformRow(row, iconMapping, width, lineHeight,
    wordBreak, fontSize, fontFamily, fontWeight, textAlign)] *)
Definition transformRow (measure : Measure) (row : string)
    (iconMapping : gmap string Frame) (width lineHeight : Z)
    (wordBreak : option string) (fontSize : Z)
    (fontFamily fontWeight : string) (textAlign : option string)
    : result Row :=
  match measuredDiv row iconMapping width lineHeight wordBreak fontSize
          fontFamily fontWeight textAlign with
  | TypeError msg => TypeError msg
  | Ok textDiv =>
      let chars := Array_from row in
      let '(data, acc) :=
        mapChars iconMapping lineHeight measure textDiv (length chars) 0 chars
          rowStart in
      Ok {| characters := data;
            rowWidth := if truthy wordBreak then width else acc_offsetLeft acc;
            rowHeight := acc_rowHeight acc;
            warnings := acc_warnings acc |}
  end.

(** The store of the arrays [size] and [rowSize]: an array is named by its
    location, so that two records can hold the same array. *)
Abbreviation Store := (list (list Z)) (only parsing).

(** [[a, b]]: a fresh array. *)
Definition alloc (h : Store) (arr : list Z) : Store * loc :=
  ((h ++ [arr])%list, length h).

(** [arr[i]] *)
Definition array_get (h : Store) (l : loc) (i : nat) : Z :=
  default 0 (h !! l ≫= fun arr => arr !! i).

(** [arr[i] = v], for an index inside the array. *)
Definition array_set (h : Store) (l : loc) (i : nat) (v : Z) : Store :=
  alter (fun arr => <[i := v]> arr) l h.

(** The props of [transformParagraph] apart from the callback. *)
Record Props : Type := mkProps {
  paragraph : string;
  iconMapping : gmap string Frame;
  lineHeight : Z;
  wordBreak : option string;
  fontSize : Z;
  fontFamily : string;
  fontWeight : string;
  width : Z;
  textAlign : option string
}.

(** What the [rows.forEach] callback of [transformParagraph] reads and
    writes: the store, [offsetTop], the array [transformedData] and the
    diagnostics. *)
Record ParAcc (T : Type) : Type := mkParAcc {
  par_store : Store;
  par_offsetTop : Z;
  par_data : list T;
  par_warnings : list string
}.
Arguments mkParAcc {T}.
Arguments par_store {T}.
Arguments par_offsetTop {T}.
Arguments par_data {T}.
Arguments par_warnings {T}.

(** The inner callback [datum => { datum.offsetTop = ...; datum.size = size;
    datum.rowSize = datum.rowSize || rowSize; ... }], up to the push. *)
Definition placeDatum (offsetTop0 : Z) (sizeRef rowSizeRef : loc)
    (datum : Datum) : Datum :=
  {| text := text datum;
     offsetTop := offsetTop datum + offsetTop0;
     offsetLeft := offsetLeft datum;
     size := Some sizeRef;
     rowSize := Some (default rowSizeRef (rowSize datum)) |}.

(** The body of [rows.forEach(row => { ... })]. *)
Definition paragraphRow {T : Type} (measure : Measure) (props : Props)
    (transformCharacter : Datum -> T) (sizeRef : loc)
    (acc : ParAcc T) (row : string) : result (ParAcc T) :=
  match transformRow measure row (iconMapping props) (width props)
          (lineHeight props) (wordBreak props) (fontSize props)
          (fontFamily props) (fontWeight props) (textAlign props) with
  | TypeError msg => TypeError msg
  | Ok r =>
      let '(h1, rowSizeRef) := alloc (par_store acc) [rowWidth r; rowHeight r] in
      let pushed :=
        map (fun datum =>
               transformCharacter
                 (placeDatum (par_offsetTop acc) sizeRef rowSizeRef datum))
            (characters r) in
      Ok {| par_store :=
              array_set h1 sizeRef 0 (Z.max (array_get h1 sizeRef 0) (rowWidth r));
            par_offsetTop := par_offsetTop acc + rowHeight r;
            par_data := (par_data acc ++ pushed)%list;
            par_warnings := (par_warnings acc ++ warnings r)%list |}
  end.

(** [rows.forEach(callback)]; a throw leaves the loop. *)
Fixpoint forEachRow {T : Type} (measure : Measure) (props : Props)
    (transformCharacter : Datum -> T) (sizeRef : loc)
    (rows : list string) (acc : ParAcc T) : result (ParAcc T) :=
  match rows with
  | [] => Ok acc
  | row :: rest =>
      match paragraphRow measure props transformCharacter sizeRef acc row with
      | TypeError msg => TypeError msg
      | Ok acc1 => forEachRow measure props transformCharacter sizeRef rest acc1
      end
  end.

(** What a call of [transformParagraph] leaves behind: the store, the
    location of the paragraph's [size] array, [transformedData] and the
    diagnostics logged. *)
Record Laid (T : Type) : Type := mkLaid {
  laid_store : Store;
  laid_size : loc;
  laid_data : list T;
  laid_warnings : list string
}.
Arguments mkLaid {T}.
Arguments laid_store {T}.
Arguments laid_size {T}.
Arguments laid_data {T}.
Arguments laid_warnings {T}.

(** [export function transformParagraph({paragraph, iconMapping,
    transformCharacter, lineHeight, wordBreak, fontSize, fontFamily,
    fontWeight, width, textAlign}, transformedData)], run in store [h]. *)
Definition transformParagraph {T : Type} (measure : Measure) (h : Store)
    (props : Props) (transformCharacter : Datum -> T)
    (transformedData : list T) : result (Laid T) :=
  let rows := split_newline (paragraph props) in
  let '(h0, sizeRef) := alloc h [0; 0] in
  match forEachRow measure props transformCharacter sizeRef rows
          {| par_store := h0; par_offsetTop := 0;
             par_data := transformedData; par_warnings := [] |} with
  | TypeError msg => TypeError msg
  | Ok acc =>
      Ok {| laid_store := array_set (par_store acc) sizeRef 1 (par_offsetTop acc);
            laid_size := sizeRef;
            laid_data := par_data acc;
            laid_warnings := par_warnings acc |}
  end.

End TextUtils.

(** ** path-layer/path-tesselator.js *)

Module PathTesselator.

(** Modelled from the spec: a point of a path, two or three numeric
    components (path-tesselator.js is not among the sources). *)
Record Point : Type := mkPoint {
  px : Z;
  py : Z;
  pz : option Z
}.

(** Modelled from the spec: the position format of a tesselator instance
    (path-tesselator.js is not among the sources). *)
Inductive PositionFormat : Type :=
  | XYZ
  | XY.

(** Modelled from the spec: the normalisation of a point to the fixed
    component width (path-tesselator.js is not among the sources).  The
    third component is zero-filled when missing and ignored under [XY]. *)
Definition normalize (positionFormat : PositionFormat) (p : Point) : list Z :=
  [px p; py p;
   match positionFormat with
   | XYZ => default 0 (pz p)
   | XY => 0
   end].

(** Modelled from the spec: one instance, the 6-component [start] and
    [end] vectors and the type tag (path-tesselator.js is not among the
    sources). *)
Record Segment : Type := mkSegment {
  seg_start : list Z;
  seg_end : list Z;
  seg_type : Z
}.

(** Modelled from the spec: the type tag of segment [i] of a path of
    [pointCount] points (path-tesselator.js is not among the sources):
    3 for the only segment of a two-point path, 1 for the first segment,
    2 for the last, 0 for an interior one. *)
Definition segmentType (pointCount i : nat) : Z :=
  if (pointCount =? 2)%nat then 3
  else if (i =? 0)%nat then 1
  else if (i =? pointCount - 2)%nat then 2
  else 0.

(** Modelled from the spec: segment [i] of the normalised point sequence
    [points] (path-tesselator.js is not among the sources):
    [start = [prev ?? points[i], points[i]]] and
    [end = [points[i+1], next ?? points[i+1]]]. *)
Definition segment (points : list (list Z)) (i : nat) : Segment :=
  let self := default [] (points !! i) in
  let prev := if (i =? 0)%nat then self
              else default self (points !! (i - 1)%nat) in
  let target := default [] (points !! (i + 1)%nat) in
  let next := default target (points !! (i + 2)%nat) in
  {| seg_start := (prev ++ self)%list;
     seg_end := (target ++ next)%list;
     seg_type := segmentType (length points) i |}.

(** Modelled from the spec: the segments of one record's path
    (path-tesselator.js is not among the sources): none for fewer than two
    points, else one per index in [[0, pointCount - 2]]. *)
Definition tesselatePath (positionFormat : PositionFormat)
    (path : list Point) : list Segment :=
  let points := map (normalize positionFormat) path in
  if (length points <? 2)%nat then []
  else map (segment points) (seq 0 (length points - 1)).

(** Modelled from the spec: the tesselator instance, its buffer layout,
    instance count and three attribute streams (path-tesselator.js is not
    among the sources). *)
Record Tesselator : Type := mkTesselator {
  bufferLayout : list nat;
  instanceCount : nat;
  startPositions : list Z;
  endPositions : list Z;
  segmentTypes : list Z
}.

(** Modelled from the spec: [new PathTesselator({fp64})], nothing
    tesselated yet (path-tesselator.js is not among the sources). *)
Definition create : Tesselator :=
  {| bufferLayout := []; instanceCount := 0%nat;
     startPositions := []; endPositions := []; segmentTypes := [] |}.

(** Modelled from the spec: [updateGeometry] (path-tesselator.js is not
    among the sources).  Every record is walked in input order and its
    segments appended; the layout gets one entry per record.  The spec
    lets a partial update ([dataChanged] false) reuse segments of records
    whose geometry is unchanged, which for a pure accessor equals the full
    rebuild performed here. *)
Definition updateGeometry {R : Type} (t : Tesselator) (data : list R)
    (getGeometry : R -> list Point) (positionFormat : PositionFormat)
    (dataChanged : bool) : Tesselator :=
  let paths := map (fun record => tesselatePath positionFormat (getGeometry record))
                   data in
  let segments := concat paths in
  {| bufferLayout := map (@length Segment) paths;
     instanceCount := length segments;
     startPositions := concat (map seg_start segments);
     endPositions := concat (map seg_end segments);
     segmentTypes := map seg_type segments |}.

(** Modelled from the spec: the attribute names [get] understands
    (path-tesselator.js is not among the sources). *)
Inductive AttributeName : Type :=
  | attr_startPositions
  | attr_endPositions
  | attr_segmentTypes.

(** Modelled from the spec: [get(attributeName)], the current buffer of one
    of the three streams (path-tesselator.js is not among the sources). *)
Definition get (t : Tesselator) (attributeName : AttributeName) : list Z :=
  match attributeName with
  | attr_startPositions => startPositions t
  | attr_endPositions => endPositions t
  | attr_segmentTypes => segmentTypes t
  end.

End PathTesselator.

(** ** path-layer/path-layer.js *)

Module PathLayer.

(** [changeFlags.updateTriggersChanged], when it is an object. *)
Record UpdateTriggers : Type := mkUpdateTriggers {
  all : bool;
  getPath : bool
}.

(** The change flags [updateState] reads. *)
Record ChangeFlags : Type := mkChangeFlags {
  dataChanged : bool;
  updateTriggersChanged : option UpdateTriggers;
  extensionsChanged : bool
}.

(** The props [updateState] reads. *)
Record LayerProps (R : Type) : Type := mkLayerProps {
  data : list R;
  props_getPath : R -> list PathTesselator.Point;
  positionFormat : PathTesselator.PositionFormat
}.
Arguments mkLayerProps {R}.
Arguments data {R}.
Arguments props_getPath {R}.
Arguments positionFormat {R}.

(** [this.state] together with what the attribute manager remembers:
    the number of models created so far stands for the model, and
    [invalidated] records a call of [attributeManager.invalidateAll()]. *)
Record LayerState : Type := mkLayerState {
  pathTesselator : PathTesselator.Tesselator;
  numInstances : option nat;
  bufferLayout : option (list nat);
  model : option nat;
  invalidated : bool
}.

(** [initializeState()]: a fresh tesselator, nothing else set. *)
Definition initializeState : LayerState :=
  {| pathTesselator := PathTesselator.create;
     numInstances := None; bufferLayout := None;
     model := None; invalidated := false |}.

(** [attributeManager.invalidateAll()] *)
Definition invalidateAll (s : LayerState) : LayerState :=
  {| pathTesselator := pathTesselator s; numInstances := numInstances s;
     bufferLayout := bufferLayout s; model := model s; invalidated := true |}.

(** [super.updateState(...)]: the base layer invalidates all attributes on
    a data change, as the comment in [updateState] records. *)
Definition super_updateState (changeFlags : ChangeFlags) (s : LayerState)
    : LayerState :=
  if dataChanged changeFlags then invalidateAll s else s.

(** [const geometryChanged = changeFlags.dataChanged ||
    (changeFlags.updateTriggersChanged && (... .all || ... .getPath))] *)
Definition geometryChanged (changeFlags : ChangeFlags) : bool :=
  dataChanged changeFlags ||
  match updateTriggersChanged changeFlags with
  | Some triggers => all triggers || getPath triggers
  | None => false
  end.

(** [this.setState({model: this._getModel(gl)})], after deleting the old
    model. *)
Definition replaceModel (s : LayerState) : LayerState :=
  {| pathTesselator := pathTesselator s; numInstances := numInstances s;
     bufferLayout := bufferLayout s;
     model := Some (match model s with Some k => S k | None => 0%nat end);
     invalidated := invalidated s |}.

(** [updateState({oldProps, props, changeFlags})] *)
Definition updateState {R : Type} (props : LayerProps R)
    (changeFlags : ChangeFlags) (s : LayerState) : LayerState :=
  let s0 := super_updateState changeFlags s in
  let s1 :=
    if geometryChanged changeFlags then
      let tesselator :=
        PathTesselator.updateGeometry (pathTesselator s0) (data props)
          (props_getPath props) (positionFormat props)
          (dataChanged changeFlags) in
      let s' :=
        {| pathTesselator := tesselator;
           numInstances := Some (PathTesselator.instanceCount tesselator);
           bufferLayout := Some (PathTesselator.bufferLayout tesselator);
           model := model s0; invalidated := invalidated s0 |} in
      if negb (dataChanged changeFlags) then invalidateAll s' else s'
    else s0 in
  if extensionsChanged changeFlags then invalidateAll (replaceModel s1)
  else s1.

(** The part of an attribute the update callbacks write. *)
Record Attribute : Type := mkAttribute {
  attribute_bufferLayout : list nat;
  attribute_value : list Z
}.

(** [calculateStartPositions(attribute)] *)
Definition calculateStartPositions (s : LayerState) : Attribute :=
  {| attribute_bufferLayout := PathTesselator.bufferLayout (pathTesselator s);
     attribute_value :=
       PathTesselator.get (pathTesselator s) PathTesselator.attr_startPositions |}.

(** [calculateEndPositions(attribute)] *)
Definition calculateEndPositions (s : LayerState) : Attribute :=
  {| attribute_bufferLayout := PathTesselator.bufferLayout (pathTesselator s);
     attribute_value :=
       PathTesselator.get (pathTesselator s) PathTesselator.attr_endPositions |}.

(** [calculateSegmentTypes(attribute)] *)
Definition calculateSegmentTypes (s : LayerState) : Attribute :=
  {| attribute_bufferLayout := PathTesselator.bufferLayout (pathTesselator s);
     attribute_value :=
       PathTesselator.get (pathTesselator s) PathTesselator.attr_segmentTypes |}.

(** [typedArray.subarray(begin)]: a negative [begin] counts from the end,
    and the start is clamped to the array.  (The result is a view on the
    same buffer; here it is the list of its elements.) *)
Definition subarray {A : Type} (arr : list A) (begin : Z) : list A :=
  let len := Z.of_nat (length arr) in
  let beginIndex := if begin <? 0 then Z.max (len + begin) 0
                    else Z.min begin len in
  drop (Z.to_nat beginIndex) arr.

(** [ATTRIBUTE_TRANSITION.enter]:
    [(value, chunk) => chunk.length ? chunk.subarray(chunk.length -
    value.length) : value] *)
Definition enter (value chunk : list Z) : list Z :=
  if (length chunk =? 0)%nat then value
  else subarray chunk (Z.of_nat (length chunk) - Z.of_nat (length value)).

(** The value of a uniform: a number or a boolean. *)
Inductive uniform : Type :=
  | UNumber (z : Z)
  | UBoolean (b : bool).

(** The props [draw] reads. *)
Record DrawProps : Type := mkDrawProps {
  rounded : bool;
  billboard : bool;
  miterLimit : Z;
  widthUnits : string;
  widthScale : Z;
  widthMinPixels : Z;
  widthMaxPixels : Z;
  dashJustified : bool
}.

(** [Number(b)] on a boolean. *)
Definition Number_of_bool (b : bool) : Z := if b then 1 else 0.

(** [draw({uniforms})]: the object handed to [model.setUniforms], which is
    [Object.assign({}, uniforms, {jointType, billboard, alignMode,
    widthScale, miterLimit, widthMinPixels, widthMaxPixels})].
    [metersPerPixel2] is [viewport.distanceScales.metersPerPixel[2]];
    reading [setUniforms] of a model that was never created throws. *)
Definition draw (props : DrawProps) (metersPerPixel2 : Z) (s : LayerState)
    (uniforms : gmap string uniform) : TextUtils.result (gmap string uniform) :=
  match model s with
  | None => TextUtils.TypeError "Cannot read property 'setUniforms' of undefined"
  | Some _ =>
      let widthMultiplier :=
        if String.eqb (widthUnits props) "pixels" then metersPerPixel2 else 1 in
      TextUtils.Ok
        (<["widthMaxPixels" := UNumber (widthMaxPixels props)]>
        (<["widthMinPixels" := UNumber (widthMinPixels props)]>
        (<["miterLimit" := UNumber (miterLimit props)]>
        (<["widthScale" := UNumber (widthScale props * widthMultiplier)]>
        (<["alignMode" := UNumber (Number_of_bool (dashJustified props))]>
        (<["billboard" := UBoolean (billboard props)]>
        (<["jointType" := UNumber (Number_of_bool (rounded props))]>
           uniforms)))))))
  end.

(** [const SEGMENT_INDICES] of [_getModel]: start corner, body, end
    corner. *)
Definition SEGMENT_INDICES : list Z :=
  [0; 2; 1;  1; 2; 4;  1; 4; 3;  3; 4; 5].

(** [const SEGMENT_POSITIONS] of [_getModel]: per vertex, the position on
    the segment (0 start, 1 end), the side of the path (-1 left, 0 center,
    1 right) and the role (0 offset point, 1 joint point). *)
Definition SEGMENT_POSITIONS : list Z :=
  [0; 0; 1;  0; -1; 0;  0; 1; 0;  1; -1; 0;  1; 1; 0;  1; 0; 1].

End PathLayer.

(** * Specification predicates *)

Import TextUtils.

(** A number is a power of two when it is [2 ^ k] for a natural exponent. *)
Definition isPowOfTwo (v : number) : Prop :=
  exists k : Z, 0 <= k /\ v = Num (2 ^ k).

(** [v] is a power of two that is at least [extent]. *)
Definition powOfTwoAtLeast (v : number) (extent : Z) : Prop :=
  exists k : Z, 0 <= k /\ v = Num (2 ^ k) /\ extent <= 2 ^ k.

(** The state of the packing loop of [buildMapping] once the characters
    [chars] have been visited. *)
Definition packed (getFontWidth : string -> nat -> Z)
    (fontHeight buffer maxCanvasWidth : Z)
    (mapping0 : gmap string Frame) (xOffset0 yOffset0 : Z)
    (chars : list string) : Packing :=
  forEachChar getFontWidth fontHeight buffer maxCanvasWidth yOffset0 0 chars
    {| pk_mapping := mapping0; pk_x := xOffset0; pk_row := 0 |}.

(** The accumulator of the [map] callback of [transformRow] once the
    characters [chars] have been visited, in a row of [n] characters. *)
Definition rowAfter (measure : Measure) (iconMapping : gmap string Frame)
    (lineHeight : Z) (textDiv : option TextDiv) (n : nat)
    (chars : list string) : RowAcc :=
  snd (mapChars iconMapping lineHeight measure textDiv n 0 chars rowStart).

(** [transformRow] at the styling of [props]. *)
Definition rowOf (measure : Measure) (props : Props) (row : string)
    : result Row :=
  transformRow measure row (iconMapping props) (width props)
    (lineHeight props) (wordBreak props) (fontSize props)
    (fontFamily props) (fontWeight props) (textAlign props).

(** The records [transformParagraph] emits for the laid-out rows [rows]:
    the characters of each row, shifted down by the heights of the rows
    before it, pointing to the paragraph's [size] array and to their row's
    own [rowSize] array (allocated one after the other from
    [rowSizeRef]). *)
Fixpoint layout (offsetTop0 : Z) (sizeRef rowSizeRef : loc)
    (rows : list Row) : list Datum :=
  match rows with
  | [] => []
  | r :: rest =>
      (map (placeDatum offsetTop0 sizeRef rowSizeRef) (characters r)
       ++ layout (offsetTop0 + rowHeight r) sizeRef (S rowSizeRef) rest)%list
  end.

(** The sum of a list of numbers. *)
Definition Zsum (l : list Z) : Z := foldr Z.add 0 l.

(** [M] is the maximum of the list [l]. *)
Definition isMaximum (M : Z) (l : list Z) : Prop :=
  (forall x : Z, x ∈ l -> x <= M) /\ M ∈ l.

(** The two-row paragraph [ab\ncd]. *)
Definition ab_cd : string :=
  String.append "ab" (String "010"%char "cd").

(** A mapping with the four glyphs of [ab_cd], each 10 wide and 20 high,
    and props that lay [ab_cd] out by glyph widths. *)
Definition glyph (x : Z) : Frame :=
  {| fx := x; fy := 2; fwidth := 10; fheight := 20; fmask := true |}.

Definition abcd_mapping : gmap string Frame :=
  <["a" := glyph 2]> (<["b" := glyph 16]> (<["c" := glyph 30]>
    (<["d" := glyph 44]> ∅))).

Definition abcd_props : Props :=
  {| paragraph := ab_cd; iconMapping := abcd_mapping; lineHeight := 1;
     wordBreak := None; fontSize := 12; fontFamily := "Monaco";
     fontWeight := "normal"; width := 100; textAlign := None |}.

(** The three-point path [(0,0), (1,0), (1,1)], given by two-component
    points. *)
Definition corner_path : list PathTesselator.Point :=
  [PathTesselator.mkPoint 0 0 None; PathTesselator.mkPoint 1 0 None;
   PathTesselator.mkPoint 1 1 None].

(** The cell an entry occupies in the atlas is the rectangle of its glyph
    grown by [buffer] on every side: from [x - buffer] to
    [x + width + buffer] across and from [y - buffer] to
    [y + height + buffer] down.  Two cells are disjoint when one ends, down
    or across, no later than the other begins. *)
Definition cellsDisjoint (buffer : Z) (e1 e2 : Frame) : Prop :=
  fy e1 + fheight e1 + buffer <= fy e2 - buffer \/
  fy e2 + fheight e2 + buffer <= fy e1 - buffer \/
  fx e1 + fwidth e1 + buffer <= fx e2 - buffer \/
  fx e2 + fwidth e2 + buffer <= fx e1 - buffer.

(** What the packing loop of [buildMapping] keeps true of the entries it
    has added to [mapping0]: each sits on a row [r] between 0 and the
    current row, at [y = yOffset + r * rowHeight + buffer], not left of
    [buffer], with the measured width and the font height, and left of the
    running [x] when on the current row; and any two of them occupy
    disjoint cells. *)
Definition packingInvariant (fontHeight buffer yOffset0 : Z)
    (mapping0 : gmap string Frame) (st : Packing) : Prop :=
  0 <= pk_x st /\ 0 <= pk_row st /\
  (forall (c : string) (e : Frame),
     mapping0 !! c = None -> pk_mapping st !! c = Some e ->
     exists r : Z,
       0 <= r <= pk_row st /\
       fy e = yOffset0 + r * (fontHeight + buffer * 2) + buffer /\
       buffer <= fx e /\ 0 <= fwidth e /\ fheight e = fontHeight /\
       (r = pk_row st -> fx e + fwidth e + buffer <= pk_x st)) /\
  (forall (c1 c2 : string) (e1 e2 : Frame),
     c1 <> c2 -> mapping0 !! c1 = None -> mapping0 !! c2 = None ->
     pk_mapping st !! c1 = Some e1 -> pk_mapping st !! c2 = Some e2 ->
     cellsDisjoint buffer e1 e2).

(** The advance of a character in a row laid out by glyph widths: the
    width of its frame, or the fallback width when it has none. *)
Definition charWidth (iconMapping : gmap string Frame) (c : string) : Z :=
  match iconMapping !! c with
  | Some frame => fwidth frame
  | None => MISSING_CHAR_WIDTH
  end.

(** Whether a character has no frame in the mapping. *)
Definition absent (iconMapping : gmap string Frame) (c : string) : bool :=
  match iconMapping !! c with
  | Some _ => false
  | None => true
  end.

(** Whether a character is not the line break. *)
Definition notNewline (c : string) : bool :=
  negb (String.eqb c (String "010"%char EmptyString)).

(** The characters of a list in the order of their first occurrence,
    leaving out those in [seen]. *)
Fixpoint firstOccurrences (seen : list string) (chars : list string)
    : list string :=
  match chars with
  | [] => []
  | c :: rest =>
      if bool_decide (c ∈ seen) then firstOccurrences seen rest
      else c :: firstOccurrences (c :: seen) rest
  end.

(** * text-layer/utils.js: the atlas packing *)

(** Two bounds on powers of a successor, (1 + 1/a)^E >= 1 + E/a and
    (1 + 1/a)^E <= 1 / (1 - E/a), cleared of fractions. *)
Lemma pow_succ_lower (a E : Z) :
  0 <= a -> 0 <= E -> a ^ E * (a + E) <= a * (a + 1) ^ E.
Proof.
  intros Ha HE. revert E HE. apply natlike_ind.
  - rewrite !Z.pow_0_r. lia.
  - intros E HE IH. rewrite !Z.pow_succ_r by exact HE.
    assert (HaE : 0 <= a ^ E) by (apply Z.pow_nonneg; exact Ha).
    set (u := a ^ E) in *. set (v := (a + 1) ^ E) in *. nia.
Qed.

Lemma pow_succ_upper (a E : Z) :
  0 <= E -> E <= a -> (a + 1) ^ E * (a - E) <= a ^ (E + 1).
Proof.
  intros HE. revert a. revert E HE. apply (natlike_ind (fun E => forall a, E <= a -> (a + 1) ^ E * (a - E) <= a ^ (E + 1))).
  - intros a Ha. rewrite Z.pow_0_r. simpl. rewrite Z.pow_1_r. lia.
  - intros E HE IH a Ha. specialize (IH a ltac:(lia)).
    rewrite (Z.pow_succ_r (a + 1)) by exact HE.
    replace (Z.succ E + 1) with (Z.succ (E + 1)) by lia.
    rewrite (Z.pow_succ_r a) by lia.
    assert (Hv : 0 <= (a + 1) ^ E) by (apply Z.pow_nonneg; lia).
    set (u := a ^ (E + 1)) in *. set (v := (a + 1) ^ E) in *. nia.
Qed.

Lemma pow_succ_upper_strict (a E : Z) :
  1 <= E -> E <= a -> (a + 1) ^ E * (a - E) < a ^ (E + 1).
Proof.
  intros HE Ha.
  pose proof (pow_succ_upper a (E - 1) ltac:(lia) ltac:(lia)) as H.
  replace (E - 1 + 1) with E in H by lia.
  replace E with (Z.succ (E - 1)) at 1 by lia.
  rewrite (Z.pow_succ_r (a + 1)) by lia.
  replace (E + 1) with (Z.succ E) by lia.
  rewrite (Z.pow_succ_r a) by lia.
  assert (Hv : 0 < (a + 1) ^ (E - 1)) by (apply Z.pow_pos_nonneg; lia).
  set (u := a ^ E) in *. set (v := (a + 1) ^ (E - 1)) in *. nia.
Qed.

Lemma log2_up_least (n j : Z) :
  1 <= n -> 0 <= j -> n <= 2 ^ j -> Z.log2_up n <= j.
Proof.
  intros Hn Hj Hle.
  destruct (Z.eq_dec n 1) as [-> | Hne].
  - rewrite Z.log2_up_1. exact Hj.
  - apply Z.log2_up_le_mono in Hle.
    rewrite Z.log2_up_pow2 in Hle by exact Hj. exact Hle.
Qed.

Lemma le_pow2_log2_up (n : Z) : 1 <= n -> n <= 2 ^ Z.log2_up n.
Proof.
  intros Hn. destruct (Z.eq_dec n 1) as [-> | Hne].
  - rewrite Z.log2_up_1. simpl. lia.
  - apply Z.log2_up_spec. lia.
Qed.


(** What [ceilLog2] returns: the exact ceiling, or one less at an argument
    above [2^49] that is no power of two and whose logarithm rounds down. *)
Lemma ceilLog2_cases (n : Z) :
  ceilLog2 n = Z.log2_up n \/
  (ceilLog2 n = Z.log2_up n - 1 /\ 2 ^ 49 < n /\ n <> 2 ^ Z.log2_up n /\
   log2RoundsDown n = true).
Proof.
  unfold ceilLog2.
  destruct (Z.eqb_spec n (2 ^ Z.log2_up n)) as [Heq | Hne]; [left; reflexivity |].
  destruct (Z.leb_spec n (2 ^ 49)) as [Hle | Hgt]; [left; reflexivity |].
  destruct (log2RoundsDown n) eqn:Hrd; [right | left; reflexivity].
  repeat split; assumption.
Qed.

Lemma ceilLog2_exact (n : Z) : n <= 2 ^ 49 -> ceilLog2 n = Z.log2_up n.
Proof.
  intros Hle. destruct (ceilLog2_cases n) as [H | (_ & Hgt & _)]; [exact H | lia].
Qed.

Lemma ceilLog2_pow2 (k : Z) : 0 <= k -> ceilLog2 (2 ^ k) = k.
Proof.
  intros Hk. destruct (ceilLog2_cases (2 ^ k)) as [H | (_ & _ & Hne & _)].
  - rewrite H. apply Z.log2_up_pow2. exact Hk.
  - rewrite Z.log2_up_pow2 in Hne by exact Hk. congruence.
Qed.

Lemma log2_up_above (n : Z) : 2 ^ 49 < n -> 50 <= Z.log2_up n.
Proof.
  intros Hgt.
  destruct (Z.le_gt_cases 50 (Z.log2_up n)) as [H | H]; [exact H | exfalso].
  pose proof (le_pow2_log2_up n ltac:(lia)) as Hle.
  assert (Hmono : 2 ^ Z.log2_up n <= 2 ^ 49)
    by (apply Z.pow_le_mono_r; lia).
  lia.
Qed.

Lemma ceilLog2_nonneg (n : Z) : 0 <= ceilLog2 n.
Proof.
  destruct (ceilLog2_cases n) as [H | (H & Hgt & _)]; rewrite H.
  - apply Z.log2_up_nonneg.
  - pose proof (log2_up_above n Hgt). lia.
Qed.

Lemma ceilLog2_monotone (m n : Z) :
  1 <= m -> m <= n -> ceilLog2 m <= ceilLog2 n.
Proof.
  intros Hm Hle.
  pose proof (Z.log2_up_le_mono m n Hle) as Hk.
  destruct (ceilLog2_cases n) as [En | (En & Hgt & Hne & Hrd)].
  - destruct (ceilLog2_cases m) as [Em | (Em & _)]; lia.
  - destruct (Z.eq_dec (Z.log2_up m) (Z.log2_up n)) as [Heq | Hlt].
    + assert (Hm' : ceilLog2 m = Z.log2_up m - 1); [| lia].
      pose proof (log2_up_above n Hgt) as H50.
      assert (Hm1 : 1 < m).
      { destruct (Z.eq_dec m 1) as [-> | H1]; [| lia].
        rewrite Z.log2_up_1 in Heq. lia. }
      destruct (Z.log2_up_spec m Hm1) as [Hlow _].
      assert (Hmgt : 2 ^ 49 < m).
      { assert (2 ^ 49 <= 2 ^ Z.pred (Z.log2_up m))
          by (apply Z.pow_le_mono_r; lia).
        lia. }
      pose proof (le_pow2_log2_up n ltac:(lia)) as Hnle.
      unfold ceilLog2.
      destruct (Z.eqb_spec m (2 ^ Z.log2_up m)) as [Hmeq | _];
        [rewrite Heq in Hmeq; lia |].
      destruct (Z.leb_spec m (2 ^ 49)) as [Hmle | _]; [lia |].
      assert (Hmrd : log2RoundsDown m = true); [| rewrite Hmrd; reflexivity].
      unfold log2RoundsDown in *. rewrite Heq.
      apply Z.ltb_lt in Hrd. apply Z.ltb_lt.
      eapply Z.le_lt_trans; [| exact Hrd].
      apply Z.pow_le_mono_l. lia.
    + destruct (ceilLog2_cases m) as [Em | (Em & _)]; lia.
Qed.

(** Next to [2^p] the logarithm rounds down as soon as half the spacing
    of the doubles at [p] covers the step to [2^p + 1]. *)
Lemma pow_succ_below_double (p E : Z) :
  0 <= p -> 1 <= E -> 2 * E <= 2 ^ p -> (2 ^ p + 1) ^ E < 2 ^ (p * E + 1).
Proof.
  intros Hp HE Hhalf.
  assert (Hle : E <= 2 ^ p) by lia.
  pose proof (pow_succ_upper_strict (2 ^ p) E HE Hle) as H.
  rewrite (Z.pow_add_r _ E 1), Z.pow_1_r in H by lia.
  rewrite Z.pow_add_r, Z.pow_1_r, Z.pow_mul_r by nia.
  assert (Hu : 0 < (2 ^ p) ^ E) by (apply Z.pow_pos_nonneg; lia).
  assert (Hv : 0 < (2 ^ p + 1) ^ E) by (apply Z.pow_pos_nonneg; lia).
  set (a := 2 ^ p) in *. set (u := a ^ E) in *. set (v := (a + 1) ^ E) in *.
  nia.
Qed.

Lemma pow_succ_above_double (j E n : Z) :
  0 <= j -> 2 ^ j <= E -> 2 ^ j < n -> 2 ^ (j * E + 1) <= n ^ E.
Proof.
  intros Hj HE Hn.
  assert (Ha : 0 < 2 ^ j) by (apply Z.pow_pos_nonneg; lia).
  pose proof (pow_succ_lower (2 ^ j) E ltac:(lia) ltac:(lia)) as H.
  assert (Hmono : (2 ^ j + 1) ^ E <= n ^ E) by (apply Z.pow_le_mono_l; lia).
  rewrite Z.pow_add_r, Z.pow_1_r, Z.pow_mul_r by nia.
  assert (Hu : 0 < (2 ^ j) ^ E) by (apply Z.pow_pos_nonneg; lia).
  set (a := 2 ^ j) in *. set (u := a ^ E) in *. set (v := (a + 1) ^ E) in *.
  set (w := n ^ E) in *. nia.
Qed.

(** Up to [2^49] the logarithm of an integer that is no power of two never
    rounds down to an integer: the shortcut in [ceilLog2] agrees with the
    rounding test. *)
Lemma log2RoundsDown_small (n : Z) :
  1 <= n -> n <= 2 ^ 49 -> n <> 2 ^ Z.log2_up n -> log2RoundsDown n = false.
Proof.
  intros Hn Hle Hne.
  assert (Hn1 : 1 < n).
  { destruct (Z.eq_dec n 1) as [-> | H1]; [| lia].
    rewrite Z.log2_up_1 in Hne. simpl in Hne. lia. }
  destruct (Z.log2_up_spec n Hn1) as [Hlow Hup].
  pose proof (log2_up_least n 49 Hn ltac:(lia) Hle) as Hk.
  set (k := Z.log2_up n) in *.
  assert (Hk2 : 2 <= k).
  { pose proof (Z.log2_up_pos n Hn1) as Hk0. fold k in Hk0.
    destruct (Z.eq_dec k 1) as [Hk1 | Hk1]; [exfalso | lia].
    rewrite Hk1 in Hne, Hup. rewrite Z.pow_1_r in Hne, Hup. lia. }
  unfold log2RoundsDown. fold k. cbv zeta.
  apply Z.ltb_ge.
  assert (He : Z.log2 (k - 1) < 6).
  { apply Z.log2_lt_pow2; [lia |]. simpl. lia. }
  apply pow_succ_above_double; [lia | |].
  - etransitivity; [| apply (Z.pow_le_mono_r 2 48 (53 - Z.log2 (k - 1))); lia].
    etransitivity; [apply (Z.pow_le_mono_r 2 (k - 1) 48); lia |].
    lia.
  - replace (k - 1) with (Z.pred k) by lia. exact Hlow.
Qed.

Lemma log2RoundsDown_first : log2RoundsDown (2 ^ 49 + 1) = true.
Proof.
  assert (Hk : Z.log2_up (2 ^ 49 + 1) - 1 = 49) by (vm_compute; reflexivity).
  unfold log2RoundsDown. rewrite Hk. cbv zeta.
  change (53 - Z.log2 49) with 48.
  apply Z.ltb_lt. apply pow_succ_below_double.
  - lia.
  - vm_compute. discriminate.
  - vm_compute. discriminate.
Qed.

Lemma nextPowOfTwo_pos (n : Z) :
  1 <= n -> nextPowOfTwo n = Num (2 ^ ceilLog2 n).
Proof.
  intros Hn. unfold nextPowOfTwo, Math_ceil_log2.
  destruct (Z.ltb_spec 0 n); [reflexivity | lia].
Qed.

Lemma ceilLog2_first : ceilLog2 (2 ^ 49 + 1) = 49.
Proof.
  unfold ceilLog2. rewrite log2RoundsDown_first. vm_compute. reflexivity.
Qed.

Lemma not_isPowOfTwo_zero : ~ isPowOfTwo (Num 0).
Proof.
  intros (k & Hk & Heq). injection Heq as Heq.
  pose proof (Z.pow_pos_nonneg 2 k ltac:(lia) Hk). lia.
Qed.

Section Packing.

Variable getFontWidth : string -> nat -> Z.
Variables fontHeight buffer maxCanvasWidth yOffset0 : Z.

Local Abbreviation place := (placeChar getFontWidth fontHeight buffer maxCanvasWidth yOffset0).
Local Abbreviation loop := (forEachChar getFontWidth fontHeight buffer maxCanvasWidth yOffset0).

Lemma forEachChar_app (l1 l2 : list string) (i : nat) (st : Packing) :
  loop i (l1 ++ l2)%list st = loop (i + length l1)%nat l2 (loop i l1 st).
Proof.
  revert i st. induction l1 as [| c l1 IH]; intros i st; simpl.
  - f_equal. lia.
  - rewrite IH. f_equal. lia.
Qed.

Lemma placeChar_keeps (st : Packing) (char c : string) (i : nat) (e : Frame) :
  pk_mapping st !! c = Some e -> pk_mapping (place st char i) !! c = Some e.
Proof.
  intros Hc. unfold placeChar.
  destruct (pk_mapping st !! char) eqn:Hchar; [exact Hc |].
  simpl. rewrite lookup_insert_ne; [exact Hc |].
  intros ->. congruence.
Qed.

Lemma forEachChar_keeps (chars : list string) (i : nat) (st : Packing)
    (c : string) (e : Frame) :
  pk_mapping st !! c = Some e -> pk_mapping (loop i chars st) !! c = Some e.
Proof.
  revert i st. induction chars as [| char rest IH]; intros i st Hc; simpl.
  - exact Hc.
  - apply IH. apply placeChar_keeps. exact Hc.
Qed.

Lemma placeChar_dom (st : Packing) (char c : string) (i : nat) :
  is_Some (pk_mapping (place st char i) !! c) <->
  is_Some (pk_mapping st !! c) \/ c = char.
Proof.
  unfold placeChar. destruct (pk_mapping st !! char) eqn:Hchar.
  - split; [tauto |]. intros [H | ->]; [exact H | eauto].
  - simpl. rewrite lookup_insert_is_Some.
    destruct (decide (char = c)) as [-> | Hne]; split; intros H; auto.
    + destruct H as [H | [_ H]]; auto.
    + destruct H as [H | H]; [right; auto | congruence].
Qed.

Lemma forEachChar_dom (chars : list string) (i : nat) (st : Packing)
    (c : string) :
  is_Some (pk_mapping (loop i chars st) !! c) <->
  is_Some (pk_mapping st !! c) \/ c ∈ chars.
Proof.
  revert i st. induction chars as [| char rest IH]; intros i st; simpl.
  - rewrite elem_of_nil. tauto.
  - rewrite IH, placeChar_dom, elem_of_cons. tauto.
Qed.

Lemma placeChar_fresh (st : Packing) (char : string) (i : nat) :
  pk_mapping st !! char = None ->
  let width := getFontWidth char i in
  let wrap := pk_x st + width + buffer * 2 >? maxCanvasWidth in
  let x := if wrap then 0 else pk_x st in
  let row := if wrap then pk_row st + 1 else pk_row st in
  pk_row (place st char i) = row /\
  pk_x (place st char i) = x + (width + buffer * 2) /\
  pk_mapping (place st char i) !! char =
    Some {| fx := x + buffer;
            fy := yOffset0 + row * (fontHeight + buffer * 2) + buffer;
            fwidth := width; fheight := fontHeight; fmask := true |}.
Proof.
  intros Hfresh. unfold placeChar. rewrite Hfresh. simpl.
  rewrite lookup_insert_eq. auto.
Qed.

End Packing.

Lemma packed_snoc getFontWidth fontHeight buffer maxCanvasWidth mapping0
    xOffset0 yOffset0 (pre : list string) (char : string) :
  packed getFontWidth fontHeight buffer maxCanvasWidth mapping0 xOffset0 yOffset0
    (pre ++ [char]) =
  placeChar getFontWidth fontHeight buffer maxCanvasWidth yOffset0
    (packed getFontWidth fontHeight buffer maxCanvasWidth mapping0 xOffset0
       yOffset0 pre) char (length pre).
Proof. unfold packed. rewrite forEachChar_app. reflexivity. Qed.

Lemma buildMapping_mapping_split getFontWidth fontHeight buffer maxCanvasWidth
    mapping0 xOffset0 yOffset0 (pre post : list string) (char : string) :
  mapping (buildMapping (pre ++ char :: post) getFontWidth fontHeight buffer
             maxCanvasWidth mapping0 xOffset0 yOffset0) =
  pk_mapping
    (forEachChar getFontWidth fontHeight buffer maxCanvasWidth yOffset0
       (S (length pre)) post
       (packed getFontWidth fontHeight buffer maxCanvasWidth mapping0 xOffset0
          yOffset0 (pre ++ [char]))).
Proof.
  unfold buildMapping, packed. simpl.
  replace (pre ++ char :: post)%list with ((pre ++ [char]) ++ post)%list
    by (rewrite <- app_assoc; reflexivity).
  rewrite (forEachChar_app _ _ _ _ _ (pre ++ [char])).
  rewrite length_app. simpl. do 2 f_equal. lia.
Qed.

(** C4. A character that [buildMapping] meets and that is not in the
    mapping yet starts a new row (the row index goes up by one and the
    character is placed at [x = 0 + buffer], leaving the running offset at
    [width + 2 * buffer]) exactly when the running [x] plus its width plus
    twice the buffer exceeds [maxCanvasWidth]; otherwise it stays on the
    current row at [x + buffer].  With [maxCanvasWidth = 64], [buffer = 2]
    and all widths 30, the second character lands on row 1. *)
Theorem buildMapping_row_wrap :
  (forall getFontWidth fontHeight buffer maxCanvasWidth mapping0 xOffset0
          yOffset0 (pre post : list string) (char : string),
     let before := packed getFontWidth fontHeight buffer maxCanvasWidth
                     mapping0 xOffset0 yOffset0 pre in
     let after := packed getFontWidth fontHeight buffer maxCanvasWidth
                    mapping0 xOffset0 yOffset0 (pre ++ [char]) in
     let width := getFontWidth char (length pre) in
     let result := buildMapping (pre ++ char :: post) getFontWidth fontHeight
                     buffer maxCanvasWidth mapping0 xOffset0 yOffset0 in
     pk_mapping before !! char = None ->
     (pk_x before + width + buffer * 2 > maxCanvasWidth ->
        pk_row after = pk_row before + 1 /\
        pk_x after = 0 + (width + buffer * 2) /\
        mapping result !! char =
          Some {| fx := 0 + buffer;
                  fy := yOffset0 + (pk_row before + 1) * (fontHeight + buffer * 2)
                        + buffer;
                  fwidth := width; fheight := fontHeight; fmask := true |}) /\
     (pk_x before + width + buffer * 2 <= maxCanvasWidth ->
        pk_row after = pk_row before /\
        pk_x after = pk_x before + (width + buffer * 2) /\
        mapping result !! char =
          Some {| fx := pk_x before + buffer;
                  fy := yOffset0 + pk_row before * (fontHeight + buffer * 2)
                        + buffer;
                  fwidth := width; fheight := fontHeight; fmask := true |}))
  /\
  (forall fontHeight yOffset0 (c1 c2 : string) (rest : list string),
     c1 <> c2 ->
     let result := buildMapping (c1 :: c2 :: rest) (fun _ _ => 30) fontHeight
                     2 64 ∅ 0 yOffset0 in
     mapping result !! c1 =
       Some {| fx := 2; fy := yOffset0 + 0 * (fontHeight + 4) + 2;
               fwidth := 30; fheight := fontHeight; fmask := true |} /\
     mapping result !! c2 =
       Some {| fx := 2; fy := yOffset0 + 1 * (fontHeight + 4) + 2;
               fwidth := 30; fheight := fontHeight; fmask := true |}).
Proof.
  assert (Hgen : forall getFontWidth fontHeight buffer maxCanvasWidth mapping0
            xOffset0 yOffset0 (pre post : list string) (char : string),
     let before := packed getFontWidth fontHeight buffer maxCanvasWidth
                     mapping0 xOffset0 yOffset0 pre in
     let after := packed getFontWidth fontHeight buffer maxCanvasWidth
                    mapping0 xOffset0 yOffset0 (pre ++ [char]) in
     let width := getFontWidth char (length pre) in
     let wrap := pk_x before + width + buffer * 2 >? maxCanvasWidth in
     pk_mapping before !! char = None ->
     pk_row after = (if wrap then pk_row before + 1 else pk_row before) /\
     pk_x after = (if wrap then 0 else pk_x before) + (width + buffer * 2) /\
     mapping (buildMapping (pre ++ char :: post) getFontWidth fontHeight
                buffer maxCanvasWidth mapping0 xOffset0 yOffset0) !! char =
       Some {| fx := (if wrap then 0 else pk_x before) + buffer;
               fy := yOffset0 +
                     (if wrap then pk_row before + 1 else pk_row before)
                     * (fontHeight + buffer * 2) + buffer;
               fwidth := width; fheight := fontHeight; fmask := true |}).
  { intros gfw fh b mcw m0 x0 y0 pre post char before after width wrap Hfresh.
    subst after. rewrite buildMapping_mapping_split, packed_snoc.
    fold before.
    destruct (placeChar_fresh gfw fh b mcw y0 before char (length pre) Hfresh)
      as (Hrow & Hx & Hmap).
    split; [exact Hrow |]. split; [exact Hx |].
    apply forEachChar_keeps. exact Hmap. }
  split.
  - intros gfw fh b mcw m0 x0 y0 pre post char before after width result Hfresh.
    destruct (Hgen gfw fh b mcw m0 x0 y0 pre post char Hfresh)
      as (Hrow & Hx & Hmap).
    fold before after width result in Hrow, Hx, Hmap.
    split; intros Hcmp.
    + assert (Hw : (pk_x before + width + b * 2 >? mcw) = true)
        by (apply Z.gtb_lt; lia).
      rewrite Hw in Hrow, Hx, Hmap. auto.
    + assert (Hw : (pk_x before + width + b * 2 >? mcw) = false).
      { rewrite Z.gtb_ltb. apply Z.ltb_ge. lia. }
      rewrite Hw in Hrow, Hx, Hmap. auto.
  - intros fh y0 c1 c2 rest Hne result. subst result.
    unfold buildMapping. cbn [mapping forEachChar].
    set (F1 := {| fx := 2; fy := y0 + 0 * (fh + 4) + 2; fwidth := 30;
                  fheight := fh; fmask := true |}).
    set (F2 := {| fx := 2; fy := y0 + 1 * (fh + 4) + 2; fwidth := 30;
                  fheight := fh; fmask := true |}).
    assert (H1 : placeChar (fun _ _ => 30) fh 2 64 y0
                   {| pk_mapping := ∅; pk_x := 0; pk_row := 0 |} c1 0 =
                 {| pk_mapping := <[c1 := F1]> ∅; pk_x := 34; pk_row := 0 |}).
    { unfold placeChar. cbn [pk_mapping pk_x pk_row].
      rewrite lookup_empty. reflexivity. }
    rewrite H1.
    assert (H2 : placeChar (fun _ _ => 30) fh 2 64 y0
                   {| pk_mapping := <[c1 := F1]> ∅; pk_x := 34; pk_row := 0 |}
                   c2 1 =
                 {| pk_mapping := <[c2 := F2]> (<[c1 := F1]> ∅);
                    pk_x := 34; pk_row := 1 |}).
    { unfold placeChar. cbn [pk_mapping pk_x pk_row].
      rewrite lookup_insert_ne by exact Hne.
      rewrite lookup_empty. reflexivity. }
    rewrite H2.
    split; apply forEachChar_keeps; cbn [pk_mapping].
    + rewrite lookup_insert_ne by (intros E; apply Hne; symmetry; exact E).
      apply lookup_insert_eq.
    + apply lookup_insert_eq.
Qed.

Lemma buildMapping_row_wrap_witness :
  mapping (buildMapping ["a"; "b"] (fun _ _ => 30) 10 2 64 ∅ 0 0) !! "b" =
    Some {| fx := 2; fy := 16; fwidth := 30; fheight := 10; fmask := true |} /\
  pk_row (packed (fun _ _ => 30) 10 2 64 ∅ 0 0 ["a"; "b"]) = 1.
Proof.
  split.
  - apply (proj2 buildMapping_row_wrap 10 0 "a" "b" []). discriminate.
  - assert (Hfresh : pk_mapping (packed (fun _ _ => 30) 10 2 64
                                    (∅ : gmap string Frame) 0 0 ["a"]) !! "b"
                     = None) by (vm_compute; reflexivity).
    destruct (proj1 buildMapping_row_wrap _ _ _ _ _ _ _ ["a"] [] "b" Hfresh)
      as [Hwrap _].
    assert (Hgt : pk_x (packed (fun _ _ => 30) 10 2 64
                          (∅ : gmap string Frame) 0 0 ["a"]) + 30 + 2 * 2 > 64)
      by (vm_compute; reflexivity).
    destruct (Hwrap Hgt) as [Hrow _].
    exact Hrow.
Defined.

(** Whenever the vertical extent used by the placed rows,
    [yOffset + (row + 1) * (fontHeight + 2 * buffer)], is at least 1 and
    at most [2^49], the [canvasHeight] that [buildMapping] returns is a
    power of two greater than or equal to that extent. *)
Lemma buildMapping_canvasHeight_pow2 :
  forall characterSet getFontWidth fontHeight buffer maxCanvasWidth mapping0
         xOffset0 yOffset0,
    let row := pk_row (packed getFontWidth fontHeight buffer maxCanvasWidth
                         mapping0 xOffset0 yOffset0 characterSet) in
    let extent := yOffset0 + (row + 1) * (fontHeight + 2 * buffer) in
    1 <= extent -> extent <= 2 ^ 49 ->
    powOfTwoAtLeast
      (canvasHeight (buildMapping characterSet getFontWidth fontHeight buffer
                       maxCanvasWidth mapping0 xOffset0 yOffset0))
      extent.
Proof.
  intros cs gfw fh b mcw m0 x0 y0 row extent Hpos Hbound.
  unfold buildMapping. cbn [canvasHeight]. fold (packed gfw fh b mcw m0 x0 y0 cs).
  fold row.
  replace (y0 + (row + 1) * (fh + b * 2)) with extent by (subst extent; lia).
  rewrite nextPowOfTwo_pos by exact Hpos.
  rewrite ceilLog2_exact by exact Hbound.
  exists (Z.log2_up extent). split; [apply Z.log2_up_nonneg |].
  split; [reflexivity |]. apply le_pow2_log2_up. exact Hpos.
Qed.

Lemma buildMapping_canvasHeight_pow2_witness :
  powOfTwoAtLeast
    (canvasHeight (buildMapping ["a"; "b"] (fun _ _ => 30) 10 2 64 ∅ 0 0)) 28.
Proof.
  assert (Hpos : 1 <= 0 + (pk_row (packed (fun _ _ => 30) 10 2 64
                                     (∅ : gmap string Frame) 0 0 ["a"; "b"]) + 1)
                           * (10 + 2 * 2))
    by (vm_compute; discriminate).
  assert (Hbound : 0 + (pk_row (packed (fun _ _ => 30) 10 2 64
                                  (∅ : gmap string Frame) 0 0 ["a"; "b"]) + 1)
                        * (10 + 2 * 2) <= 2 ^ 49)
    by (vm_compute; discriminate).
  exact (buildMapping_canvasHeight_pow2 ["a"; "b"] _ _ _ _ _ _ _ Hpos Hbound).
Defined.

(** C5. The claim that [canvasHeight] is always a power of two at least
    the extent used is broken by the code at [fontHeight = 0],
    [buffer = 0]: the extent is 0 and the returned [canvasHeight] is 0,
    which is no power of two, against the [power of 2] that the
    documentation of [buildMapping] promises. *)
Theorem buildMapping_canvasHeight_zero :
  let result := buildMapping ["a"] (fun _ _ => 10) 0 0 64 ∅ 0 0 in
  let row := pk_row (packed (fun _ _ => 10) 0 0 64 ∅ 0 0 ["a"]) in
  canvasHeight result = Num 0 /\
  ~ isPowOfTwo (canvasHeight result) /\
  ~ powOfTwoAtLeast (canvasHeight result) (0 + (row + 1) * (0 + 2 * 0)).
Proof.
  intros result row.
  assert (Hzero : canvasHeight result = Num 0) by (vm_compute; reflexivity).
  split; [exact Hzero |]. rewrite Hzero. split.
  - exact not_isPowOfTwo_zero.
  - intros (k & Hk & Heq & _). apply not_isPowOfTwo_zero. exists k. auto.
Qed.

(** C6. A call of [buildMapping] on an existing mapping leaves every
    character that is already in it with exactly its previous entry; the
    characters that get a new entry are those of the character set that
    were absent. *)
Theorem buildMapping_incremental :
  forall characterSet getFontWidth fontHeight buffer maxCanvasWidth
         (mapping0 : gmap string Frame) xOffset0 yOffset0,
    let result := buildMapping characterSet getFontWidth fontHeight buffer
                    maxCanvasWidth mapping0 xOffset0 yOffset0 in
    (forall (c : string) (e : Frame),
       mapping0 !! c = Some e -> mapping result !! c = Some e) /\
    (forall c : string,
       mapping0 !! c = None ->
       (is_Some (mapping result !! c) <-> c ∈ characterSet)).
Proof.
  intros cs gfw fh b mcw m0 x0 y0 result. subst result.
  unfold buildMapping. cbn [mapping]. split.
  - intros c e Hc. apply forEachChar_keeps. exact Hc.
  - intros c Hc. rewrite forEachChar_dom. cbn [pk_mapping].
    rewrite Hc. split.
    + intros [[e He] | Hin]; [discriminate | exact Hin].
    + intros Hin. right. exact Hin.
Qed.

Lemma buildMapping_incremental_witness :
  let old : gmap string Frame :=
    {[ "a" := {| fx := 2; fy := 2; fwidth := 30; fheight := 10; fmask := true |} ]} in
  mapping (buildMapping ["a"; "b"] (fun _ _ => 7) 10 2 64 old 34 0) !! "a" =
    Some {| fx := 2; fy := 2; fwidth := 30; fheight := 10; fmask := true |} /\
  is_Some (mapping (buildMapping ["a"; "b"] (fun _ _ => 7) 10 2 64 old 34 0) !! "b").
Proof.
  intros old.
  destruct (buildMapping_incremental ["a"; "b"] (fun _ _ => 7) 10 2 64 old 34 0)
    as [Hkeep Hnew].
  split.
  - apply Hkeep. vm_compute. reflexivity.
  - apply Hnew.
    + vm_compute. reflexivity.
    + apply elem_of_cons. right. apply elem_of_cons. left. reflexivity.
Defined.

(** The code breaks C10 as stated at [n = 2^49 + 1]: the logarithm of that
    integer is less than half a step of the doubles above 49, so
    [Math.log2] returns 49 and [nextPowOfTwo] returns [2^49], which is
    below the argument. *)
Lemma nextPowOfTwo_rounds_down :
  nextPowOfTwo (2 ^ 49 + 1) = Num (2 ^ 49) /\
  2 ^ 49 < 2 ^ 49 + 1 /\
  ~ (exists k : Z,
       0 <= k /\ nextPowOfTwo (2 ^ 49 + 1) = Num (2 ^ k) /\
       2 ^ 49 + 1 <= 2 ^ k).
Proof.
  assert (Hval : nextPowOfTwo (2 ^ 49 + 1) = Num (2 ^ 49)).
  { rewrite nextPowOfTwo_pos by (vm_compute; discriminate).
    rewrite ceilLog2_first. reflexivity. }
  split; [exact Hval |]. split; [lia |].
  intros (k & _ & Heq & Hle). rewrite Hval in Heq.
  injection Heq as Heq. rewrite <- Heq in Hle. lia.
Qed.

(** C10, amended. For every integer [n] with [1 <= n <= 2^49],
    [nextPowOfTwo n] is the least power of two greater than or equal to
    [n]; [nextPowOfTwo 0] is 0, so [buildMapping] with [fontHeight = 0],
    [buffer = 0] (and the default [yOffset = 0]) returns
    [canvasHeight = 0], which is not a power of two. *)
Theorem nextPowOfTwo_least :
  (forall n : Z, 1 <= n <= 2 ^ 49 ->
     exists k : Z,
       0 <= k /\ nextPowOfTwo n = Num (2 ^ k) /\ n <= 2 ^ k /\
       (forall j : Z, 0 <= j -> n <= 2 ^ j -> 2 ^ k <= 2 ^ j)) /\
  nextPowOfTwo 0 = Num 0 /\
  (forall characterSet getFontWidth maxCanvasWidth
          (mapping0 : gmap string Frame) xOffset0,
     canvasHeight (buildMapping characterSet getFontWidth 0 0 maxCanvasWidth
                     mapping0 xOffset0 0) = Num 0) /\
  ~ isPowOfTwo (Num 0).
Proof.
  split; [| split; [| split]].
  - intros n [Hn Hbound]. exists (Z.log2_up n).
    split; [apply Z.log2_up_nonneg |].
    split; [rewrite nextPowOfTwo_pos, ceilLog2_exact by assumption; reflexivity |].
    split; [apply le_pow2_log2_up; exact Hn |].
    intros j Hj Hle. apply Z.pow_le_mono_r; [lia |].
    apply log2_up_least; assumption.
  - reflexivity.
  - intros cs gfw mcw m0 x0. unfold buildMapping. cbn [canvasHeight].
    replace (0 + (pk_row _ + 1) * (0 + 0 * 2)) with 0 by lia.
    reflexivity.
  - exact not_isPowOfTwo_zero.
Qed.

Lemma nextPowOfTwo_least_witness :
  exists k : Z, 0 <= k /\ nextPowOfTwo 28 = Num (2 ^ k) /\ 28 <= 2 ^ k /\
    (forall j : Z, 0 <= j -> 28 <= 2 ^ j -> 2 ^ k <= 2 ^ j).
Proof.
  apply (proj1 nextPowOfTwo_least 28). split; [lia |]. vm_compute. discriminate.
Defined.

(** * text-layer/utils.js: row layout *)

Section Row.

Variable measure : Measure.
Variable iconMapping : gmap string Frame.
Variable lineHeight : Z.

Local Abbreviation chars_from textDiv n :=
  (mapChars iconMapping lineHeight measure textDiv n).

Lemma mapChars_app (textDiv : option TextDiv) (n i : nat)
    (l1 l2 : list string) (acc : RowAcc) :
  chars_from textDiv n i (l1 ++ l2)%list acc =
  ((fst (chars_from textDiv n i l1 acc)
    ++ fst (chars_from textDiv n (i + length l1)%nat l2
              (snd (chars_from textDiv n i l1 acc))))%list,
   snd (chars_from textDiv n (i + length l1)%nat l2
          (snd (chars_from textDiv n i l1 acc)))).
Proof.
  revert i acc. induction l1 as [| c l1 IH]; intros i acc.
  - simpl. replace (i + 0)%nat with i by lia.
    destruct (chars_from textDiv n i l2 acc). reflexivity.
  - simpl. destruct (rowChar _ _ _ _ _ acc c i) as [datum acc1].
    rewrite IH.
    replace (S i + length l1)%nat with (i + S (length l1))%nat by lia.
    destruct (chars_from textDiv n i l1 acc1).
    destruct (chars_from textDiv n (S i) l1 acc1). reflexivity.
Qed.

Lemma mapChars_one (textDiv : option TextDiv) (n i : nat) (c : string)
    (acc : RowAcc) :
  chars_from textDiv n i [c] acc =
  ([fst (rowChar iconMapping lineHeight measure textDiv n acc c i)],
   snd (rowChar iconMapping lineHeight measure textDiv n acc c i)).
Proof.
  simpl. destruct (rowChar _ _ _ _ _ acc c i). reflexivity.
Qed.

Lemma rowChar_text (textDiv : option TextDiv) (n i : nat) (acc : RowAcc)
    (c : string) :
  text (fst (rowChar iconMapping lineHeight measure textDiv n acc c i)) = c.
Proof.
  unfold rowChar. destruct textDiv as [div |].
  - destruct (iconMapping !! c); reflexivity.
  - destruct (iconMapping !! c); reflexivity.
Qed.

Lemma mapChars_texts (textDiv : option TextDiv) (n i : nat)
    (chars : list string) (acc : RowAcc) :
  map text (fst (chars_from textDiv n i chars acc)) = chars.
Proof.
  revert i acc. induction chars as [| c rest IH]; intros i acc; simpl.
  - reflexivity.
  - pose proof (rowChar_text textDiv n i acc c) as Hc.
    destruct (rowChar _ _ _ _ _ acc c i) as [datum acc1].
    specialize (IH (S i) acc1).
    destruct (chars_from textDiv n (S i) rest acc1) as [data acc2].
    simpl in *. rewrite Hc, IH. reflexivity.
Qed.

Lemma rowChar_missing (textDiv : option TextDiv) (n i : nat) (acc : RowAcc)
    (c : string) :
  iconMapping !! c = None ->
  let acc1 := snd (rowChar iconMapping lineHeight measure textDiv n acc c i) in
  acc_offsetLeft acc1 = acc_offsetLeft acc + MISSING_CHAR_WIDTH /\
  acc_warnings acc1 = (acc_warnings acc ++ [missing_character c])%list.
Proof.
  intros Hnone. unfold rowChar. destruct textDiv as [div |];
    rewrite Hnone; simpl; auto.
Qed.

Lemma rowChar_warnings (textDiv : option TextDiv) (n i : nat) (acc : RowAcc)
    (c : string) :
  exists more : list string,
    acc_warnings (snd (rowChar iconMapping lineHeight measure textDiv n acc c i))
    = (acc_warnings acc ++ more)%list.
Proof.
  unfold rowChar. destruct textDiv as [div |];
    destruct (iconMapping !! c); simpl;
    first [ exists []; rewrite app_nil_r; reflexivity | eexists; reflexivity ].
Qed.

Lemma mapChars_warnings (textDiv : option TextDiv) (n i : nat)
    (chars : list string) (acc : RowAcc) :
  exists more : list string,
    acc_warnings (snd (chars_from textDiv n i chars acc))
    = (acc_warnings acc ++ more)%list.
Proof.
  revert i acc. induction chars as [| c rest IH]; intros i acc; simpl.
  - exists []. rewrite app_nil_r. reflexivity.
  - destruct (rowChar_warnings textDiv n i acc c) as [m1 H1].
    destruct (rowChar _ _ _ _ _ acc c i) as [datum acc1].
    destruct (IH (S i) acc1) as [m2 H2].
    destruct (chars_from textDiv n (S i) rest acc1) as [data acc2].
    simpl in *. exists (m1 ++ m2)%list.
    rewrite H2, H1, app_assoc. reflexivity.
Qed.

(** Without [wordBreak], [rowHeight] is set once, by the first character
    whose frame yields a non-zero height. *)
Lemma mapChars_rowHeight_set (n i : nat) (chars : list string) (acc : RowAcc) :
  acc_rowHeight acc <> 0 ->
  acc_rowHeight (snd (chars_from None n i chars acc)) = acc_rowHeight acc.
Proof.
  revert i acc. induction chars as [| c rest IH]; intros i acc Hset; simpl.
  - reflexivity.
  - unfold rowChar. destruct (iconMapping !! c) as [frame |].
    + destruct (chars_from None n (S i) rest _) as [data acc2] eqn:E.
      simpl. change acc2 with (snd (data, acc2)). rewrite <- E.
      rewrite IH; simpl; destruct (Z.eqb_spec (acc_rowHeight acc) 0);
        congruence.
    + destruct (chars_from None n (S i) rest _) as [data acc2] eqn:E.
      simpl. change acc2 with (snd (data, acc2)). rewrite <- E.
      rewrite IH; simpl; congruence.
Qed.

Lemma mapChars_rowHeight_unset (n i : nat) (chars : list string)
    (acc : RowAcc) :
  acc_rowHeight acc = 0 ->
  (forall (c : string) (f : Frame),
     c ∈ chars -> iconMapping !! c = Some f -> fheight f * lineHeight = 0) ->
  acc_rowHeight (snd (chars_from None n i chars acc)) = 0.
Proof.
  revert i acc. induction chars as [| c rest IH]; intros i acc Hzero Hall; simpl.
  - exact Hzero.
  - unfold rowChar. destruct (iconMapping !! c) as [frame |] eqn:Hc.
    + destruct (chars_from None n (S i) rest _) as [data acc2] eqn:E.
      simpl. change acc2 with (snd (data, acc2)). rewrite <- E.
      apply IH.
      * simpl. rewrite Hzero. simpl. apply (Hall c frame); [left | exact Hc].
      * intros c' f' Hin. apply Hall. right. exact Hin.
    + destruct (chars_from None n (S i) rest _) as [data acc2] eqn:E.
      simpl. change acc2 with (snd (data, acc2)). rewrite <- E.
      apply IH; [exact Hzero |].
      intros c' f' Hin. apply Hall. right. exact Hin.
Qed.

Lemma mapChars_offsetTop (n i : nat) (chars : list string) (acc : RowAcc) :
  Forall (fun d => offsetTop d = 0) (fst (chars_from None n i chars acc)).
Proof.
  revert i acc. induction chars as [| c rest IH]; intros i acc; simpl.
  - constructor.
  - unfold rowChar.
    destruct (iconMapping !! c) as [frame |];
      (destruct (chars_from None n (S i) rest _) as [data acc2] eqn:E;
       simpl; constructor; [reflexivity |];
       change data with (fst (data, acc2)); rewrite <- E; apply IH).
Qed.

End Row.

Lemma measuredDiv_returns (row : string) (iconMapping : gmap string Frame)
    (width lineHeight : Z) (wordBreak : option string) (fontSize : Z)
    (fontFamily fontWeight : string) (textAlign : option string) :
  truthy wordBreak = false \/ iconMapping <> ∅ ->
  exists textDiv : option TextDiv,
    measuredDiv row iconMapping width lineHeight wordBreak fontSize
      fontFamily fontWeight textAlign = Ok textDiv /\
    (truthy wordBreak = false -> textDiv = None).
Proof.
  intros Hmode. unfold measuredDiv.
  destruct (truthy wordBreak) eqn:Hwb.
  - destruct Hmode as [Hfalse | Hne]; [discriminate |].
    unfold Object_values.
    destruct (map_to_list iconMapping) as [| [k first] rest] eqn:Hlist.
    + apply map_to_list_empty_iff in Hlist. contradiction.
    + simpl. eexists. split; [reflexivity | discriminate].
  - exists None. split; reflexivity.
Qed.

Lemma transformRow_unfold (measure : Measure) (row : string)
    (iconMapping : gmap string Frame)
    (width lineHeight : Z) (wordBreak : option string) (fontSize : Z)
    (fontFamily fontWeight : string) (textAlign : option string)
    (textDiv : option TextDiv) :
  measuredDiv row iconMapping width lineHeight wordBreak fontSize
    fontFamily fontWeight textAlign = Ok textDiv ->
  let n := length (Array_from row) in
  let run := mapChars iconMapping lineHeight measure textDiv n 0
               (Array_from row) rowStart in
  transformRow measure row iconMapping width lineHeight wordBreak fontSize
    fontFamily fontWeight textAlign =
  Ok {| characters := fst run;
        rowWidth := if truthy wordBreak then width else acc_offsetLeft (snd run);
        rowHeight := acc_rowHeight (snd run);
        warnings := acc_warnings (snd run) |}.
Proof.
  intros Hdiv n run. unfold transformRow. rewrite Hdiv.
  fold n. fold run. destruct run as [data acc]. reflexivity.
Qed.

(** Where row layout returns, that is without [wordBreak] or with it on
    a non-empty [iconMapping], it emits one record per character of the
    row, in order, and for every character absent from the [iconMapping]
    a warning is logged and [offsetLeft] advances by the fallback width
    32. *)
Lemma transformRow_missing_character :
  forall measure row (iconMapping : gmap string Frame) width lineHeight
         wordBreak fontSize fontFamily fontWeight textAlign,
    truthy wordBreak = false \/ iconMapping <> ∅ ->
    exists (textDiv : option TextDiv) (r : Row),
      measuredDiv row iconMapping width lineHeight wordBreak fontSize
        fontFamily fontWeight textAlign = Ok textDiv /\
      transformRow measure row iconMapping width lineHeight wordBreak
        fontSize fontFamily fontWeight textAlign = Ok r /\
      map text (characters r) = Array_from row /\
      forall (pre post : list string) (c : string),
        Array_from row = (pre ++ c :: post)%list ->
        iconMapping !! c = None ->
        let n := length (Array_from row) in
        let before := rowAfter measure iconMapping lineHeight textDiv n pre in
        let after := rowAfter measure iconMapping lineHeight textDiv n
                       (pre ++ [c]) in
        acc_offsetLeft after = acc_offsetLeft before + 32 /\
        acc_warnings after
          = (acc_warnings before ++ [missing_character c])%list /\
        missing_character c ∈ warnings r.
Proof.
  intros measure row iconMapping width lineHeight wordBreak fontSize
    fontFamily fontWeight textAlign Hmode.
  destruct (measuredDiv_returns row iconMapping width lineHeight wordBreak
              fontSize fontFamily fontWeight textAlign Hmode)
    as (textDiv & Hdiv & _).
  exists textDiv. eexists. split; [exact Hdiv |].
  split; [apply transformRow_unfold; exact Hdiv |].
  split; [cbn [characters]; apply mapChars_texts |].
  intros pre post c Hsplit Hnone n before after. cbn [warnings].
  assert (Hstep : acc_offsetLeft after = acc_offsetLeft before + 32 /\
                  acc_warnings after
                    = (acc_warnings before ++ [missing_character c])%list).
  { subst after before. unfold rowAfter.
    rewrite mapChars_app, mapChars_one. cbn [snd].
    apply (rowChar_missing measure iconMapping lineHeight textDiv n
             (0 + length pre)). exact Hnone. }
  destruct Hstep as [Hleft Hwarn].
  split; [exact Hleft |]. split; [exact Hwarn |].
  fold n. rewrite Hsplit.
  replace (pre ++ c :: post)%list with ((pre ++ [c]) ++ post)%list
    by (rewrite <- app_assoc; reflexivity).
  rewrite mapChars_app. cbn [snd].
  destruct (mapChars_warnings measure iconMapping lineHeight textDiv n
              (0 + length (pre ++ [c])) post
              (snd (mapChars iconMapping lineHeight measure textDiv n 0
                      (pre ++ [c]) rowStart))) as [more Hmore].
  rewrite Hmore. fold (rowAfter measure iconMapping lineHeight textDiv n
                         (pre ++ [c])). fold after.
  rewrite Hwarn. rewrite !elem_of_app. left. right.
  apply list_elem_of_singleton. reflexivity.
Qed.

Lemma transformRow_missing_character_witness :
  exists r : Row,
    transformRow (fun _ _ => mkDOMRect 0 0 0 0) "ab"
      {[ "a" := {| fx := 2; fy := 2; fwidth := 10; fheight := 20;
                   fmask := true |} ]}
      100 1 None 12 "Monaco" "normal" None = Ok r /\
    map text (characters r) = ["a"; "b"] /\
    missing_character "b" ∈ warnings r.
Proof.
  destruct (transformRow_missing_character (fun _ _ => mkDOMRect 0 0 0 0) "ab"
              {[ "a" := {| fx := 2; fy := 2; fwidth := 10; fheight := 20;
                           fmask := true |} ]}
              100 1 None 12 "Monaco" "normal" None)
    as (textDiv & r & _ & Hrow & Htext & Hmiss).
  - left. reflexivity.
  - exists r. split; [exact Hrow |]. split; [exact Htext |].
    apply (Hmiss ["a"] [] "b").
    + reflexivity.
    + vm_compute. reflexivity.
Defined.

(** C7. The claim that a character absent from the [iconMapping] never
    makes row layout throw is broken by the code under [wordBreak] on an
    empty [iconMapping]: the character ["a"] is absent, and [transformRow]
    throws while reading the height of the first frame, before any
    character is laid out or any warning logged. *)
Theorem transformRow_throws_on_empty_mapping :
  let call := transformRow (fun _ _ => mkDOMRect 0 0 10 20) "a" ∅ 100 1
                (Some "break-all") 12 "Monaco" "normal" None in
  (∅ : gmap string Frame) !! "a" = None /\
  call = TypeError "Cannot read property 'height' of undefined" /\
  ~ exists r : Row, call = Ok r.
Proof.
  intros call.
  assert (Hthrow : call = TypeError "Cannot read property 'height' of undefined")
    by (vm_compute; reflexivity).
  split; [apply lookup_empty |]. split; [exact Hthrow |].
  intros [r Hr]. rewrite Hthrow in Hr. discriminate.
Qed.

(** C9. Without [wordBreak], [transformRow] returns, and its [rowHeight]
    is [iconMapping[c].height * lineHeight] for the first character [c] of
    the row that is in the mapping with a non-zero such height; it is 0
    when no character of the row is in the mapping (an empty row
    included), and then the row loop of [transformParagraph] leaves
    [offsetTop] as it was for the rows that follow. *)
Theorem transformRow_rowHeight :
  forall measure (props : Props) (row : string),
    truthy (wordBreak props) = false ->
    exists r : Row,
      rowOf measure props row = Ok r /\
      (forall (pre post : list string) (c : string) (frame : Frame),
         Array_from row = (pre ++ c :: post)%list ->
         iconMapping props !! c = Some frame ->
         fheight frame * lineHeight props <> 0 ->
         (forall (c' : string) (f' : Frame),
            c' ∈ pre -> iconMapping props !! c' = Some f' ->
            fheight f' * lineHeight props = 0) ->
         rowHeight r = fheight frame * lineHeight props) /\
      ((forall c : string, c ∈ Array_from row -> iconMapping props !! c = None) ->
       rowHeight r = 0 /\
       forall (T : Type) (transformCharacter : Datum -> T) (sizeRef : loc)
              (acc : ParAcc T),
       exists acc' : ParAcc T,
         paragraphRow measure props transformCharacter sizeRef acc row = Ok acc' /\
         par_offsetTop acc' = par_offsetTop acc).
Proof.
  intros measure props row Hwb.
  destruct (measuredDiv_returns row (iconMapping props) (width props)
              (lineHeight props) (wordBreak props) (fontSize props)
              (fontFamily props) (fontWeight props) (textAlign props)
              (or_introl Hwb)) as (textDiv & Hdiv & Hnone).
  specialize (Hnone Hwb). subst textDiv.
  pose proof (transformRow_unfold measure row _ _ _ _ _ _ _ _ _ Hdiv) as Hrow.
  cbv zeta in Hrow. fold (rowOf measure props row) in Hrow.
  eexists. split; [exact Hrow |]. cbn [rowHeight]. split.
  - intros pre post c frame Hsplit Hc Hnz Hpre.
    rewrite Hsplit.
    replace (pre ++ c :: post)%list with ((pre ++ [c]) ++ post)%list
      by (rewrite <- app_assoc; reflexivity).
    rewrite mapChars_app. cbn [snd].
    assert (Hset : acc_rowHeight
                     (snd (mapChars (iconMapping props) (lineHeight props)
                             measure None
                             (length ((pre ++ [c]) ++ post)) 0 (pre ++ [c])
                             rowStart))
                   = fheight frame * lineHeight props).
    { rewrite mapChars_app, mapChars_one. cbn [snd].
      unfold rowChar at 1. rewrite Hc. cbn [snd acc_rowHeight].
      rewrite mapChars_rowHeight_unset; [reflexivity | reflexivity |].
      intros c' f' Hin Hf. apply (Hpre c' f' Hin Hf). }
    rewrite mapChars_rowHeight_set; [exact Hset |].
    rewrite Hset. exact Hnz.
  - intros Hall.
    assert (Hzero : acc_rowHeight
                      (snd (mapChars (iconMapping props) (lineHeight props)
                              measure None (length (Array_from row)) 0
                              (Array_from row) rowStart)) = 0).
    { apply mapChars_rowHeight_unset; [reflexivity |].
      intros c f Hin Hf. rewrite (Hall c Hin) in Hf. discriminate. }
    split; [exact Hzero |].
    intros T transformCharacter sizeRef acc.
    unfold paragraphRow. fold (rowOf measure props row). rewrite Hrow.
    cbn [alloc rowWidth rowHeight characters warnings].
    eexists. split; [reflexivity |]. cbn [par_offsetTop].
    rewrite Hzero. lia.
Qed.

Lemma transformRow_rowHeight_witness :
  let props :=
    {| paragraph := "a"; 
       iconMapping := {[ "a" := {| fx := 2; fy := 2; fwidth := 10;
                                   fheight := 20; fmask := true |} ]};
       lineHeight := 2; wordBreak := None; fontSize := 12;
       fontFamily := "Monaco"; fontWeight := "normal"; width := 100;
       textAlign := None |} in
  (exists r : Row,
     rowOf (fun _ _ => mkDOMRect 0 0 0 0) props "ba" = Ok r /\ rowHeight r = 40) /\
  (exists r : Row,
     rowOf (fun _ _ => mkDOMRect 0 0 0 0) props "" = Ok r /\ rowHeight r = 0).
Proof.
  intros props. split.
  - destruct (transformRow_rowHeight (fun _ _ => mkDOMRect 0 0 0 0) props "ba"
                eq_refl) as (r & Hrow & Hfirst & _).
    exists r. split; [exact Hrow |].
    apply (Hfirst ["b"] [] "a"
             {| fx := 2; fy := 2; fwidth := 10; fheight := 20; fmask := true |}).
    + reflexivity.
    + vm_compute. reflexivity.
    + vm_compute. discriminate.
    + intros c' f' Hin Hf. apply list_elem_of_singleton in Hin. subst c'.
      vm_compute in Hf. discriminate.
  - destruct (transformRow_rowHeight (fun _ _ => mkDOMRect 0 0 0 0) props ""
                eq_refl) as (r & Hrow & _ & Hnone).
    exists r. split; [exact Hrow |].
    apply Hnone. intros c Hin. apply elem_of_nil in Hin. contradiction.
Defined.

(** * text-layer/utils.js: paragraph layout *)

Lemma transformRow_inv (measure : Measure) (row : string)
    (iconMapping : gmap string Frame)
    (width lineHeight : Z) (wordBreak : option string) (fontSize : Z)
    (fontFamily fontWeight : string) (textAlign : option string) (r : Row) :
  transformRow measure row iconMapping width lineHeight wordBreak fontSize
    fontFamily fontWeight textAlign = Ok r ->
  exists textDiv : option TextDiv,
    (truthy wordBreak = false -> textDiv = None) /\
    let run := mapChars iconMapping lineHeight measure textDiv
                 (length (Array_from row)) 0 (Array_from row) rowStart in
    r = {| characters := fst run;
           rowWidth := if truthy wordBreak then width
                       else acc_offsetLeft (snd run);
           rowHeight := acc_rowHeight (snd run);
           warnings := acc_warnings (snd run) |}.
Proof.
  intros Hr.
  destruct (measuredDiv row iconMapping width lineHeight wordBreak fontSize
              fontFamily fontWeight textAlign) as [textDiv | msg] eqn:Hdiv.
  - exists textDiv. split.
    + intros Hwb. unfold measuredDiv in Hdiv. rewrite Hwb in Hdiv.
      congruence.
    + pose proof (transformRow_unfold measure row _ _ _ _ _ _ _ _ _ Hdiv) as Hu.
      cbv zeta in Hu |- *. congruence.
  - unfold transformRow in Hr. rewrite Hdiv in Hr. discriminate.
Qed.

Lemma transformRow_texts (measure : Measure) (props : Props) (row : string)
    (r : Row) :
  rowOf measure props row = Ok r -> map text (characters r) = Array_from row.
Proof.
  intros Hr. apply transformRow_inv in Hr. destruct Hr as (textDiv & _ & ->).
  cbn [characters]. apply mapChars_texts.
Qed.

Lemma mapChars_offsetLeft_nonneg (measure : Measure)
    (iconMapping : gmap string Frame) (lineHeight : Z) (n i : nat)
    (chars : list string) (acc : RowAcc) :
  (forall (c : string) (f : Frame), iconMapping !! c = Some f -> 0 <= fwidth f) ->
  0 <= acc_offsetLeft acc ->
  0 <= acc_offsetLeft
         (snd (mapChars iconMapping lineHeight measure None n i chars acc)).
Proof.
  intros Hw. revert i acc.
  induction chars as [| c rest IH]; intros i acc Hacc.
  - exact Hacc.
  - change (c :: rest) with ([c] ++ rest)%list.
    rewrite mapChars_app, mapChars_one. cbn [snd]. apply IH.
    unfold rowChar. destruct (iconMapping !! c) as [frame |] eqn:Hc.
    + cbn [snd acc_offsetLeft]. specialize (Hw c frame Hc). lia.
    + cbn [snd acc_offsetLeft]. unfold MISSING_CHAR_WIDTH. lia.
Qed.

Lemma rowWidth_nonneg (measure : Measure) (props : Props) (row : string)
    (r : Row) :
  (forall (c : string) (f : Frame),
     iconMapping props !! c = Some f -> 0 <= fwidth f) ->
  0 <= width props ->
  rowOf measure props row = Ok r -> 0 <= rowWidth r.
Proof.
  intros Hw Hwidth Hr. apply transformRow_inv in Hr.
  destruct Hr as (textDiv & Hnone & ->). cbn [rowWidth].
  destruct (truthy (wordBreak props)) eqn:Hwb; [exact Hwidth |].
  rewrite (Hnone eq_refl).
  apply mapChars_offsetLeft_nonneg; [exact Hw | reflexivity].
Qed.

Lemma split_newline_nonempty (s : string) : split_newline s <> [].
Proof.
  destruct s as [| c rest]; simpl; [discriminate |].
  destruct (Ascii.eqb c "010"%char); [discriminate |].
  destruct (split_newline rest); discriminate.
Qed.

Lemma foldl_max_upper (l : list Z) (a : Z) :
  a <= foldl Z.max a l /\ forall x : Z, x ∈ l -> x <= foldl Z.max a l.
Proof.
  revert a. induction l as [| y l IH]; intros a; simpl.
  - split; [lia |]. intros x Hx. apply elem_of_nil in Hx. contradiction.
  - destruct (IH (Z.max a y)) as [Hge Hall]. split; [lia |].
    intros x Hx. apply elem_of_cons in Hx. destruct Hx as [-> | Hx].
    + lia.
    + apply Hall. exact Hx.
Qed.

Lemma foldl_max_attained (l : list Z) (a : Z) :
  foldl Z.max a l = a \/ foldl Z.max a l ∈ l.
Proof.
  revert a. induction l as [| y l IH]; intros a; simpl.
  - left. reflexivity.
  - destruct (IH (Z.max a y)) as [Heq | Hin].
    + rewrite Heq. destruct (Z.max_spec a y) as [[_ ->] | [_ ->]].
      * right. left.
      * left. reflexivity.
    + right. right. exact Hin.
Qed.

Lemma foldl_max_isMaximum (l : list Z) :
  l <> [] -> (forall x : Z, x ∈ l -> 0 <= x) ->
  isMaximum (foldl Z.max 0 l) l.
Proof.
  intros Hne Hpos. destruct (foldl_max_upper l 0) as [Hge Hall].
  split; [exact Hall |].
  destruct (foldl_max_attained l 0) as [Heq | Hin]; [| exact Hin].
  destruct l as [| y l]; [contradiction |].
  assert (Hy : y = 0).
  { pose proof (Hall y ltac:(left)). pose proof (Hpos y ltac:(left)). lia. }
  rewrite Heq, <- Hy. left.
Qed.

Lemma layout_size (offsetTop0 : Z) (sizeRef rowSizeRef : loc)
    (rows : list Row) :
  Forall (fun d => size d = Some sizeRef)
         (layout offsetTop0 sizeRef rowSizeRef rows).
Proof.
  revert offsetTop0 rowSizeRef.
  induction rows as [| r rest IH]; intros o l; simpl.
  - constructor.
  - apply Forall_app. split; [| apply IH].
    apply Forall_forall. intros d Hd. apply list_elem_of_fmap in Hd.
    destruct Hd as (d0 & -> & _). reflexivity.
Qed.

Lemma layout_texts (offsetTop0 : Z) (sizeRef rowSizeRef : loc)
    (rows : list Row) :
  map text (layout offsetTop0 sizeRef rowSizeRef rows) =
  concat (map (fun r => map text (characters r)) rows).
Proof.
  revert offsetTop0 rowSizeRef.
  induction rows as [| r rest IH]; intros o l; simpl.
  - reflexivity.
  - rewrite map_app, IH, map_map. reflexivity.
Qed.

Section Paragraph.

Context {T : Type}.
Variable measure : Measure.
Variable props : Props.
Variable transformCharacter : Datum -> T.
Variable sizeRef : loc.

Lemma array_set_lookup (h : Store) (l : loc) (i : nat) (v : Z) (arr : list Z) :
  h !! l = Some arr -> array_set h l i v !! l = Some (<[i := v]> arr).
Proof.
  intros Hl. unfold array_set. rewrite list_lookup_alter_eq, Hl. reflexivity.
Qed.

Lemma paragraphRow_returns (acc : ParAcc T) (row : string) (r : Row) :
  rowOf measure props row = Ok r ->
  paragraphRow measure props transformCharacter sizeRef acc row =
  Ok {| par_store :=
          array_set (par_store acc ++ [[rowWidth r; rowHeight r]])%list sizeRef 0
            (Z.max (array_get (par_store acc ++ [[rowWidth r; rowHeight r]])%list
                      sizeRef 0) (rowWidth r));
        par_offsetTop := par_offsetTop acc + rowHeight r;
        par_data := (par_data acc
                     ++ map (fun datum =>
                               transformCharacter
                                 (placeDatum (par_offsetTop acc) sizeRef
                                    (length (par_store acc)) datum))
                            (characters r))%list;
        par_warnings := (par_warnings acc ++ warnings r)%list |}.
Proof.
  intros Hr. unfold paragraphRow. fold (rowOf measure props row).
  rewrite Hr. reflexivity.
Qed.

Lemma forEachRow_inv (rows : list string) (acc acc' : ParAcc T) (a b : Z) :
  forEachRow measure props transformCharacter sizeRef rows acc = Ok acc' ->
  par_store acc !! sizeRef = Some [a; b] ->
  exists rs : list Row,
    Forall2 (fun row r => rowOf measure props row = Ok r) rows rs /\
    par_offsetTop acc' = par_offsetTop acc + Zsum (rowHeight <$> rs) /\
    par_data acc' =
      (par_data acc
       ++ map transformCharacter
            (layout (par_offsetTop acc) sizeRef (length (par_store acc)) rs))%list /\
    par_store acc' !! sizeRef = Some [foldl Z.max a (rowWidth <$> rs); b].
Proof.
  revert acc a. induction rows as [| row rest IH]; intros acc a Hrun Hsize.
  - simpl in Hrun. injection Hrun as <-. exists []. simpl.
    split; [constructor |]. split; [lia |].
    split; [rewrite app_nil_r; reflexivity | exact Hsize].
  - simpl in Hrun.
    destruct (rowOf measure props row) as [r | msg] eqn:Hr.
    + rewrite (paragraphRow_returns acc row r Hr) in Hrun.
      assert (Hsize1 : (par_store acc ++ [[rowWidth r; rowHeight r]])%list
                         !! sizeRef = Some [a; b])
        by (apply lookup_app_l_Some; exact Hsize).
      assert (Hget : array_get (par_store acc ++ [[rowWidth r; rowHeight r]])%list
                       sizeRef 0 = a)
        by (unfold array_get; rewrite Hsize1; reflexivity).
      rewrite Hget in Hrun.
      apply (IH _ (Z.max a (rowWidth r))) in Hrun.
      * destruct Hrun as (rs & Hrows & Htop & Hdata & Hstore).
        exists (r :: rs). cbn [par_offsetTop par_data par_store] in *.
        split; [constructor; assumption |].
        split; [rewrite Htop; unfold Zsum; rewrite fmap_cons; cbn [foldr]; lia |].
        split; [| exact Hstore].
        rewrite Hdata. simpl layout. rewrite map_app, map_map, <- app_assoc.
        unfold array_set. rewrite length_alter, length_app. simpl length.
        replace (length (par_store acc) + 1)%nat with (S (length (par_store acc)))
          by lia.
        reflexivity.
      * cbn [par_store]. rewrite (array_set_lookup _ _ _ _ _ Hsize1).
        reflexivity.
    + unfold paragraphRow in Hrun. fold (rowOf measure props row) in Hrun.
      rewrite Hr in Hrun. discriminate.
Qed.

Lemma forEachRow_returns (rows : list string) (acc : ParAcc T) :
  truthy (wordBreak props) = false \/ iconMapping props <> ∅ ->
  exists acc' : ParAcc T,
    forEachRow measure props transformCharacter sizeRef rows acc = Ok acc'.
Proof.
  intros Hmode. revert acc. induction rows as [| row rest IH]; intros acc.
  - eexists. reflexivity.
  - simpl.
    destruct (measuredDiv_returns row (iconMapping props) (width props)
                (lineHeight props) (wordBreak props) (fontSize props)
                (fontFamily props) (fontWeight props) (textAlign props) Hmode)
      as (textDiv & Hdiv & _).
    pose proof (transformRow_unfold measure row _ _ _ _ _ _ _ _ _ Hdiv) as Hr.
    cbv zeta in Hr. fold (rowOf measure props row) in Hr.
    rewrite (paragraphRow_returns acc row _ Hr). apply IH.
Qed.

End Paragraph.

Lemma rows_texts (measure : Measure) (props : Props) (rows : list string)
    (rs : list Row) :
  Forall2 (fun row r => rowOf measure props row = Ok r) rows rs ->
  map (fun r => map text (characters r)) rs = map Array_from rows.
Proof.
  induction 1 as [| row r rows rs Hr _ IH]; simpl.
  - reflexivity.
  - rewrite IH, (transformRow_texts measure props row r Hr). reflexivity.
Qed.

Lemma rows_widths_nonneg (measure : Measure) (props : Props)
    (rows : list string) (rs : list Row) :
  (forall (c : string) (f : Frame),
     iconMapping props !! c = Some f -> 0 <= fwidth f) ->
  0 <= width props ->
  Forall2 (fun row r => rowOf measure props row = Ok r) rows rs ->
  forall x : Z, x ∈ rowWidth <$> rs -> 0 <= x.
Proof.
  intros Hw Hwidth. induction 1 as [| row r rows rs Hr _ IH]; intros x Hx.
  - apply elem_of_nil in Hx. contradiction.
  - rewrite fmap_cons in Hx. apply elem_of_cons in Hx.
    destruct Hx as [-> | Hx].
    + apply (rowWidth_nonneg measure props row r Hw Hwidth Hr).
    + apply IH. exact Hx.
Qed.

Lemma transformParagraph_inv {T : Type} (measure : Measure) (h : Store)
    (props : Props) (transformCharacter : Datum -> T)
    (transformedData : list T) (laid : Laid T) :
  transformParagraph measure h props transformCharacter transformedData
    = Ok laid ->
  laid_size laid = length h /\
  exists rs : list Row,
    Forall2 (fun row r => rowOf measure props row = Ok r)
      (split_newline (paragraph props)) rs /\
    laid_data laid =
      (transformedData
       ++ map transformCharacter (layout 0 (length h) (S (length h)) rs))%list /\
    laid_store laid !! length h =
      Some [foldl Z.max 0 (rowWidth <$> rs); Zsum (rowHeight <$> rs)].
Proof.
  unfold transformParagraph. cbn [alloc].
  destruct (forEachRow measure props transformCharacter (length h)
              (split_newline (paragraph props)) _) as [acc | msg] eqn:Hrun;
    [| discriminate].
  intros Hlaid. injection Hlaid as <-. cbn [laid_size laid_data laid_store].
  split; [reflexivity |].
  apply (forEachRow_inv _ _ _ _ _ _ _ 0 0) in Hrun.
  - destruct Hrun as (rs & Hrows & Htop & Hdata & Hstore).
    cbn [par_offsetTop par_data par_store] in *.
    exists rs. split; [exact Hrows |]. split.
    + rewrite Hdata, length_app. simpl length.
      replace (length h + 1)%nat with (S (length h)) by lia. reflexivity.
    + rewrite (array_set_lookup _ _ _ _ _ Hstore), Htop. reflexivity.
  - cbn [par_store]. apply list_lookup_middle. reflexivity.
Qed.

Lemma transformParagraph_returns {T : Type} (measure : Measure) (h : Store)
    (props : Props) (transformCharacter : Datum -> T)
    (transformedData : list T) :
  truthy (wordBreak props) = false \/ iconMapping props <> ∅ ->
  exists laid : Laid T,
    transformParagraph measure h props transformCharacter transformedData
      = Ok laid.
Proof.
  intros Hmode. unfold transformParagraph. cbn [alloc].
  destruct (forEachRow_returns measure props transformCharacter (length h)
              (split_newline (paragraph props))
              {| par_store := (h ++ [[0; 0]])%list; par_offsetTop := 0;
                 par_data := transformedData; par_warnings := [] |} Hmode)
    as [acc Hacc].
  rewrite Hacc. eexists. reflexivity.
Qed.

(** C8. Once [transformParagraph] returns, every record it emitted points
    to the paragraph's one [size] array, and that array holds the finalized
    bounding box: [Math.max] of 0 and all [rowWidth]s, which for
    non-negative glyph widths (and [width]) is the maximum [rowWidth] over
    all rows, and the sum of the [rowHeight]s over all rows.  The call
    returns without [wordBreak] (or on a non-empty mapping).  The paragraph
    [ab\ncd], laid out by glyph widths, yields exactly four records, those
    of row 0 at [offsetTop] 0 and those of row 1 at the height of row 0,
    all four holding the same [size] array. *)
Theorem transformParagraph_size_backfilled :
  forall (T : Type) measure (h : Store) props
         (transformCharacter : Datum -> T) (transformedData : list T),
    (truthy (wordBreak props) = false \/ iconMapping props <> ∅ ->
     exists laid : Laid T,
       transformParagraph measure h props transformCharacter transformedData
         = Ok laid) /\
    (forall laid : Laid T,
       transformParagraph measure h props transformCharacter transformedData
         = Ok laid ->
       exists (rs : list Row) (M : Z),
         Forall2 (fun row r => rowOf measure props row = Ok r)
           (split_newline (paragraph props)) rs /\
         let data := layout 0 (laid_size laid) (S (laid_size laid)) rs in
         laid_data laid = (transformedData ++ map transformCharacter data)%list /\
         map text data
           = concat (map Array_from (split_newline (paragraph props))) /\
         Forall (fun d => size d = Some (laid_size laid)) data /\
         laid_store laid !! laid_size laid
           = Some [M; Zsum (rowHeight <$> rs)] /\
         M = foldl Z.max 0 (rowWidth <$> rs) /\
         ((forall (c : string) (f : Frame),
             iconMapping props !! c = Some f -> 0 <= fwidth f) ->
          0 <= width props ->
          isMaximum M (rowWidth <$> rs))) /\
    (paragraph props = ab_cd -> truthy (wordBreak props) = false ->
     exists (laid : Laid T) (r0 r1 : Row) (da db dc dd : Datum),
       transformParagraph measure h props transformCharacter transformedData
         = Ok laid /\
       rowOf measure props "ab" = Ok r0 /\
       rowOf measure props "cd" = Ok r1 /\
       laid_data laid
         = (transformedData ++ map transformCharacter [da; db; dc; dd])%list /\
       map text [da; db; dc; dd] = ["a"; "b"; "c"; "d"] /\
       offsetTop da = 0 /\ offsetTop db = 0 /\
       offsetTop dc = rowHeight r0 /\ offsetTop dd = rowHeight r0 /\
       Forall (fun d => size d = Some (laid_size laid)) [da; db; dc; dd] /\
       laid_store laid !! laid_size laid
         = Some [Z.max 0 (Z.max (rowWidth r0) (rowWidth r1));
                 rowHeight r0 + rowHeight r1]).
Proof.
  intros T measure h props transformCharacter transformedData.
  split; [apply transformParagraph_returns |].
  split.
  - intros laid Hlaid.
    destruct (transformParagraph_inv _ _ _ _ _ _ Hlaid)
      as (Hsize & rs & Hrows & Hdata & Hstore).
    exists rs, (foldl Z.max 0 (rowWidth <$> rs)).
    split; [exact Hrows |]. rewrite Hsize. cbv zeta.
    split; [exact Hdata |].
    split; [rewrite layout_texts; apply f_equal;
            apply (rows_texts measure props); exact Hrows |].
    split; [apply layout_size |].
    split; [exact Hstore |]. split; [reflexivity |].
    intros Hw Hwidth. apply foldl_max_isMaximum.
    + pose proof (split_newline_nonempty (paragraph props)) as Hne.
      destruct Hrows; [contradiction | discriminate].
    + apply (rows_widths_nonneg measure props _ rs Hw Hwidth Hrows).
  - intros Hpar Hwb.
    destruct (transformParagraph_returns measure h props transformCharacter
                transformedData (or_introl Hwb)) as [laid Hlaid].
    destruct (transformParagraph_inv _ _ _ _ _ _ Hlaid)
      as (Hsize & rs & Hrows & Hdata & Hstore).
    rewrite Hpar in Hrows. change (split_newline ab_cd) with ["ab"; "cd"] in Hrows.
    apply Forall2_cons_inv_l in Hrows.
    destruct Hrows as (r0 & rs1 & Hr0 & Hrows & ->).
    apply Forall2_cons_inv_l in Hrows.
    destruct Hrows as (r1 & rs2 & Hr1 & Hrows & ->).
    apply Forall2_nil_inv_l in Hrows. subst rs2.
    pose proof (transformRow_texts _ _ _ _ Hr0) as Ht0.
    pose proof (transformRow_texts _ _ _ _ Hr1) as Ht1.
    assert (Htop : forall row r, rowOf measure props row = Ok r ->
                     Forall (fun d => offsetTop d = 0) (characters r)).
    { intros row r Hr. apply transformRow_inv in Hr.
      destruct Hr as (textDiv & Hnone & ->). rewrite (Hnone Hwb).
      cbn [characters]. apply mapChars_offsetTop. }
    pose proof (Htop _ _ Hr0) as Htop0. pose proof (Htop _ _ Hr1) as Htop1.
    simpl layout in Hdata. simpl in Hstore.
    destruct (characters r0) as [| a0 [| b0 [| ? ?]]]; try discriminate.
    destruct (characters r1) as [| c0 [| d0 [| ? ?]]]; try discriminate.
    simpl in Hdata, Ht0, Ht1.
    injection Ht0 as Ha Hb. injection Ht1 as Hc Hd.
    apply Forall_cons in Htop0. destruct Htop0 as [Ha0 Htop0].
    apply Forall_cons in Htop0. destruct Htop0 as [Hb0 _].
    apply Forall_cons in Htop1. destruct Htop1 as [Hc0 Htop1].
    apply Forall_cons in Htop1. destruct Htop1 as [Hd0 _].
    exists laid, r0, r1.
    exists (placeDatum 0 (length h) (S (length h)) a0),
           (placeDatum 0 (length h) (S (length h)) b0),
           (placeDatum (0 + rowHeight r0) (length h) (S (S (length h))) c0),
           (placeDatum (0 + rowHeight r0) (length h) (S (S (length h))) d0).
    split; [exact Hlaid |]. split; [exact Hr0 |]. split; [exact Hr1 |].
    split; [exact Hdata |].
    split; [simpl; congruence |].
    cbn [placeDatum offsetTop size].
    split; [lia |]. split; [lia |]. split; [lia |]. split; [lia |].
    rewrite Hsize.
    split; [repeat constructor |].
    rewrite Hstore. f_equal. f_equal; [lia | f_equal; lia].
Qed.

Lemma abcd_mapping_widths (c : string) (f : Frame) :
  abcd_mapping !! c = Some f -> 0 <= fwidth f.
Proof.
  unfold abcd_mapping. intros H.
  repeat (apply lookup_insert_Some in H;
          destruct H as [[_ <-] | [_ H]]; [simpl; lia |]).
  rewrite lookup_empty in H. discriminate.
Qed.

Lemma transformParagraph_size_backfilled_witness :
  exists (laid : Laid Datum) (rs : list Row) (M : Z),
    transformParagraph (fun _ _ => mkDOMRect 0 0 0 0) [] abcd_props id []
      = Ok laid /\
    length (laid_data laid) = 4%nat /\
    laid_store laid !! laid_size laid = Some [M; Zsum (rowHeight <$> rs)] /\
    isMaximum M (rowWidth <$> rs).
Proof.
  destruct (transformParagraph_size_backfilled Datum
              (fun _ _ => mkDOMRect 0 0 0 0) [] abcd_props id [])
    as (Hreturns & Hsize & Hab).
  destruct (Hreturns (or_introl eq_refl)) as [laid Hlaid].
  destruct (Hsize laid Hlaid)
    as (rs & M & _ & _ & _ & _ & Hstore & _ & Hmax).
  destruct (Hab eq_refl eq_refl)
    as (laid' & _ & _ & da & db & dc & dd & Hlaid' & _ & _ & Hdata & _).
  assert (Heq : laid' = laid) by congruence. subst laid'.
  exists laid, rs, M.
  split; [exact Hlaid |].
  split; [rewrite Hdata; reflexivity |].
  split; [exact Hstore |].
  apply Hmax; [exact abcd_mapping_widths | simpl; lia].
Defined.

(** * path-layer: the tesselator and the layer state *)

Import PathTesselator.

Lemma length_normalize (positionFormat : PositionFormat) (p : Point) :
  length (normalize positionFormat p) = 3%nat.
Proof. reflexivity. Qed.

Lemma length_tesselatePath (positionFormat : PositionFormat)
    (path : list Point) :
  length (tesselatePath positionFormat path) =
  if (length path <? 2)%nat then 0%nat else (length path - 1)%nat.
Proof.
  unfold tesselatePath. rewrite length_map.
  destruct (length path <? 2)%nat; [reflexivity |].
  rewrite length_map, length_seq. reflexivity.
Qed.

Lemma tesselatePath_lookup (positionFormat : PositionFormat)
    (path : list Point) (i : nat) :
  (i < length path - 1)%nat ->
  tesselatePath positionFormat path !! i =
  Some (segment (map (normalize positionFormat) path) i).
Proof.
  intros Hi. unfold tesselatePath. rewrite length_map.
  destruct (Nat.ltb_spec (length path) 2) as [Hlt | Hge]; [lia |].
  change (map (segment ?pts) ?l) with (segment pts <$> l).
  rewrite list_lookup_fmap, lookup_seq_lt by exact Hi. reflexivity.
Qed.

Lemma segment_widths (positionFormat : PositionFormat) (path : list Point)
    (i : nat) :
  (i < length path - 1)%nat ->
  let s := segment (map (normalize positionFormat) path) i in
  length (seg_start s) = 6%nat /\ length (seg_end s) = 6%nat.
Proof.
  intros Hi s. subst s. unfold segment. cbn [seg_start seg_end].
  set (points := map (normalize positionFormat) path).
  assert (Hlen : forall j d, (j < length path)%nat ->
                   length (default d (points !! j)) = 3%nat).
  { intros j d Hj. subst points.
    change (map ?f ?l) with (f <$> l). rewrite list_lookup_fmap.
    destruct (lookup_lt_is_Some_2 path j Hj) as [p ->]. reflexivity. }
  assert (Hself : length (default [] (points !! i)) = 3%nat)
    by (apply Hlen; lia).
  assert (Htarget : length (default [] (points !! (i + 1)%nat)) = 3%nat)
    by (apply Hlen; lia).
  split.
  - rewrite length_app, Hself.
    destruct (i =? 0)%nat; [rewrite Hself; reflexivity |].
    destruct (points !! (i - 1)%nat) as [p |] eqn:Hp; simpl.
    + assert (Hp3 : length p = 3%nat).
      { subst points. change (map ?f ?l) with (f <$> l) in Hp.
        rewrite list_lookup_fmap in Hp.
        destruct (path !! (i - 1)%nat); [| discriminate].
        injection Hp as <-. reflexivity. }
      rewrite Hp3. reflexivity.
    + rewrite Hself. reflexivity.
  - rewrite length_app, Htarget.
    destruct (points !! (i + 2)%nat) as [p |] eqn:Hp; simpl.
    + assert (Hp3 : length p = 3%nat).
      { subst points. change (map ?f ?l) with (f <$> l) in Hp.
        rewrite list_lookup_fmap in Hp.
        destruct (path !! (i + 2)%nat); [| discriminate].
        injection Hp as <-. reflexivity. }
      rewrite Hp3. reflexivity.
    + rewrite Htarget. reflexivity.
Qed.

Lemma tesselatePath_widths (positionFormat : PositionFormat)
    (path : list Point) :
  Forall (fun s => length (seg_start s) = 6%nat /\ length (seg_end s) = 6%nat)
         (tesselatePath positionFormat path).
Proof.
  apply Forall_lookup. intros i s Hs.
  assert (Hi : (i < length (tesselatePath positionFormat path))%nat)
    by (apply lookup_lt_is_Some; eauto).
  rewrite length_tesselatePath in Hi.
  destruct (Nat.ltb_spec (length path) 2) as [Hlt | Hge]; [lia |].
  rewrite tesselatePath_lookup in Hs by exact Hi.
  injection Hs as <-. apply segment_widths. exact Hi.
Qed.

Lemma length_concat_fixed {A B : Type} (f : A -> list B) (k : nat)
    (l : list A) :
  Forall (fun x => length (f x) = k) l ->
  length (concat (map f l)) = (k * length l)%nat.
Proof.
  induction 1 as [| x l Hx _ IH]; simpl.
  - lia.
  - rewrite length_app, Hx, IH. lia.
Qed.

Lemma concat_lookup_offset {A : Type} (ls : list (list A)) (k i : nat)
    (l : list A) :
  ls !! k = Some l -> (i < length l)%nat ->
  concat ls !! (sum_list (length <$> take k ls) + i)%nat = l !! i.
Proof.
  revert k. induction ls as [| l0 ls IH]; intros k Hk Hi.
  - rewrite lookup_nil in Hk. discriminate.
  - destruct k as [| k]; simpl in *.
    + injection Hk as ->. rewrite lookup_app_l by exact Hi. reflexivity.
    + rewrite <- Nat.add_assoc, lookup_app_r by lia.
      match goal with
      | |- concat ls !! (?a + ?b - ?a)%nat = _ =>
          replace (a + b - a)%nat with b by lia
      end.
      apply IH; assumption.
Qed.

Lemma updateGeometry_widths {R : Type} (t : Tesselator) (data : list R)
    (getGeometry : R -> list Point) (positionFormat : PositionFormat) :
  Forall (fun s => length (seg_start s) = 6%nat /\ length (seg_end s) = 6%nat)
    (concat (map (fun record => tesselatePath positionFormat (getGeometry record))
                 data)).
Proof.
  induction data as [| record data IH]; simpl.
  - constructor.
  - apply Forall_app. split; [apply tesselatePath_widths | exact IH].
Qed.

(** C1. After [updateGeometry] the layout sums to [instanceCount], which
    is the length of [segmentTypes] and a sixth of the lengths of
    [startPositions] and [endPositions]; after a geometry change the layer
    state holds the tesselator's [instanceCount] and [bufferLayout] as
    [numInstances] and [bufferLayout], and the attribute callbacks hand out
    the tesselator's layout and streams. *)
Theorem updateGeometry_counts :
  (forall (R : Type) (t : Tesselator) (data : list R)
          (getGeometry : R -> list Point) (positionFormat : PositionFormat)
          (dataChanged : bool),
     let t' := updateGeometry t data getGeometry positionFormat dataChanged in
     sum_list (bufferLayout t') = instanceCount t' /\
     instanceCount t' = length (segmentTypes t') /\
     length (startPositions t') = (6 * instanceCount t')%nat /\
     length (endPositions t') = (6 * instanceCount t')%nat /\
     length (bufferLayout t') = length data) /\
  (forall (R : Type) (props : PathLayer.LayerProps R)
          (changeFlags : PathLayer.ChangeFlags) (s : PathLayer.LayerState),
     PathLayer.geometryChanged changeFlags = true ->
     let s' := PathLayer.updateState props changeFlags s in
     let t' := PathLayer.pathTesselator s' in
     t' = updateGeometry (PathLayer.pathTesselator s) (PathLayer.data props)
            (PathLayer.props_getPath props) (PathLayer.positionFormat props)
            (PathLayer.dataChanged changeFlags) /\
     PathLayer.numInstances s' = Some (instanceCount t') /\
     PathLayer.bufferLayout s' = Some (bufferLayout t') /\
     PathLayer.calculateStartPositions s' =
       {| PathLayer.attribute_bufferLayout := bufferLayout t';
          PathLayer.attribute_value := startPositions t' |} /\
     PathLayer.calculateEndPositions s' =
       {| PathLayer.attribute_bufferLayout := bufferLayout t';
          PathLayer.attribute_value := endPositions t' |} /\
     PathLayer.calculateSegmentTypes s' =
       {| PathLayer.attribute_bufferLayout := bufferLayout t';
          PathLayer.attribute_value := segmentTypes t' |}).
Proof.
  split.
  - intros R t data getGeometry positionFormat dataChanged t'. subst t'.
    unfold updateGeometry.
    cbn [bufferLayout instanceCount startPositions endPositions segmentTypes].
    pose proof (updateGeometry_widths t data getGeometry positionFormat) as Hw.
    set (paths := map _ data) in *.
    split; [symmetry; apply length_concat |].
    split; [rewrite length_map; reflexivity |].
    split; [apply length_concat_fixed;
            eapply Forall_impl; [exact Hw | intros s [Hs _]; exact Hs] |].
    split; [apply length_concat_fixed;
            eapply Forall_impl; [exact Hw | intros s [_ He]; exact He] |].
    subst paths. rewrite !length_map. reflexivity.
  - intros R props changeFlags s Hchanged s' t'. subst t' s'.
    unfold PathLayer.updateState. rewrite Hchanged.
    unfold PathLayer.super_updateState, PathLayer.calculateStartPositions,
      PathLayer.calculateEndPositions, PathLayer.calculateSegmentTypes.
    destruct (PathLayer.dataChanged changeFlags);
      destruct (PathLayer.extensionsChanged changeFlags);
      cbn; repeat split; reflexivity.
Qed.

Lemma updateGeometry_counts_witness :
  let s' := PathLayer.updateState
              {| PathLayer.data := [[mkPoint 0 0 None; mkPoint 1 0 None;
                                     mkPoint 1 1 None]; [mkPoint 5 5 None]];
                 PathLayer.props_getPath := id;
                 PathLayer.positionFormat := XYZ |}
              {| PathLayer.dataChanged := true;
                 PathLayer.updateTriggersChanged := None;
                 PathLayer.extensionsChanged := false |}
              PathLayer.initializeState in
  PathLayer.numInstances s' = Some (instanceCount (PathLayer.pathTesselator s')) /\
  PathLayer.bufferLayout s' = Some (bufferLayout (PathLayer.pathTesselator s')).
Proof.
  intros s'.
  destruct (proj2 updateGeometry_counts (list Point)
              {| PathLayer.data := [[mkPoint 0 0 None; mkPoint 1 0 None;
                                     mkPoint 1 1 None]; [mkPoint 5 5 None]];
                 PathLayer.props_getPath := id;
                 PathLayer.positionFormat := XYZ |}
              {| PathLayer.dataChanged := true;
                 PathLayer.updateTriggersChanged := None;
                 PathLayer.extensionsChanged := false |}
              PathLayer.initializeState eq_refl)
    as (_ & Hnum & Hlayout & _).
  split; [exact Hnum | exact Hlayout].
Defined.

(** C2. A record whose path has [N] points gets the layout entry 0 when
    [N < 2] and [N - 1] when [N >= 2]; in the latter case its segments
    lie in [segmentTypes] from the sum of the earlier layout entries on,
    and their tags are 3 for the only segment when [N = 2], otherwise 1
    for segment 0, 2 for segment [N - 2] and 0 for the segments in
    between. *)
Theorem updateGeometry_segment_types :
  forall (R : Type) (t : Tesselator) (data : list R)
         (getGeometry : R -> list Point) (positionFormat : PositionFormat)
         (dataChanged : bool) (k : nat) (record : R),
    data !! k = Some record ->
    let N := length (getGeometry record) in
    let t' := updateGeometry t data getGeometry positionFormat dataChanged in
    let offset := sum_list (take k (bufferLayout t')) in
    ((N < 2)%nat ->
       length (tesselatePath positionFormat (getGeometry record)) = 0%nat /\
       bufferLayout t' !! k = Some 0%nat) /\
    ((2 <= N)%nat ->
       length (tesselatePath positionFormat (getGeometry record)) = (N - 1)%nat /\
       bufferLayout t' !! k = Some (N - 1)%nat /\
       (N = 2%nat -> segmentTypes t' !! offset = Some 3) /\
       ((2 < N)%nat ->
          segmentTypes t' !! offset = Some 1 /\
          segmentTypes t' !! (offset + (N - 2))%nat = Some 2 /\
          forall i : nat, (0 < i < N - 2)%nat ->
            segmentTypes t' !! (offset + i)%nat = Some 0)).
Proof.
  intros R t data getGeometry positionFormat dataChanged k record Hk N t' offset.
  set (paths := map (fun record => tesselatePath positionFormat (getGeometry record))
                    data).
  assert (Hpath : paths !! k
                  = Some (tesselatePath positionFormat (getGeometry record))).
  { subst paths. change (map ?f ?l) with (f <$> l).
    rewrite list_lookup_fmap, Hk. reflexivity. }
  assert (Hlayout : bufferLayout t' !! k
                    = Some (length (tesselatePath positionFormat
                                      (getGeometry record)))).
  { subst t'. unfold updateGeometry. cbn [bufferLayout]. fold paths.
    change (map ?f ?l) with (f <$> l).
    rewrite list_lookup_fmap, Hpath. reflexivity. }
  assert (Htype : forall i : nat, (i < N - 1)%nat ->
            segmentTypes t' !! (offset + i)%nat = Some (segmentType N i)).
  { intros i Hi. subst t' offset. unfold updateGeometry.
    cbn [bufferLayout segmentTypes]. fold paths.
    change (map ?f ?l) with (f <$> l).
    rewrite list_lookup_fmap, <- fmap_take.
    rewrite (concat_lookup_offset paths k i _ Hpath).
    - rewrite tesselatePath_lookup by exact Hi.
      cbn. rewrite length_map. reflexivity.
    - rewrite length_tesselatePath. fold N.
      destruct (Nat.ltb_spec N 2); lia. }
  pose proof (length_tesselatePath positionFormat (getGeometry record)) as Hlen.
  fold N in Hlen. rewrite Hlayout.
  split.
  - intros HN. destruct (Nat.ltb_spec N 2) as [_ | Hge]; [| lia].
    rewrite Hlen. auto.
  - intros HN. destruct (Nat.ltb_spec N 2) as [Hlt | _]; [lia |].
    rewrite Hlen. split; [reflexivity |]. split; [reflexivity |].
    split.
    + intros H2. replace offset with (offset + 0)%nat by lia.
      rewrite Htype by lia. rewrite H2. reflexivity.
    + intros H3. split; [| split].
      * replace offset with (offset + 0)%nat by lia.
        rewrite Htype by lia. unfold segmentType.
        destruct (Nat.eqb_spec N 2); [lia | reflexivity].
      * rewrite Htype by lia. unfold segmentType.
        destruct (Nat.eqb_spec N 2); [lia |].
        destruct (Nat.eqb_spec (N - 2) 0); [lia |].
        rewrite Nat.eqb_refl. reflexivity.
      * intros i Hi. rewrite Htype by lia. unfold segmentType.
        destruct (Nat.eqb_spec N 2); [lia |].
        destruct (Nat.eqb_spec i 0); [lia |].
        destruct (Nat.eqb_spec i (N - 2)); [lia | reflexivity].
Qed.

Lemma updateGeometry_segment_types_witness :
  let t' := updateGeometry create [[mkPoint 5 5 None]; corner_path] id XYZ true in
  bufferLayout t' !! 0%nat = Some 0%nat /\
  bufferLayout t' !! 1%nat = Some 2%nat /\
  segmentTypes t' !! 0%nat = Some 1 /\
  segmentTypes t' !! 1%nat = Some 2.
Proof.
  intros t'.
  destruct (updateGeometry_segment_types (list Point) create
              [[mkPoint 5 5 None]; corner_path] id XYZ true 0 [mkPoint 5 5 None]
              eq_refl) as [Hshort _].
  destruct (updateGeometry_segment_types (list Point) create
              [[mkPoint 5 5 None]; corner_path] id XYZ true 1 corner_path
              eq_refl) as [_ Hlong].
  destruct (Hshort ltac:(simpl; lia)) as [_ H0].
  destruct (Hlong ltac:(simpl; lia)) as (_ & H1 & _ & Htypes).
  destruct (Htypes ltac:(simpl; lia)) as (Hfirst & Hlast & _).
  split; [exact H0 |]. split; [exact H1 |].
  split; [exact Hfirst | exact Hlast].
Defined.

(** C3. Tesselating the single path [(0,0), (1,0), (1,1)] under the
    three-component format gives two segments, with
    [start0 = [0,0,0, 0,0,0]], [end0 = [1,0,0, 1,1,0]], [type0 = 1],
    [start1 = [0,0,0, 1,0,0]], [end1 = [1,1,0, 1,1,0]], [type1 = 2].  In
    general the first segment of a path carries its own start as the
    previous point, and the last segment its own end as the next point. *)
Theorem tesselate_corner_path :
  (forall (t : Tesselator) (dataChanged : bool),
     let t' := updateGeometry t [corner_path] id XYZ dataChanged in
     instanceCount t' = 2%nat /\
     bufferLayout t' = [2%nat] /\
     startPositions t' = [0; 0; 0; 0; 0; 0;  0; 0; 0; 1; 0; 0] /\
     endPositions t' = [1; 0; 0; 1; 1; 0;  1; 1; 0; 1; 1; 0] /\
     segmentTypes t' = [1; 2]) /\
  (forall (positionFormat : PositionFormat) (path : list Point)
          (first last : Point),
     (2 <= length path)%nat ->
     path !! 0%nat = Some first ->
     path !! (length path - 1)%nat = Some last ->
     exists s0 sl : Segment,
       tesselatePath positionFormat path !! 0%nat = Some s0 /\
       tesselatePath positionFormat path !! (length path - 2)%nat = Some sl /\
       seg_start s0 = (normalize positionFormat first
                       ++ normalize positionFormat first)%list /\
       seg_end sl = (normalize positionFormat last
                     ++ normalize positionFormat last)%list).
Proof.
  split.
  - intros t dataChanged t'. subst t'. cbv. repeat split; reflexivity.
  - intros positionFormat path first last HN Hfirst Hlast.
    exists (segment (map (normalize positionFormat) path) 0),
           (segment (map (normalize positionFormat) path) (length path - 2)).
    split; [apply tesselatePath_lookup; lia |].
    split; [apply tesselatePath_lookup; lia |].
    unfold segment. cbn [seg_start seg_end].
    change (map ?f ?l) with (f <$> l). rewrite !list_lookup_fmap.
    split.
    + rewrite Hfirst. reflexivity.
    + replace (length path - 2 + 1)%nat with (length path - 1)%nat by lia.
      rewrite Hlast.
      rewrite (lookup_ge_None_2 path (length path - 2 + 2)) by lia.
      reflexivity.
Qed.

Lemma tesselate_corner_path_witness :
  exists s0 sl : Segment,
    tesselatePath XYZ corner_path !! 0%nat = Some s0 /\
    tesselatePath XYZ corner_path !! 1%nat = Some sl /\
    seg_start s0 = [0; 0; 0; 0; 0; 0] /\
    seg_end sl = [1; 1; 0; 1; 1; 0].
Proof.
  apply (proj2 tesselate_corner_path XYZ corner_path
           (mkPoint 0 0 None) (mkPoint 1 1 None)).
  - simpl. lia.
  - reflexivity.
  - reflexivity.
Defined.

(** * Further properties of the atlas packing *)



(** [nextPowOfTwo] is idempotent: whatever number it returns, it returns
    the same number when applied to it (the powers of two and 0 are its
    fixed points). *)
Theorem nextPowOfTwo_idempotent (n p : Z) :
  nextPowOfTwo n = Num p -> nextPowOfTwo p = Num p.
Proof.
  unfold nextPowOfTwo at 1, Math_ceil_log2.
  destruct (Z.ltb_spec 0 n) as [Hpos | Hle].
  - cbn [Math_pow2]. intros [= <-].
    pose proof (ceilLog2_nonneg n) as Hk.
    rewrite nextPowOfTwo_pos.
    + rewrite ceilLog2_pow2 by exact Hk. reflexivity.
    + pose proof (Z.pow_pos_nonneg 2 (ceilLog2 n) ltac:(lia) Hk). lia.
  - destruct (Z.eqb_spec n 0) as [-> | Hne]; cbn [Math_pow2].
    + intros [= <-]. reflexivity.
    + discriminate.
Qed.

Lemma nextPowOfTwo_idempotent_witness : nextPowOfTwo 32 = Num 32.
Proof.
  apply (nextPowOfTwo_idempotent 28 32). reflexivity.
Defined.




Section PackingMore.

Variables fontHeight buffer maxCanvasWidth : Z.

Lemma placeChar_known getFontWidth yOffset0 (st : Packing) (c : string)
    (i : nat) :
  is_Some (pk_mapping st !! c) ->
  placeChar getFontWidth fontHeight buffer maxCanvasWidth yOffset0 st c i = st.
Proof.
  intros [e He]. unfold placeChar. rewrite He. reflexivity.
Qed.

Lemma forEachChar_known getFontWidth yOffset0 (chars : list string) (i : nat)
    (st : Packing) :
  (forall c : string, c ∈ chars -> is_Some (pk_mapping st !! c)) ->
  forEachChar getFontWidth fontHeight buffer maxCanvasWidth yOffset0 i chars st
  = st.
Proof.
  revert i. induction chars as [| c rest IH]; intros i Hall; simpl.
  - reflexivity.
  - rewrite placeChar_known by (apply Hall; left).
    apply IH. intros c' Hin. apply Hall. right. exact Hin.
Qed.

Lemma forEachChar_row_grows getFontWidth yOffset0 (chars : list string)
    (i : nat) (st : Packing) :
  pk_row st <=
  pk_row (forEachChar getFontWidth fontHeight buffer maxCanvasWidth yOffset0
            i chars st).
Proof.
  revert i st. induction chars as [| c rest IH]; intros i st; simpl.
  - lia.
  - etransitivity; [| apply IH].
    unfold placeChar. destruct (pk_mapping st !! c); [lia |].
    cbn [pk_row]. destruct (_ >? _); lia.
Qed.

(** A width function that ignores the index makes the loop independent
    of the index it starts from. *)
Lemma forEachChar_index (widthOf : string -> Z) yOffset0
    (chars : list string) (i j : nat) (st : Packing) :
  forEachChar (fun c _ => widthOf c) fontHeight buffer maxCanvasWidth yOffset0
    i chars st =
  forEachChar (fun c _ => widthOf c) fontHeight buffer maxCanvasWidth yOffset0
    j chars st.
Proof.
  revert i j st. induction chars as [| c rest IH]; intros i j st; simpl.
  - reflexivity.
  - apply IH.
Qed.

(** Restarting the row count at 0 from the offset [yOffset + row *
    rowHeight] places the characters where the running loop would. *)
Lemma placeChar_restart getFontWidth yOffset0 (base : Z) (c : string)
    (i : nat) (st st' : Packing) :
  pk_mapping st' = pk_mapping st -> pk_x st' = pk_x st ->
  base + pk_row st' = pk_row st ->
  let run := placeChar getFontWidth fontHeight buffer maxCanvasWidth
               yOffset0 st c i in
  let rerun := placeChar getFontWidth fontHeight buffer maxCanvasWidth
                 (yOffset0 + base * (fontHeight + buffer * 2)) st' c i in
  pk_mapping rerun = pk_mapping run /\ pk_x rerun = pk_x run /\
  base + pk_row rerun = pk_row run.
Proof.
  intros Hm Hx Hrow. unfold placeChar. rewrite Hm, Hx.
  destruct (pk_mapping st !! c) as [e |]; [auto |].
  cbn [pk_mapping pk_x pk_row].
  destruct (pk_x st + getFontWidth c i + buffer * 2 >? maxCanvasWidth).
  - split; [| split; [reflexivity | lia]].
    do 2 f_equal. rewrite <- Hrow. lia.
  - split; [| split; [reflexivity | lia]].
    do 2 f_equal. rewrite <- Hrow. lia.
Qed.

Lemma forEachChar_restart getFontWidth yOffset0 (base : Z)
    (chars : list string) (i : nat) (st st' : Packing) :
  pk_mapping st' = pk_mapping st -> pk_x st' = pk_x st ->
  base + pk_row st' = pk_row st ->
  let run := forEachChar getFontWidth fontHeight buffer maxCanvasWidth
               yOffset0 i chars st in
  let rerun := forEachChar getFontWidth fontHeight buffer maxCanvasWidth
                 (yOffset0 + base * (fontHeight + buffer * 2)) i chars st' in
  pk_mapping rerun = pk_mapping run /\ pk_x rerun = pk_x run /\
  base + pk_row rerun = pk_row run.
Proof.
  revert i st st'. induction chars as [| c rest IH];
    intros i st st' Hm Hx Hrow; simpl.
  - auto.
  - destruct (placeChar_restart getFontWidth yOffset0 base c i st st' Hm Hx Hrow)
      as (Hm1 & Hx1 & Hrow1).
    apply IH; assumption.
Qed.

End PackingMore.

(** Incremental calls compose.  When the width of a character does not
    depend on its index, calling [buildMapping] on a second character set
    with the mapping and offsets a first call returned gives the very
    result of one call on both sets together. *)
Theorem buildMapping_incremental_compose :
  forall (widthOf : string -> Z) (cs1 cs2 : list string)
         fontHeight buffer maxCanvasWidth (mapping0 : gmap string Frame)
         xOffset0 yOffset0,
    let getFontWidth := fun (c : string) (_ : nat) => widthOf c in
    let first := buildMapping cs1 getFontWidth fontHeight buffer
                   maxCanvasWidth mapping0 xOffset0 yOffset0 in
    buildMapping cs2 getFontWidth fontHeight buffer maxCanvasWidth
      (mapping first) (xOffset first) (yOffset first) =
    buildMapping (cs1 ++ cs2) getFontWidth fontHeight buffer maxCanvasWidth
      mapping0 xOffset0 yOffset0.
Proof.
  intros widthOf cs1 cs2 fh b mcw m0 x0 y0 gfw first.
  subst first. unfold buildMapping. cbn [mapping xOffset yOffset].
  rewrite forEachChar_app.
  set (st1 := forEachChar gfw fh b mcw y0 0 cs1 _).
  subst gfw.
  rewrite (forEachChar_index fh b mcw widthOf y0 cs2 (0 + length cs1) 0 st1).
  destruct (forEachChar_restart fh b mcw (fun c _ => widthOf c) y0
              (pk_row st1) cs2 0 st1
              {| pk_mapping := pk_mapping st1; pk_x := pk_x st1; pk_row := 0 |}
              eq_refl eq_refl ltac:(cbn; lia))
    as (Hm & Hx & Hrow).
  cbv zeta in Hm, Hx, Hrow.
  rewrite Hm, Hx, <- Hrow. f_equal; [lia |]. f_equal. lia.
Qed.

(** Asking for characters that are all in the mapping already changes
    nothing: [buildMapping] returns the mapping and both offsets as given.
    In particular a second call with the character set of a first call,
    on what that call returned, is a no-op. *)
Theorem buildMapping_known_characters :
  forall characterSet getFontWidth fontHeight buffer maxCanvasWidth
         (mapping0 : gmap string Frame) xOffset0 yOffset0,
    ((forall c : string, c ∈ characterSet -> is_Some (mapping0 !! c)) ->
     let result := buildMapping characterSet getFontWidth fontHeight buffer
                     maxCanvasWidth mapping0 xOffset0 yOffset0 in
     mapping result = mapping0 /\ xOffset result = xOffset0 /\
     yOffset result = yOffset0) /\
    (forall getFontWidth' : string -> nat -> Z,
       let first := buildMapping characterSet getFontWidth fontHeight buffer
                      maxCanvasWidth mapping0 xOffset0 yOffset0 in
       let again := buildMapping characterSet getFontWidth' fontHeight buffer
                      maxCanvasWidth (mapping first) (xOffset first)
                      (yOffset first) in
       mapping again = mapping first /\ xOffset again = xOffset first /\
       yOffset again = yOffset first).
Proof.
  intros cs gfw fh b mcw m0 x0 y0.
  assert (Hknown : forall gfw' (m : gmap string Frame) x y,
            (forall c : string, c ∈ cs -> is_Some (m !! c)) ->
            let result := buildMapping cs gfw' fh b mcw m x y in
            mapping result = m /\ xOffset result = x /\ yOffset result = y).
  { intros gfw' m x y Hall result. subst result. unfold buildMapping.
    cbn [mapping xOffset yOffset].
    rewrite forEachChar_known by exact Hall.
    cbn [pk_mapping pk_x pk_row]. repeat split. lia. }
  split.
  - apply Hknown.
  - intros gfw' first again. apply Hknown.
    intros c Hin. subst first. unfold buildMapping. cbn [mapping].
    apply forEachChar_dom. right. exact Hin.
Qed.

Lemma buildMapping_known_characters_witness :
  mapping (buildMapping ["a"] (fun _ _ => 7) 10 2 64 abcd_mapping 34 8)
  = abcd_mapping.
Proof.
  destruct (buildMapping_known_characters ["a"] (fun _ _ => 7) 10 2 64
              abcd_mapping 34 8) as [Hknown _].
  apply Hknown. intros c Hin. apply list_elem_of_singleton in Hin. subst c.
  exists (glyph 2). vm_compute. reflexivity.
Defined.

Lemma nextPowOfTwo_monotone (m n : Z) :
  1 <= m -> m <= n -> 2 ^ ceilLog2 m <= 2 ^ ceilLog2 n.
Proof.
  intros Hm Hle. apply Z.pow_le_mono_r; [lia |].
  apply ceilLog2_monotone; assumption.
Qed.

(** The atlas canvas never shrinks: with a non-negative row height, a call
    of [buildMapping] that continues from what an earlier call returned
    gives a [canvasHeight] that is at least the earlier one. *)
Theorem buildMapping_canvas_grows :
  forall cs1 cs2 getFontWidth getFontWidth' fontHeight buffer maxCanvasWidth
         (mapping0 : gmap string Frame) xOffset0 yOffset0,
    let first := buildMapping cs1 getFontWidth fontHeight buffer
                   maxCanvasWidth mapping0 xOffset0 yOffset0 in
    let second := buildMapping cs2 getFontWidth' fontHeight buffer
                    maxCanvasWidth (mapping first) (xOffset first)
                    (yOffset first) in
    0 <= fontHeight + 2 * buffer ->
    1 <= yOffset first + (fontHeight + 2 * buffer) ->
    exists p1 p2 : Z,
      canvasHeight first = Num p1 /\ canvasHeight second = Num p2 /\
      p1 <= p2 /\ yOffset first <= yOffset second.
Proof.
  intros cs1 cs2 gfw gfw' fh b mcw m0 x0 y0 first second Hrh Hpos.
  set (row2 := pk_row (forEachChar gfw' fh b mcw (yOffset first) 0 cs2
                         {| pk_mapping := mapping first; pk_x := xOffset first;
                            pk_row := 0 |})).
  assert (Hrow2 : 0 <= row2)
    by (subst row2;
        apply (forEachChar_row_grows fh b mcw gfw' (yOffset first) cs2 0
                 {| pk_mapping := mapping first; pk_x := xOffset first;
                    pk_row := 0 |})).
  assert (E1 : canvasHeight first
               = nextPowOfTwo (yOffset first + (fh + 2 * b))).
  { subst first. unfold buildMapping. cbn [canvasHeight yOffset]. f_equal. lia. }
  assert (E2 : canvasHeight second
               = nextPowOfTwo (yOffset first + (row2 + 1) * (fh + 2 * b))).
  { subst second. unfold buildMapping at 1. cbn [canvasHeight]. fold row2.
    f_equal. lia. }
  assert (Y2 : yOffset second = yOffset first + row2 * (fh + b * 2)).
  { subst second. unfold buildMapping at 1. cbn [yOffset]. fold row2.
    reflexivity. }
  assert (Hle : yOffset first + (fh + 2 * b)
                <= yOffset first + (row2 + 1) * (fh + 2 * b)) by nia.
  rewrite E1, E2, Y2. rewrite !nextPowOfTwo_pos by lia.
  eexists. eexists. split; [reflexivity |]. split; [reflexivity |].
  split; [apply nextPowOfTwo_monotone; lia | nia].
Qed.

Lemma buildMapping_canvas_grows_witness :
  let first := buildMapping ["a"; "b"] (fun _ _ => 30) 10 2 64 ∅ 0 0 in
  let second := buildMapping ["c"; "d"; "e"] (fun _ _ => 30) 10 2 64
                  (mapping first) (xOffset first) (yOffset first) in
  exists p1 p2 : Z,
    canvasHeight first = Num p1 /\ canvasHeight second = Num p2 /\
    p1 <= p2 /\ yOffset first <= yOffset second.
Proof.
  intros first second.
  apply (buildMapping_canvas_grows ["a"; "b"] ["c"; "d"; "e"]
           (fun _ _ => 30) (fun _ _ => 30) 10 2 64 ∅ 0 0).
  - lia.
  - vm_compute. discriminate.
Defined.

Section PackingInvariant.

Variable getFontWidth : string -> nat -> Z.
Variables fontHeight buffer maxCanvasWidth yOffset0 : Z.
Variable mapping0 : gmap string Frame.

Hypothesis buffer_nonneg : 0 <= buffer.
Hypothesis widths_nonneg : forall (c : string) (i : nat), 0 <= getFontWidth c i.
Hypothesis rowHeight_pos : 0 < fontHeight + buffer * 2.

Local Abbreviation inv := (packingInvariant fontHeight buffer yOffset0 mapping0).

Lemma placeChar_invariant (st : Packing) (c : string) (i : nat) :
  inv st ->
  inv (placeChar getFontWidth fontHeight buffer maxCanvasWidth yOffset0 st c i).
Proof.
  intros (Hx & Hrow & Hentries & Hdisjoint). unfold placeChar.
  destruct (pk_mapping st !! c) as [old |] eqn:Hc;
    [repeat split; assumption |].
  pose proof (widths_nonneg c i) as Hw.
  set (w := getFontWidth c i) in *.
  set (wrap := pk_x st + w + buffer * 2 >? maxCanvasWidth).
  set (x := if wrap then 0 else pk_x st).
  set (row := if wrap then pk_row st + 1 else pk_row st).
  assert (Hx' : 0 <= x /\ x <= pk_x st \/ wrap = true /\ x = 0)
    by (subst x; destruct wrap; [right; auto | left; lia]).
  assert (Hx0 : 0 <= x) by (subst x; destruct wrap; lia).
  assert (Hrow' : pk_row st <= row /\ (wrap = true -> row = pk_row st + 1)
                  /\ (wrap = false -> row = pk_row st /\ x = pk_x st))
    by (subst row x; destruct wrap; repeat split; try lia; discriminate).
  destruct Hrow' as (Hrowle & Hwrapped & Hstay).
  assert (Hnew : forall (c0 : string) (e : Frame),
            mapping0 !! c0 = None ->
            <[c := {| fx := x + buffer;
                      fy := yOffset0 + row * (fontHeight + buffer * 2) + buffer;
                      fwidth := w; fheight := fontHeight; fmask := true |}]>
              (pk_mapping st) !! c0 = Some e ->
            exists r : Z,
              0 <= r <= row /\
              fy e = yOffset0 + r * (fontHeight + buffer * 2) + buffer /\
              buffer <= fx e /\ 0 <= fwidth e /\ fheight e = fontHeight /\
              (r = row -> fx e + fwidth e + buffer <= x + (w + buffer * 2)) /\
              (c0 <> c -> r = row -> fx e + fwidth e + buffer <= x) /\
              (c0 = c -> r = row /\ fx e = x + buffer)).
  { intros c0 e Hfresh He. apply lookup_insert_Some in He.
    destruct He as [[<- <-] | [Hne He]].
    - exists row. cbn [fx fy fwidth fheight].
      split; [lia |]. split; [reflexivity |]. split; [lia |].
      split; [exact Hw |]. split; [reflexivity |].
      split; [intros _; lia |].
      split; [intros Hcontra; congruence |].
      intros _. split; reflexivity.
    - destruct (Hentries c0 e Hfresh He) as (r & Hr & Hy & Hfx & Hfw & Hfh & Hcur).
      assert (Hleft : r = row -> fx e + fwidth e + buffer <= x).
      { intros Hrr. destruct wrap eqn:Hwrap.
        - specialize (Hwrapped eq_refl). lia.
        - destruct (Hstay eq_refl) as [Hr1 Hx1].
          specialize (Hcur ltac:(lia)). lia. }
      exists r.
      split; [lia |]. split; [exact Hy |]. split; [exact Hfx |].
      split; [exact Hfw |]. split; [exact Hfh |].
      split; [intros Hrr; specialize (Hleft Hrr); lia |].
      split; [intros _; exact Hleft |].
      intros Hcontra. congruence. }
  fold w wrap x row. unfold packingInvariant. cbn [pk_mapping pk_x pk_row].
  split; [lia |]. split; [lia |]. split.
  - intros c0 e Hfresh He.
    destruct (Hnew c0 e Hfresh He) as (r & Hr & Hy & Hfx & Hfw & Hfh & Hcur & _).
    exists r.
    split; [exact Hr |]. split; [exact Hy |]. split; [exact Hfx |].
    split; [exact Hfw |]. split; [exact Hfh |]. exact Hcur.
  - intros c1 c2 e1 e2 Hne H1 H2 He1 He2.
    destruct (decide (c1 = c)) as [-> | Hc1];
      [| destruct (decide (c2 = c)) as [-> | Hc2]].
    + destruct (Hnew c e1 H1 He1) as (r1 & _ & Hy1 & _ & _ & _ & _ & _ & Hself).
      destruct (Hself eq_refl) as [-> Hfx1].
      destruct (Hnew c2 e2 H2 He2)
        as (r2 & Hr2 & Hy2 & _ & _ & Hfh2 & _ & Hleft & _).
      destruct (Z.eq_dec r2 row) as [Heq | Hlt].
      * right. right. right. specialize (Hleft ltac:(congruence) Heq). lia.
      * right. left. rewrite Hy1, Hy2, Hfh2. nia.
    + destruct (Hnew c e2 H2 He2) as (r2 & _ & Hy2 & _ & _ & _ & _ & _ & Hself).
      destruct (Hself eq_refl) as [-> Hfx2].
      destruct (Hnew c1 e1 H1 He1)
        as (r1 & Hr1 & Hy1 & _ & _ & Hfh1 & _ & Hleft & _).
      destruct (Z.eq_dec r1 row) as [Heq | Hlt].
      * right. right. left. specialize (Hleft Hc1 Heq). lia.
      * left. rewrite Hy1, Hy2, Hfh1. nia.
    + rewrite lookup_insert_ne in He1 by congruence.
      rewrite lookup_insert_ne in He2 by congruence.
      exact (Hdisjoint c1 c2 e1 e2 Hne H1 H2 He1 He2).
Qed.

Lemma forEachChar_invariant (chars : list string) (i : nat) (st : Packing) :
  inv st ->
  inv (forEachChar getFontWidth fontHeight buffer maxCanvasWidth yOffset0
         i chars st).
Proof.
  revert i st. induction chars as [| c rest IH]; intros i st Hinv; simpl.
  - exact Hinv.
  - apply IH. apply placeChar_invariant. exact Hinv.
Qed.

Lemma packed_invariant (xOffset0 : Z) (chars : list string) :
  0 <= xOffset0 ->
  inv (packed getFontWidth fontHeight buffer maxCanvasWidth mapping0 xOffset0
         yOffset0 chars).
Proof.
  intros Hx0. unfold packed. apply forEachChar_invariant.
  unfold packingInvariant. cbn [pk_mapping pk_x pk_row].
  split; [exact Hx0 |]. split; [lia |]. split.
  - intros c e Hnone He. congruence.
  - intros c1 c2 e1 e2 _ Hnone _ He. congruence.
Qed.

End PackingInvariant.

Lemma forEachChar_fits getFontWidth fontHeight buffer maxCanvasWidth yOffset0
    (mapping0 : gmap string Frame) (chars : list string) (i : nat)
    (st : Packing) :
  (forall (c : string) (j : nat), getFontWidth c j + buffer * 2 <= maxCanvasWidth) ->
  (forall (c : string) (e : Frame),
     mapping0 !! c = None -> pk_mapping st !! c = Some e ->
     fx e + fwidth e + buffer <= maxCanvasWidth) ->
  forall (c : string) (e : Frame),
    mapping0 !! c = None ->
    pk_mapping (forEachChar getFontWidth fontHeight buffer maxCanvasWidth
                  yOffset0 i chars st) !! c = Some e ->
    fx e + fwidth e + buffer <= maxCanvasWidth.
Proof.
  intros Hfit. revert i st.
  induction chars as [| char rest IH]; intros i st Hst; simpl.
  - exact Hst.
  - apply IH. intros c e Hnone. unfold placeChar.
    destruct (pk_mapping st !! char) as [old |] eqn:Hchar; [apply Hst; exact Hnone |].
    cbn [pk_mapping]. intros He. apply lookup_insert_Some in He.
    destruct He as [[<- <-] | [_ He]]; [| exact (Hst c e Hnone He)].
    cbn [fx fwidth]. specialize (Hfit char i).
    destruct (Z.gtb_spec (pk_x st + getFontWidth char i + buffer * 2)
                maxCanvasWidth); lia.
Qed.

(** Every glyph [buildMapping] places lies inside the canvas.  With a
    non-negative buffer and start offsets, non-negative widths that fit a
    row ([width + 2 * buffer <= maxCanvasWidth]) and a font height of at
    least 1, each entry added by the call keeps [buffer] clear on its left
    and top, ends at least [buffer] before [maxCanvasWidth], and ends at
    least [buffer] above the extent [yOffset + fontHeight + 2 * buffer]
    of the returned [yOffset]; when that extent is at most [2^49], it
    ends at least [buffer] above the returned [canvasHeight] as well. *)
Theorem buildMapping_glyphs_inside_canvas :
  forall characterSet getFontWidth fontHeight buffer maxCanvasWidth
         (mapping0 : gmap string Frame) xOffset0 yOffset0,
    0 <= buffer -> 0 <= xOffset0 -> 0 <= yOffset0 -> 1 <= fontHeight ->
    (forall (c : string) (i : nat),
       0 <= getFontWidth c i /\ getFontWidth c i + 2 * buffer <= maxCanvasWidth) ->
    let result := buildMapping characterSet getFontWidth fontHeight buffer
                    maxCanvasWidth mapping0 xOffset0 yOffset0 in
    let extent := yOffset result + (fontHeight + 2 * buffer) in
    forall (c : string) (e : Frame),
      mapping0 !! c = None -> mapping result !! c = Some e ->
      buffer <= fx e /\ fx e + fwidth e + buffer <= maxCanvasWidth /\
      yOffset0 + buffer <= fy e /\
      fy e + fheight e + buffer <= extent /\
      (extent <= 2 ^ 49 ->
       exists p : Z,
         canvasHeight result = Num p /\ fy e + fheight e + buffer <= p).
Proof.
  intros cs gfw fh b mcw m0 x0 y0 Hb Hx0 Hy0 Hfh Hw result extent c e Hnone He.
  assert (Hrh : 0 < fh + b * 2) by lia.
  destruct (packed_invariant gfw fh b mcw y0 m0 Hb (fun c i => proj1 (Hw c i))
              Hrh x0 cs Hx0) as (_ & Hrow & Hentries & _).
  subst extent result. unfold buildMapping in *.
  cbn [mapping canvasHeight yOffset] in *.
  fold (packed gfw fh b mcw m0 x0 y0 cs) in *.
  destruct (Hentries c e Hnone He) as (r & Hr & Hy & Hfx & Hfw & Hfhe & _).
  split; [exact Hfx |]. split.
  - refine (forEachChar_fits gfw fh b mcw y0 m0 cs 0
              {| pk_mapping := m0; pk_x := x0; pk_row := 0 |} _ _ c e Hnone He).
    + intros c' j. specialize (Hw c' j). lia.
    + cbn [pk_mapping]. intros c' e' H1 H2. congruence.
  - split; [rewrite Hy; nia |].
    set (row := pk_row (packed gfw fh b mcw m0 x0 y0 cs)) in *.
    assert (Hext : fy e + fheight e + b <= y0 + (row + 1) * (fh + b * 2))
      by (rewrite Hy, Hfhe; nia).
    assert (Hpos : 1 <= y0 + (row + 1) * (fh + b * 2)) by nia.
    split; [lia |]. intros Hbound.
    rewrite nextPowOfTwo_pos by exact Hpos.
    rewrite ceilLog2_exact by lia.
    eexists. split; [reflexivity |].
    pose proof (le_pow2_log2_up _ Hpos). lia.
Qed.

Lemma buildMapping_glyphs_inside_canvas_witness :
  exists e : Frame,
    mapping (buildMapping ["a"; "b"; "c"] (fun _ _ => 30) 10 2 64 ∅ 0 0) !! "c"
      = Some e /\
    2 <= fx e /\ fx e + fwidth e + 2 <= 64 /\ 0 + 2 <= fy e /\
    fy e + fheight e + 2 <= 42 /\
    exists p : Z,
      canvasHeight (buildMapping ["a"; "b"; "c"] (fun _ _ => 30) 10 2 64 ∅ 0 0)
        = Num p /\ fy e + fheight e + 2 <= p.
Proof.
  assert (He : mapping (buildMapping ["a"; "b"; "c"] (fun _ _ => 30) 10 2 64
                          (∅ : gmap string Frame) 0 0) !! "c"
               = Some {| fx := 2; fy := 30; fwidth := 30; fheight := 10;
                         fmask := true |}) by (vm_compute; reflexivity).
  assert (Hy : yOffset (buildMapping ["a"; "b"; "c"] (fun _ _ => 30) 10 2 64
                          (∅ : gmap string Frame) 0 0) + (10 + 2 * 2) = 42)
    by (vm_compute; reflexivity).
  destruct (buildMapping_glyphs_inside_canvas ["a"; "b"; "c"] (fun _ _ => 30)
              10 2 64 ∅ 0 0 ltac:(lia) ltac:(lia) ltac:(lia) ltac:(lia)
              ltac:(intros; lia) "c" _ (lookup_empty "c") He)
    as (Hx & Hxr & Hyt & Hyb & Hcanvas).
  rewrite Hy in Hyb, Hcanvas.
  eexists. split; [exact He |].
  split; [exact Hx |]. split; [exact Hxr |]. split; [exact Hyt |].
  split; [exact Hyb |]. apply Hcanvas. vm_compute. discriminate.
Defined.

(** No two glyphs overlap.  With a non-negative buffer, start offset and
    widths and a positive row height, any two distinct characters added by
    one call of [buildMapping] occupy disjoint cells, a cell being the
    rectangle of the glyph grown by [buffer] on every side: one of the two
    cells ends, down or across, no later than the other begins. *)
Theorem buildMapping_glyphs_disjoint :
  forall characterSet getFontWidth fontHeight buffer maxCanvasWidth
         (mapping0 : gmap string Frame) xOffset0 yOffset0,
    0 <= buffer -> 0 <= xOffset0 -> 0 < fontHeight + 2 * buffer ->
    (forall (c : string) (i : nat), 0 <= getFontWidth c i) ->
    let result := buildMapping characterSet getFontWidth fontHeight buffer
                    maxCanvasWidth mapping0 xOffset0 yOffset0 in
    forall (c1 c2 : string) (e1 e2 : Frame),
      c1 <> c2 ->
      mapping0 !! c1 = None -> mapping0 !! c2 = None ->
      mapping result !! c1 = Some e1 -> mapping result !! c2 = Some e2 ->
      cellsDisjoint buffer e1 e2.
Proof.
  intros cs gfw fh b mcw m0 x0 y0 Hb Hx0 Hrh Hw result c1 c2 e1 e2.
  assert (Hrh' : 0 < fh + b * 2) by lia.
  destruct (packed_invariant gfw fh b mcw y0 m0 Hb Hw Hrh' x0 cs Hx0)
    as (_ & _ & _ & Hdisjoint).
  apply Hdisjoint.
Qed.

Lemma buildMapping_glyphs_disjoint_witness :
  exists e1 e2 : Frame,
    mapping (buildMapping ["a"; "b"; "c"] (fun _ _ => 30) 10 2 64 ∅ 0 0) !! "a"
      = Some e1 /\
    mapping (buildMapping ["a"; "b"; "c"] (fun _ _ => 30) 10 2 64 ∅ 0 0) !! "c"
      = Some e2 /\
    cellsDisjoint 2 e1 e2.
Proof.
  assert (H1 : mapping (buildMapping ["a"; "b"; "c"] (fun _ _ => 30) 10 2 64
                          (∅ : gmap string Frame) 0 0) !! "a"
               = Some {| fx := 2; fy := 2; fwidth := 30; fheight := 10;
                         fmask := true |}) by (vm_compute; reflexivity).
  assert (H2 : mapping (buildMapping ["a"; "b"; "c"] (fun _ _ => 30) 10 2 64
                          (∅ : gmap string Frame) 0 0) !! "c"
               = Some {| fx := 2; fy := 30; fwidth := 30; fheight := 10;
                         fmask := true |}) by (vm_compute; reflexivity).
  eexists. eexists. split; [exact H1 |]. split; [exact H2 |].
  apply (buildMapping_glyphs_disjoint ["a"; "b"; "c"] (fun _ _ => 30)
           10 2 64 ∅ 0 0 ltac:(lia) ltac:(lia) ltac:(lia) ltac:(intros; lia)
           "a" "c" _ _ ltac:(discriminate) (lookup_empty "a")
           (lookup_empty "c") H1 H2).
Defined.

(** * Further properties of row layout *)

Lemma Zsum_cons (x : Z) (l : list Z) : Zsum (x :: l) = x + Zsum l.
Proof. reflexivity. Qed.

Lemma Zsum_app (l1 l2 : list Z) : Zsum (l1 ++ l2) = Zsum l1 + Zsum l2.
Proof.
  induction l1 as [| x l1 IH]; [reflexivity |].
  change ((x :: l1) ++ l2)%list with (x :: (l1 ++ l2))%list.
  rewrite !Zsum_cons, IH. lia.
Qed.

Section RowMore.

Variable measure : Measure.
Variable iconMapping : gmap string Frame.
Variable lineHeight : Z.

Lemma mapChars_length (textDiv : option TextDiv) (n i : nat)
    (chars : list string) (acc : RowAcc) :
  length (fst (mapChars iconMapping lineHeight measure textDiv n i chars acc))
  = length chars.
Proof.
  rewrite <- (length_map text), mapChars_texts. reflexivity.
Qed.

Lemma mapChars_glyph_offsets (n i : nat) (chars : list string) (acc : RowAcc) :
  let run := mapChars iconMapping lineHeight measure None n i chars acc in
  acc_offsetLeft (snd run)
    = acc_offsetLeft acc + Zsum (charWidth iconMapping <$> chars) /\
  forall (k : nat) (c : string),
    chars !! k = Some c ->
    fst run !! k =
      Some {| text := c; offsetTop := 0;
              offsetLeft := acc_offsetLeft acc
                            + Zsum (charWidth iconMapping <$> take k chars);
              size := None; rowSize := None |}.
Proof.
  revert i acc. induction chars as [| c0 rest IH]; intros i acc run.
  - subst run. simpl. split; [change (Zsum (charWidth iconMapping <$> [])) with 0; lia |].
    intros k c Hk. rewrite lookup_nil in Hk. discriminate.
  - subst run. change (c0 :: rest) with ([c0] ++ rest)%list.
    rewrite mapChars_app, mapChars_one. cbn [fst snd].
    change ([c0] ++ rest)%list with (c0 :: rest).
    destruct (IH (i + length [c0])%nat
                (snd (rowChar iconMapping lineHeight measure None n acc c0 i)))
      as [Hleft Hdata].
    assert (Hstep : acc_offsetLeft
                      (snd (rowChar iconMapping lineHeight measure None n acc c0 i))
                    = acc_offsetLeft acc + charWidth iconMapping c0).
    { unfold rowChar, charWidth. destruct (iconMapping !! c0); reflexivity. }
    assert (Hfirst : fst (rowChar iconMapping lineHeight measure None n acc c0 i)
                     = {| text := c0; offsetTop := 0;
                          offsetLeft := acc_offsetLeft acc;
                          size := None; rowSize := None |}).
    { unfold rowChar. destruct (iconMapping !! c0); reflexivity. }
    rewrite Hstep in Hleft, Hdata. rewrite Hfirst.
    split.
    + rewrite Hleft, fmap_cons, Zsum_cons. lia.
    + intros k c Hk. cbn [app] in Hk |- *.
      rewrite lookup_cons in Hk. rewrite lookup_cons.
      destruct k as [| k].
      * injection Hk as <-.
        change (take 0 (c0 :: rest)) with (@nil string).
        change (Zsum (charWidth iconMapping <$> [])) with 0.
        do 2 f_equal. lia.
      * rewrite (Hdata k c Hk).
        change (take (S k) (c0 :: rest)) with (c0 :: take k rest).
        rewrite fmap_cons, Zsum_cons. do 2 f_equal. lia.
Qed.

Lemma mapChars_warnings_exact (textDiv : option TextDiv) (n i : nat)
    (chars : list string) (acc : RowAcc) :
  acc_warnings
    (snd (mapChars iconMapping lineHeight measure textDiv n i chars acc))
  = (acc_warnings acc
     ++ map missing_character (List.filter (absent iconMapping) chars))%list.
Proof.
  revert i acc. induction chars as [| c rest IH]; intros i acc.
  - simpl. rewrite app_nil_r. reflexivity.
  - change (c :: rest) with ([c] ++ rest)%list.
    rewrite mapChars_app, mapChars_one. cbn [snd]. rewrite IH.
    simpl List.filter. unfold absent at 2, rowChar.
    destruct textDiv as [div |]; destruct (iconMapping !! c);
      cbn [snd acc_warnings map]; rewrite <- ?app_assoc; reflexivity.
Qed.

Lemma mapChars_no_sizes (textDiv : option TextDiv) (n i : nat)
    (chars : list string) (acc : RowAcc) :
  Forall (fun d => size d = None /\ rowSize d = None)
    (fst (mapChars iconMapping lineHeight measure textDiv n i chars acc)).
Proof.
  revert i acc. induction chars as [| c rest IH]; intros i acc.
  - constructor.
  - change (c :: rest) with ([c] ++ rest)%list.
    rewrite mapChars_app, mapChars_one. cbn [fst].
    apply Forall_app. split; [| apply IH].
    constructor; [| constructor].
    unfold rowChar. destruct textDiv as [div |];
      destruct (iconMapping !! c); split; reflexivity.
Qed.

Lemma mapChars_measured (div : TextDiv) (n i : nat) (chars : list string)
    (acc : RowAcc) :
  let run := mapChars iconMapping lineHeight measure (Some div) n i chars acc in
  (forall (k : nat) (c : string),
     chars !! k = Some c ->
     fst run !! k =
       Some {| text := c; offsetTop := rect_top (measure div (i + k)%nat);
               offsetLeft := rect_left (measure div (i + k)%nat);
               size := None; rowSize := None |}) /\
  acc_rowHeight (snd run)
    = if decide (i < n <= i + length chars)%nat
      then rect_bottom (measure div (n - 1)%nat)
      else acc_rowHeight acc.
Proof.
  revert i acc. induction chars as [| c0 rest IH]; intros i acc run.
  - subst run. simpl. split.
    + intros k c Hk. rewrite lookup_nil in Hk. discriminate.
    + destruct (decide (i < n <= i + 0)%nat); [lia | reflexivity].
  - subst run. change (c0 :: rest) with ([c0] ++ rest)%list.
    rewrite mapChars_app, mapChars_one. cbn [fst snd].
    destruct (IH (i + length [c0])%nat
                (snd (rowChar iconMapping lineHeight measure (Some div) n acc c0 i)))
      as [Hdata Hheight].
    assert (Hfirst : fst (rowChar iconMapping lineHeight measure (Some div) n
                            acc c0 i)
                     = {| text := c0; offsetTop := rect_top (measure div i);
                          offsetLeft := rect_left (measure div i);
                          size := None; rowSize := None |}).
    { unfold rowChar. destruct (iconMapping !! c0); reflexivity. }
    assert (Hstep : acc_rowHeight
                      (snd (rowChar iconMapping lineHeight measure (Some div) n
                              acc c0 i))
                    = if Z.of_nat i =? Z.of_nat n - 1
                      then rect_bottom (measure div i)
                      else acc_rowHeight acc).
    { unfold rowChar. destruct (iconMapping !! c0); reflexivity. }
    rewrite Hfirst. split.
    + intros k c Hk. cbn [app] in Hk |- *.
      rewrite lookup_cons in Hk. rewrite lookup_cons. destruct k as [| k].
      * injection Hk as <-. rewrite Nat.add_0_r. reflexivity.
      * rewrite (Hdata k c Hk). simpl length.
        replace (i + 1 + k)%nat with (i + S k)%nat by lia. reflexivity.
    + rewrite Hheight, Hstep. simpl length.
      destruct (decide (i + 1 < n <= i + 1 + length rest)%nat);
        destruct (decide (i < n <= i + S (length rest))%nat);
        destruct (Z.eqb_spec (Z.of_nat i) (Z.of_nat n - 1));
        try lia; try reflexivity.
      replace (n - 1)%nat with i by lia. reflexivity.
Qed.

Lemma rowChar_measure_ext (measure' : Measure) (div : TextDiv) (n i : nat)
    (c : string) (acc : RowAcc) :
  measure div i = measure' div i ->
  rowChar iconMapping lineHeight measure (Some div) n acc c i =
  rowChar iconMapping lineHeight measure' (Some div) n acc c i.
Proof. intros H. unfold rowChar. rewrite H. reflexivity. Qed.

Lemma mapChars_measure_ext (measure' : Measure) (div : TextDiv) (n i : nat)
    (chars : list string) (acc : RowAcc) :
  (forall k : nat, (i <= k < i + length chars)%nat ->
     measure div k = measure' div k) ->
  mapChars iconMapping lineHeight measure (Some div) n i chars acc =
  mapChars iconMapping lineHeight measure' (Some div) n i chars acc.
Proof.
  revert i acc. induction chars as [| c rest IH]; intros i acc Hagree.
  - reflexivity.
  - cbn [mapChars].
    rewrite (rowChar_measure_ext measure' div n i c acc)
      by (apply Hagree; simpl; lia).
    destruct (rowChar iconMapping lineHeight measure' (Some div) n acc c i)
      as [datum acc1].
    rewrite IH by (intros k Hk; apply Hagree; simpl; lia). reflexivity.
Qed.

Lemma mapChars_measure_free (measure' : Measure) (n i : nat)
    (chars : list string) (acc : RowAcc) :
  mapChars iconMapping lineHeight measure None n i chars acc =
  mapChars iconMapping lineHeight measure' None n i chars acc.
Proof.
  revert i acc. induction chars as [| c rest IH]; intros i acc.
  - reflexivity.
  - cbn [mapChars].
    change (rowChar iconMapping lineHeight measure None n acc c i)
      with (rowChar iconMapping lineHeight measure' None n acc c i).
    destruct (rowChar iconMapping lineHeight measure' None n acc c i)
      as [datum acc1].
    rewrite IH. reflexivity.
Qed.

End RowMore.

Lemma measuredDiv_measured (row : string) (iconMapping : gmap string Frame)
    (width lineHeight : Z) (wordBreak : option string) (fontSize : Z)
    (fontFamily fontWeight : string) (textAlign : option string)
    (textDiv : option TextDiv) :
  measuredDiv row iconMapping width lineHeight wordBreak fontSize
    fontFamily fontWeight textAlign = Ok textDiv ->
  if truthy wordBreak
  then exists div : TextDiv,
         textDiv = Some div /\ div_spans div = Array_from row /\
         div_width div = width
  else textDiv = None.
Proof.
  unfold measuredDiv. destruct (truthy wordBreak).
  - destruct (head (Object_values iconMapping)) as [first |]; [| discriminate].
    intros [= <-]. eexists. split; [reflexivity |]. split; reflexivity.
  - intros [= <-]. reflexivity.
Qed.

(** Laid out by glyph widths (no [wordBreak]), a row is a running sum:
    the record of each character is at [offsetTop] 0 and at the
    [offsetLeft] that is the sum of the advances of the characters before
    it (the frame's width, or 32 for a character without a frame), and
    [rowWidth] is the sum over the whole row. *)
Theorem transformRow_glyph_offsets :
  forall measure row (iconMapping : gmap string Frame) width lineHeight
         wordBreak fontSize fontFamily fontWeight textAlign,
    truthy wordBreak = false ->
    exists r : Row,
      transformRow measure row iconMapping width lineHeight wordBreak
        fontSize fontFamily fontWeight textAlign = Ok r /\
      rowWidth r = Zsum (charWidth iconMapping <$> Array_from row) /\
      forall (k : nat) (c : string),
        Array_from row !! k = Some c ->
        characters r !! k =
          Some {| text := c; offsetTop := 0;
                  offsetLeft :=
                    Zsum (charWidth iconMapping <$> take k (Array_from row));
                  size := None; rowSize := None |}.
Proof.
  intros measure row iconMapping width lineHeight wordBreak fontSize
    fontFamily fontWeight textAlign Hwb.
  destruct (measuredDiv_returns row iconMapping width lineHeight wordBreak
              fontSize fontFamily fontWeight textAlign (or_introl Hwb))
    as (textDiv & Hdiv & Hnone).
  specialize (Hnone Hwb). subst textDiv.
  pose proof (transformRow_unfold measure row _ _ _ _ _ _ _ _ _ Hdiv) as Hrow.
  cbv zeta in Hrow. eexists. split; [exact Hrow |].
  cbn [rowWidth characters]. rewrite Hwb.
  destruct (mapChars_glyph_offsets measure iconMapping lineHeight
              (length (Array_from row)) 0 (Array_from row) rowStart)
    as [Hleft Hdata].
  split.
  - rewrite Hleft. cbn [rowStart acc_offsetLeft]. lia.
  - intros k c Hk. rewrite (Hdata k c Hk). cbn [rowStart acc_offsetLeft].
    do 2 f_equal.
Qed.

Lemma transformRow_glyph_offsets_witness :
  exists r : Row,
    transformRow (fun _ _ => mkDOMRect 0 0 0 0) "a?b" abcd_mapping 100 1 None
      12 "Monaco" "normal" None = Ok r /\
    rowWidth r = 52 /\
    characters r !! 2%nat =
      Some {| text := "b"; offsetTop := 0; offsetLeft := 42;
              size := None; rowSize := None |}.
Proof.
  destruct (transformRow_glyph_offsets (fun _ _ => mkDOMRect 0 0 0 0) "a?b"
              abcd_mapping 100 1 None 12 "Monaco" "normal" None eq_refl)
    as (r & Hrow & Hwidth & Hdata).
  exists r. split; [exact Hrow |]. split.
  - rewrite Hwidth. vm_compute. reflexivity.
  - rewrite (Hdata 2%nat "b" eq_refl). vm_compute. reflexivity.
Defined.

(** Whenever row layout returns, with or without [wordBreak], it has
    logged exactly one warning per occurrence of a character without a
    frame, in the order of the row, and nothing else. *)
Theorem transformRow_warnings :
  forall measure row (iconMapping : gmap string Frame) width lineHeight
         wordBreak fontSize fontFamily fontWeight textAlign (r : Row),
    transformRow measure row iconMapping width lineHeight wordBreak
      fontSize fontFamily fontWeight textAlign = Ok r ->
    warnings r
    = map missing_character (List.filter (absent iconMapping) (Array_from row)).
Proof.
  intros measure row iconMapping width lineHeight wordBreak fontSize
    fontFamily fontWeight textAlign r Hr.
  apply transformRow_inv in Hr. destruct Hr as (textDiv & _ & ->).
  cbn [warnings]. rewrite mapChars_warnings_exact. reflexivity.
Qed.

Lemma transformRow_warnings_witness :
  exists r : Row,
    transformRow (fun _ _ => mkDOMRect 0 0 0 0) "a?b!" abcd_mapping 100 1
      None 12 "Monaco" "normal" None = Ok r /\
    warnings r = ["Missing character: ?"; "Missing character: !"].
Proof.
  destruct (measuredDiv_returns "a?b!" abcd_mapping 100 1 None 12 "Monaco"
              "normal" None (or_introl eq_refl)) as (textDiv & Hdiv & _).
  pose proof (transformRow_unfold (fun _ _ => mkDOMRect 0 0 0 0) "a?b!"
                _ _ _ _ _ _ _ _ _ Hdiv) as Hrow.
  cbv zeta in Hrow. eexists. split; [exact Hrow |].
  exact (transformRow_warnings _ _ _ _ _ _ _ _ _ _ _ Hrow).
Defined.

(** Row layout reads the browser's layout only under [wordBreak], and then
    only the rectangles of the spans it created, one per character of the
    row: without [wordBreak] the result does not depend on the measurement
    at all, and with it two measurements that agree on the spans of every
    [div] give the same result. *)
Theorem transformRow_measure_independent :
  forall (measure measure' : Measure) row (iconMapping : gmap string Frame)
         width lineHeight wordBreak fontSize fontFamily fontWeight textAlign,
    (truthy wordBreak = false \/
     forall (div : TextDiv) (k : nat),
       (k < length (div_spans div))%nat -> measure div k = measure' div k) ->
    transformRow measure row iconMapping width lineHeight wordBreak
      fontSize fontFamily fontWeight textAlign =
    transformRow measure' row iconMapping width lineHeight wordBreak
      fontSize fontFamily fontWeight textAlign.
Proof.
  intros measure measure' row iconMapping width lineHeight wordBreak fontSize
    fontFamily fontWeight textAlign Hagree.
  unfold transformRow.
  destruct (measuredDiv row iconMapping width lineHeight wordBreak fontSize
              fontFamily fontWeight textAlign) as [textDiv | msg] eqn:Hdiv;
    [| reflexivity].
  apply measuredDiv_measured in Hdiv.
  destruct (truthy wordBreak) eqn:Hwb.
  - destruct Hdiv as (div & -> & Hspans & _).
    destruct Hagree as [Hfalse | Hagree]; [discriminate |].
    rewrite (mapChars_measure_ext measure iconMapping lineHeight measure' div).
    + reflexivity.
    + intros k Hk. apply Hagree. rewrite Hspans. lia.
  - subst textDiv.
    rewrite (mapChars_measure_free measure iconMapping lineHeight measure').
    reflexivity.
Qed.

Lemma transformRow_measure_independent_witness :
  transformRow (fun _ _ => mkDOMRect 0 0 0 0) "ab" abcd_mapping 100 1 None
    12 "Monaco" "normal" None =
  transformRow (fun _ k => mkDOMRect 5 (Z.of_nat k) 9 30) "ab" abcd_mapping
    100 1 None 12 "Monaco" "normal" None.
Proof.
  apply transformRow_measure_independent. left. reflexivity.
Defined.

(** Under [wordBreak], on a non-empty mapping, row layout returns what
    the browser measured: the [div] has one span per character of the row
    and the given width, each record carries the top and left of its
    span's rectangle, [rowWidth] is the given [width], and [rowHeight] is
    the bottom of the last span's rectangle (0 for an empty row). *)
Theorem transformRow_measured :
  forall measure row (iconMapping : gmap string Frame) width lineHeight
         wordBreak fontSize fontFamily fontWeight textAlign,
    truthy wordBreak = true -> iconMapping <> ∅ ->
    exists (div : TextDiv) (r : Row),
      measuredDiv row iconMapping width lineHeight wordBreak fontSize
        fontFamily fontWeight textAlign = Ok (Some div) /\
      div_spans div = Array_from row /\ div_width div = width /\
      transformRow measure row iconMapping width lineHeight wordBreak
        fontSize fontFamily fontWeight textAlign = Ok r /\
      rowWidth r = width /\
      rowHeight r
        = (if decide (Array_from row = [])
           then 0
           else rect_bottom
                  (measure div (length (Array_from row) - 1)%nat)) /\
      forall (k : nat) (c : string),
        Array_from row !! k = Some c ->
        characters r !! k =
          Some {| text := c; offsetTop := rect_top (measure div k);
                  offsetLeft := rect_left (measure div k);
                  size := None; rowSize := None |}.
Proof.
  intros measure row iconMapping width lineHeight wordBreak fontSize
    fontFamily fontWeight textAlign Hwb Hne.
  destruct (measuredDiv_returns row iconMapping width lineHeight wordBreak
              fontSize fontFamily fontWeight textAlign (or_intror Hne))
    as (textDiv & Hdiv & _).
  pose proof (measuredDiv_measured _ _ _ _ _ _ _ _ _ _ Hdiv) as Hm.
  rewrite Hwb in Hm. destruct Hm as (div & -> & Hspans & Hwidth).
  pose proof (transformRow_unfold measure row _ _ _ _ _ _ _ _ _ Hdiv) as Hrow.
  cbv zeta in Hrow.
  exists div. eexists. split; [exact Hdiv |]. split; [exact Hspans |].
  split; [exact Hwidth |]. split; [exact Hrow |].
  cbn [rowWidth rowHeight characters]. rewrite Hwb.
  split; [reflexivity |].
  destruct (mapChars_measured measure iconMapping lineHeight div
              (length (Array_from row)) 0 (Array_from row) rowStart)
    as [Hdata Hheight].
  split.
  - rewrite Hheight. cbn [rowStart acc_rowHeight].
    destruct (Array_from row) as [| c rest] eqn:Hchars.
    + destruct (decide (0 < length (@nil string) <= 0 + length (@nil string))%nat)
        as [Hlt | _]; [simpl in Hlt; lia |].
      destruct (decide (@nil string = [])); [reflexivity | contradiction].
    + destruct (decide (0 < length (c :: rest) <= 0 + length (c :: rest))%nat)
        as [_ | Hno]; [| simpl in Hno; lia].
      destruct (decide (c :: rest = [])); [discriminate | reflexivity].
  - intros k c Hk. rewrite (Hdata k c Hk). reflexivity.
Qed.

Lemma transformRow_measured_witness :
  exists (div : TextDiv) (r : Row),
    transformRow (fun _ k => mkDOMRect 5 (Z.of_nat k * 9) 9 30) "ab"
      abcd_mapping 100 1 (Some "break-all") 12 "Monaco" "normal" None = Ok r /\
    div_spans div = ["a"; "b"] /\
    rowWidth r = 100 /\ rowHeight r = 30 /\
    characters r !! 1%nat =
      Some {| text := "b"; offsetTop := 5; offsetLeft := 9;
              size := None; rowSize := None |}.
Proof.
  assert (Hne : abcd_mapping <> ∅).
  { intros Heq. assert (H : abcd_mapping !! "a" = None)
      by (rewrite Heq; apply lookup_empty).
    vm_compute in H. discriminate. }
  destruct (transformRow_measured (fun _ k => mkDOMRect 5 (Z.of_nat k * 9) 9 30)
              "ab" abcd_mapping 100 1 (Some "break-all") 12 "Monaco" "normal"
              None eq_refl Hne)
    as (div & r & _ & Hspans & _ & Hrow & Hwidth & Hheight & Hdata).
  exists div, r. split; [exact Hrow |]. split; [exact Hspans |].
  split; [exact Hwidth |]. split; [exact Hheight |].
  exact (Hdata 1%nat "b" eq_refl).
Defined.

(** * Further properties of paragraph layout *)

Lemma split_newline_characters (s : string) :
  concat (map Array_from (split_newline s))
  = List.filter notNewline (Array_from s).
Proof.
  induction s as [| c rest IH]; [reflexivity |].
  cbn [split_newline Array_from List.filter].
  unfold notNewline at 1. cbn [String.eqb].
  destruct (Ascii.eqb c "010"%char) eqn:Hc.
  - cbn [negb andb]. rewrite <- IH. reflexivity.
  - cbn [negb andb]. rewrite <- IH.
    destruct (split_newline rest) as [| r rs] eqn:Hsplit.
    + exfalso. exact (split_newline_nonempty rest Hsplit).
    + reflexivity.
Qed.

Lemma layout_elem (offsetTop0 : Z) (sizeRef rowSizeRef : nat)
    (rs : list Row) (d : Datum) :
  d ∈ layout offsetTop0 sizeRef rowSizeRef rs ->
  exists (k : nat) (r : Row) (d0 : Datum),
    rs !! k = Some r /\ d0 ∈ characters r /\
    d = placeDatum (offsetTop0 + Zsum (rowHeight <$> take k rs)) sizeRef
          (rowSizeRef + k) d0.
Proof.
  revert offsetTop0 rowSizeRef. induction rs as [| r rest IH];
    intros o base Hd; simpl in Hd.
  - apply elem_of_nil in Hd. contradiction.
  - apply elem_of_app in Hd. destruct Hd as [Hd | Hd].
    + apply list_elem_of_fmap in Hd. destruct Hd as (d0 & -> & Hd0).
      exists 0%nat, r, d0. split; [reflexivity |]. split; [exact Hd0 |].
      change (take 0 (r :: rest)) with (@nil Row).
      change (Zsum (rowHeight <$> [])) with 0.
      rewrite Z.add_0_r, Nat.add_0_r. reflexivity.
    + destruct (IH _ _ Hd) as (k & r' & d0 & Hk & Hd0 & ->).
      exists (S k), r', d0. split; [exact Hk |]. split; [exact Hd0 |].
      change (take (S k) (r :: rest)) with (r :: take k rest).
      rewrite fmap_cons, Zsum_cons.
      replace (base + S k)%nat with (S base + k)%nat by lia.
      f_equal. lia.
Qed.

Lemma rowOf_no_sizes (measure : Measure) (props : Props) (row : string)
    (r : Row) :
  rowOf measure props row = Ok r ->
  Forall (fun d => size d = None /\ rowSize d = None) (characters r).
Proof.
  intros Hr. apply transformRow_inv in Hr. destruct Hr as (textDiv & _ & ->).
  cbn [characters]. apply mapChars_no_sizes.
Qed.

Lemma rowOf_warnings (measure : Measure) (props : Props) (row : string)
    (r : Row) :
  rowOf measure props row = Ok r ->
  warnings r
  = map missing_character
      (List.filter (absent (iconMapping props)) (Array_from row)).
Proof.
  intros Hr. apply transformRow_inv in Hr. destruct Hr as (textDiv & _ & ->).
  cbn [warnings]. rewrite mapChars_warnings_exact. reflexivity.
Qed.

Section ParagraphMore.

Context {T : Type}.
Variable measure : Measure.
Variable props : Props.
Variable transformCharacter : Datum -> T.
Variable sizeRef : nat.

Lemma forEachRow_store (rows : list string) (rs : list Row)
    (acc acc' : ParAcc T) :
  Forall2 (fun row r => rowOf measure props row = Ok r) rows rs ->
  forEachRow measure props transformCharacter sizeRef rows acc = Ok acc' ->
  (sizeRef < length (par_store acc))%nat ->
  length (par_store acc') = (length (par_store acc) + length rs)%nat /\
  (forall l : nat, (l < length (par_store acc))%nat -> l <> sizeRef ->
     par_store acc' !! l = par_store acc !! l) /\
  (forall (k : nat) (r : Row),
     rs !! k = Some r ->
     par_store acc' !! (length (par_store acc) + k)%nat
     = Some [rowWidth r; rowHeight r]) /\
  par_warnings acc'
  = (par_warnings acc ++ concat (warnings <$> rs))%list.
Proof.
  intros Hrows. revert acc.
  induction Hrows as [| row r rows rs Hr _ IH]; intros acc Hrun Hsize.
  - simpl in Hrun. injection Hrun as <-.
    split; [simpl; lia |]. split; [reflexivity |]. split.
    + intros k r Hk. rewrite lookup_nil in Hk. discriminate.
    + simpl. rewrite app_nil_r. reflexivity.
  - simpl in Hrun.
    rewrite (paragraphRow_returns measure props transformCharacter sizeRef
               acc row r Hr) in Hrun.
    set (acc1 := {| par_store := _; par_offsetTop := _; par_data := _;
                    par_warnings := _ |}) in Hrun.
    assert (Hlen1 : length (par_store acc1) = S (length (par_store acc))).
    { subst acc1. cbn [par_store]. unfold array_set.
      rewrite length_alter, length_app. simpl. lia. }
    assert (Hold1 : forall l : nat, (l < length (par_store acc))%nat ->
              l <> sizeRef -> par_store acc1 !! l = par_store acc !! l).
    { intros l Hl Hne. subst acc1. cbn [par_store]. unfold array_set.
      rewrite list_lookup_alter_ne by congruence.
      apply lookup_app_l. exact Hl. }
    assert (Hnew1 : par_store acc1 !! length (par_store acc)
                    = Some [rowWidth r; rowHeight r]).
    { subst acc1. cbn [par_store]. unfold array_set.
      rewrite list_lookup_alter_ne by lia.
      apply list_lookup_middle. reflexivity. }
    destruct (IH acc1 Hrun ltac:(lia)) as (Hlen & Hold & Hnew & Hwarn).
    split; [rewrite Hlen, Hlen1; simpl; lia |]. split; [| split].
    + intros l Hl Hne. rewrite Hold by lia. apply Hold1; assumption.
    + intros k r' Hk. destruct k as [| k]; simpl in Hk.
      * injection Hk as <-. rewrite Nat.add_0_r.
        rewrite Hold by lia. exact Hnew1.
      * replace (length (par_store acc) + S k)%nat
          with (length (par_store acc1) + k)%nat by lia.
        apply Hnew. exact Hk.
    + rewrite Hwarn. subst acc1. cbn [par_warnings].
      rewrite fmap_cons. cbn [concat]. rewrite app_assoc. reflexivity.
Qed.

End ParagraphMore.

Lemma transformParagraph_store {T : Type} (measure : Measure) (h : list (list Z))
    (props : Props) (transformCharacter : Datum -> T)
    (transformedData : list T) (laid : Laid T) (rs : list Row) :
  transformParagraph measure h props transformCharacter transformedData
    = Ok laid ->
  Forall2 (fun row r => rowOf measure props row = Ok r)
    (split_newline (paragraph props)) rs ->
  length (laid_store laid) = (length h + 1 + length rs)%nat /\
  (forall l : nat, (l < length h)%nat -> laid_store laid !! l = h !! l) /\
  (forall (k : nat) (r : Row),
     rs !! k = Some r ->
     laid_store laid !! (length h + 1 + k)%nat
     = Some [rowWidth r; rowHeight r]) /\
  laid_warnings laid = concat (warnings <$> rs).
Proof.
  unfold transformParagraph. cbn [alloc].
  destruct (forEachRow measure props transformCharacter (length h)
              (split_newline (paragraph props)) _) as [acc | msg] eqn:Hrun;
    [| discriminate].
  intros Hlaid Hrows. injection Hlaid as <-.
  cbn [laid_store laid_warnings].
  destruct (forEachRow_store measure props transformCharacter (length h) _ rs _
              acc Hrows Hrun) as (Hlen & Hold & Hnew & Hwarn).
  { cbn [par_store]. rewrite length_app. simpl. lia. }
  cbn [par_store par_warnings] in *.
  rewrite length_app in Hlen, Hold, Hnew. simpl length in Hlen, Hold, Hnew.
  unfold array_set. split; [rewrite length_alter; lia |]. split; [| split].
  - intros l Hl. rewrite list_lookup_alter_ne by lia.
    rewrite Hold by lia. apply lookup_app_l. exact Hl.
  - intros k r Hk. rewrite list_lookup_alter_ne by lia. apply Hnew. exact Hk.
  - exact Hwarn.
Qed.

(** A call of [transformParagraph] never touches an array that existed
    before it: the [size] array it hands out is fresh, the store grows by
    that array and one [rowSize] array per row, and every earlier array,
    the sizes of earlier paragraphs included, reads as before. *)
Theorem transformParagraph_store_frame :
  forall (T : Type) measure (h : list (list Z)) props
         (transformCharacter : Datum -> T) (transformedData : list T)
         (laid : Laid T),
    transformParagraph measure h props transformCharacter transformedData
      = Ok laid ->
    laid_size laid = length h /\
    length (laid_store laid)
      = (length h + 1 + length (split_newline (paragraph props)))%nat /\
    forall l : nat, (l < length h)%nat -> laid_store laid !! l = h !! l.
Proof.
  intros T measure h props transformCharacter transformedData laid Hlaid.
  destruct (transformParagraph_inv _ _ _ _ _ _ Hlaid)
    as (Hsize & rs & Hrows & _ & _).
  destruct (transformParagraph_store _ _ _ _ _ _ rs Hlaid Hrows)
    as (Hlen & Hold & _ & _).
  split; [exact Hsize |]. split; [| exact Hold].
  rewrite Hlen. rewrite (Forall2_length _ _ _ Hrows). reflexivity.
Qed.

Lemma transformParagraph_store_frame_witness :
  exists laid : Laid Datum,
    transformParagraph (fun _ _ => mkDOMRect 0 0 0 0) [[7; 9]] abcd_props id []
      = Ok laid /\
    laid_size laid = 1%nat /\ length (laid_store laid) = 4%nat /\
    laid_store laid !! 0%nat = Some [7; 9].
Proof.
  destruct (transformParagraph_returns (fun _ _ => mkDOMRect 0 0 0 0) [[7; 9]]
              abcd_props id [] (or_introl eq_refl)) as [laid Hlaid].
  destruct (transformParagraph_store_frame Datum _ _ _ _ _ laid Hlaid)
    as (Hsize & Hlen & Hold).
  exists laid. split; [exact Hlaid |].
  split; [exact Hsize |]. split; [exact Hlen |].
  apply (Hold 0%nat). simpl. lia.
Defined.

(** Every record a paragraph emits carries its row's size: its [rowSize]
    is the array allocated for its row, distinct from the paragraph's
    [size] array, and once the call returns that array holds the row's
    [rowWidth, rowHeight]. *)
Theorem transformParagraph_rowSize :
  forall (T : Type) measure (h : list (list Z)) props
         (transformCharacter : Datum -> T) (transformedData : list T)
         (laid : Laid T),
    transformParagraph measure h props transformCharacter transformedData
      = Ok laid ->
    exists rs : list Row,
      Forall2 (fun row r => rowOf measure props row = Ok r)
        (split_newline (paragraph props)) rs /\
      let data := layout 0 (laid_size laid) (S (laid_size laid)) rs in
      laid_data laid = (transformedData ++ map transformCharacter data)%list /\
      forall d : Datum,
        d ∈ data ->
        exists (k : nat) (r : Row) (l : nat),
          rs !! k = Some r /\ rowSize d = Some l /\
          l = (laid_size laid + 1 + k)%nat /\ Some l <> size d /\
          laid_store laid !! l = Some [rowWidth r; rowHeight r].
Proof.
  intros T measure h props transformCharacter transformedData laid Hlaid.
  destruct (transformParagraph_inv _ _ _ _ _ _ Hlaid)
    as (Hsize & rs & Hrows & Hdata & _).
  destruct (transformParagraph_store _ _ _ _ _ _ rs Hlaid Hrows)
    as (_ & _ & Hnew & _).
  exists rs. split; [exact Hrows |]. rewrite Hsize. cbv zeta.
  split; [exact Hdata |].
  intros d Hd. apply layout_elem in Hd.
  destruct Hd as (k & r & d0 & Hk & Hd0 & ->).
  exists k, r, (length h + 1 + k)%nat.
  split; [exact Hk |].
  assert (Hnone : rowSize d0 = None).
  { destruct (Forall2_lookup_r _ _ _ _ _ Hrows Hk) as (row & _ & Hr).
    pose proof (rowOf_no_sizes measure props row r Hr) as Hall.
    rewrite Forall_forall in Hall. apply (Hall d0 Hd0). }
  cbn [placeDatum rowSize size]. rewrite Hnone. cbn [default].
  split; [f_equal; lia |]. split; [reflexivity |].
  split; [intros [= Heq]; lia |].
  apply Hnew. exact Hk.
Qed.

Lemma transformParagraph_rowSize_witness :
  exists (laid : Laid Datum) (rs : list Row),
    transformParagraph (fun _ _ => mkDOMRect 0 0 0 0) [] abcd_props id []
      = Ok laid /\
    Forall2 (fun row r => rowOf (fun _ _ => mkDOMRect 0 0 0 0) abcd_props row
                          = Ok r) ["ab"; "cd"] rs /\
    forall d : Datum,
      d ∈ layout 0 (laid_size laid) (S (laid_size laid)) rs ->
      exists (k : nat) (r : Row) (l : nat),
        rs !! k = Some r /\ rowSize d = Some l /\
        l = (laid_size laid + 1 + k)%nat /\ Some l <> size d /\
        laid_store laid !! l = Some [rowWidth r; rowHeight r].
Proof.
  destruct (transformParagraph_returns (fun _ _ => mkDOMRect 0 0 0 0) []
              abcd_props id [] (or_introl eq_refl)) as [laid Hlaid].
  destruct (transformParagraph_rowSize Datum _ _ _ _ _ laid Hlaid)
    as (rs & Hrows & _ & Hsizes).
  exists laid, rs. split; [exact Hlaid |]. split; [exact Hrows | exact Hsizes].
Defined.

(** Laid out by glyph widths (no [wordBreak]), a paragraph stacks its
    rows: the call returns, and every record it emits is a record of some
    row [k], with the text and [offsetLeft] row layout gave it and at the
    [offsetTop] that is the sum of the heights of the rows before [k]. *)
Theorem transformParagraph_rows_stacked :
  forall (T : Type) measure (h : list (list Z)) props
         (transformCharacter : Datum -> T) (transformedData : list T),
    truthy (wordBreak props) = false ->
    exists (laid : Laid T) (rs : list Row),
      transformParagraph measure h props transformCharacter transformedData
        = Ok laid /\
      Forall2 (fun row r => rowOf measure props row = Ok r)
        (split_newline (paragraph props)) rs /\
      let data := layout 0 (laid_size laid) (S (laid_size laid)) rs in
      laid_data laid = (transformedData ++ map transformCharacter data)%list /\
      forall d : Datum,
        d ∈ data ->
        exists (k : nat) (r : Row) (d0 : Datum),
          rs !! k = Some r /\ d0 ∈ characters r /\
          text d = text d0 /\ offsetLeft d = offsetLeft d0 /\
          offsetTop d = Zsum (rowHeight <$> take k rs).
Proof.
  intros T measure h props transformCharacter transformedData Hwb.
  destruct (transformParagraph_returns measure h props transformCharacter
              transformedData (or_introl Hwb)) as [laid Hlaid].
  destruct (transformParagraph_inv _ _ _ _ _ _ Hlaid)
    as (Hsize & rs & Hrows & Hdata & _).
  exists laid, rs. split; [exact Hlaid |]. split; [exact Hrows |].
  rewrite Hsize. cbv zeta. split; [exact Hdata |].
  intros d Hd. apply layout_elem in Hd.
  destruct Hd as (k & r & d0 & Hk & Hd0 & ->).
  exists k, r, d0. split; [exact Hk |]. split; [exact Hd0 |].
  cbn [placeDatum text offsetLeft offsetTop].
  split; [reflexivity |]. split; [reflexivity |].
  destruct (Forall2_lookup_r _ _ _ _ _ Hrows Hk) as (row & _ & Hr).
  apply transformRow_inv in Hr. destruct Hr as (textDiv & Hnone & Hreq).
  cbv zeta in Hreq. rewrite (Hnone Hwb) in Hreq. subst r.
  cbn [characters] in Hd0.
  pose proof (mapChars_offsetTop measure (iconMapping props) (lineHeight props)
                (length (Array_from row)) 0 (Array_from row) rowStart) as Hall.
  rewrite Forall_forall in Hall. rewrite (Hall d0 Hd0). lia.
Qed.

Lemma transformParagraph_rows_stacked_witness :
  exists (laid : Laid Datum) (rs : list Row),
    transformParagraph (fun _ _ => mkDOMRect 0 0 0 0) [] abcd_props id []
      = Ok laid /\
    laid_data laid = map id (layout 0 (laid_size laid) (S (laid_size laid)) rs).
Proof.
  destruct (transformParagraph_rows_stacked Datum
              (fun _ _ => mkDOMRect 0 0 0 0) [] abcd_props id [] eq_refl)
    as (laid & rs & Hlaid & _ & Hdata & _).
  exists laid, rs. split; [exact Hlaid | exact Hdata].
Defined.

Lemma filter_concat {A : Type} (f : A -> bool) (ls : list (list A)) :
  List.filter f (concat ls) = concat (map (List.filter f) ls).
Proof.
  induction ls as [| l ls IH]; [reflexivity |].
  cbn [concat map]. rewrite List.filter_app, IH. reflexivity.
Qed.

Lemma rows_warnings (measure : Measure) (props : Props) (rows : list string)
    (rs : list Row) :
  Forall2 (fun row r => rowOf measure props row = Ok r) rows rs ->
  concat (warnings <$> rs)
  = map missing_character
      (List.filter (absent (iconMapping props)) (concat (map Array_from rows))).
Proof.
  induction 1 as [| row r rows rs Hr _ IH].
  - reflexivity.
  - rewrite fmap_cons. cbn [concat map].
    rewrite List.filter_app, map_app, <- IH.
    rewrite (rowOf_warnings measure props row r Hr). reflexivity.
Qed.

(** A paragraph is laid out character by character: whenever the call
    returns, [transformedData] keeps what it held and gains one record
    per character of the paragraph that is not a line break, in the order
    of the paragraph, and exactly one warning was logged per such
    character without a frame. *)
Theorem transformParagraph_characters :
  forall (T : Type) measure (h : list (list Z)) props
         (transformCharacter : Datum -> T) (transformedData : list T)
         (laid : Laid T),
    transformParagraph measure h props transformCharacter transformedData
      = Ok laid ->
    let chars := List.filter notNewline (Array_from (paragraph props)) in
    (exists data : list Datum,
       laid_data laid = (transformedData ++ map transformCharacter data)%list /\
       map text data = chars) /\
    length (laid_data laid) = (length transformedData + length chars)%nat /\
    laid_warnings laid
    = map missing_character (List.filter (absent (iconMapping props)) chars).
Proof.
  intros T measure h props transformCharacter transformedData laid Hlaid chars.
  destruct (transformParagraph_inv _ _ _ _ _ _ Hlaid)
    as (_ & rs & Hrows & Hdata & _).
  destruct (transformParagraph_store _ _ _ _ _ _ rs Hlaid Hrows)
    as (_ & _ & _ & Hwarn).
  assert (Htexts : map text (layout 0 (length h) (S (length h)) rs) = chars).
  { subst chars. rewrite layout_texts, (rows_texts measure props _ rs Hrows).
    apply split_newline_characters. }
  split; [eexists; split; [exact Hdata | exact Htexts] |].
  split.
  - rewrite Hdata, length_app, length_map, <- Htexts, length_map. reflexivity.
  - rewrite Hwarn, (rows_warnings measure props _ rs Hrows).
    subst chars. rewrite split_newline_characters. reflexivity.
Qed.

Lemma transformParagraph_characters_witness :
  exists laid : Laid Datum,
    transformParagraph (fun _ _ => mkDOMRect 0 0 0 0) [] abcd_props id []
      = Ok laid /\
    length (laid_data laid) = 4%nat /\ laid_warnings laid = [].
Proof.
  destruct (transformParagraph_returns (fun _ _ => mkDOMRect 0 0 0 0) []
              abcd_props id [] (or_introl eq_refl)) as [laid Hlaid].
  destruct (transformParagraph_characters Datum _ _ _ _ _ laid Hlaid)
    as (_ & Hlen & Hwarn).
  exists laid. split; [exact Hlaid |]. split; [exact Hlen | exact Hwarn].
Defined.

(** [transformParagraph] throws exactly when [wordBreak] is set and the
    [iconMapping] is empty, whatever the paragraph, the empty one included;
    in every other case it returns. *)
Theorem transformParagraph_throws_iff :
  forall (T : Type) measure (h : list (list Z)) props
         (transformCharacter : Datum -> T) (transformedData : list T),
    (exists msg : string,
       transformParagraph measure h props transformCharacter transformedData
         = TypeError msg) <->
    truthy (wordBreak props) = true /\ iconMapping props = ∅.
Proof.
  intros T measure h props transformCharacter transformedData. split.
  - intros [msg Hthrow].
    destruct (truthy (wordBreak props)) eqn:Hwb.
    + split; [reflexivity |].
      destruct (decide (iconMapping props = ∅)) as [Hempty | Hne];
        [exact Hempty |].
      destruct (transformParagraph_returns measure h props transformCharacter
                  transformedData (or_intror Hne)) as [laid Hlaid].
      congruence.
    + destruct (transformParagraph_returns measure h props transformCharacter
                  transformedData (or_introl Hwb)) as [laid Hlaid].
      congruence.
  - intros [Hwb Hempty]. unfold transformParagraph. cbn [alloc].
    destruct (split_newline (paragraph props)) as [| row rows] eqn:Hsplit;
      [exfalso; exact (split_newline_nonempty _ Hsplit) |].
    cbn [forEachRow]. unfold paragraphRow, transformRow, measuredDiv.
    rewrite Hwb, Hempty. unfold Object_values.
    rewrite map_to_list_empty. cbn. eexists. reflexivity.
Qed.

Lemma transformParagraph_throws_iff_witness :
  exists msg : string,
    transformParagraph (fun _ _ => mkDOMRect 0 0 0 0) []
      {| paragraph := EmptyString; iconMapping := ∅; lineHeight := 1;
         wordBreak := Some "break-all"; fontSize := 12;
         fontFamily := "Monaco"; fontWeight := "normal"; width := 100;
         textAlign := None |} id ([] : list Datum)
    = TypeError msg.
Proof.
  apply transformParagraph_throws_iff. split; reflexivity.
Defined.

(** * Further properties of the path layer *)

(** The [enter] transition hands out [value] itself while there is no
    chunk, and else always a suffix of the chunk: the last [value.length]
    elements when the chunk is at least as long as [value], and otherwise
    (the negative [begin] counting from the end) only the last
    [min(chunk.length, value.length - chunk.length)] elements.  So the
    result has the length of [value] exactly when the chunk is empty or
    at least as long as [value]. *)
Theorem enter_suffix :
  forall value chunk : list Z,
    (chunk = [] -> PathLayer.enter value chunk = value) /\
    (chunk <> [] ->
     (exists pre : list Z, chunk = (pre ++ PathLayer.enter value chunk)%list) /\
     ((length value <= length chunk)%nat ->
      PathLayer.enter value chunk
      = drop (length chunk - length value) chunk) /\
     ((length chunk < length value)%nat ->
      length (PathLayer.enter value chunk)
      = Nat.min (length chunk) (length value - length chunk))) /\
    (length (PathLayer.enter value chunk) = length value <->
     chunk = [] \/ (length value <= length chunk)%nat).
Proof.
  intros value chunk. unfold PathLayer.enter, PathLayer.subarray.
  destruct chunk as [| x chunk'].
  - split; [reflexivity |]. split; [contradiction |].
    simpl. split; [intros _; left; reflexivity | reflexivity].
  - set (chunk := x :: chunk'). 
    assert (Hlen : (0 < length chunk)%nat) by (simpl; lia).
    destruct (Nat.eqb_spec (length chunk) 0) as [H0 | _]; [lia |].
    set (start := Z.to_nat _).
    assert (Hstart : start = if (length chunk <? length value)%nat
                             then (2 * length chunk - length value)%nat
                             else (length chunk - length value)%nat).
    { subst start.
      destruct (Nat.ltb_spec (length chunk) (length value));
        destruct (Z.ltb_spec (Z.of_nat (length chunk) - Z.of_nat (length value)) 0);
        lia. }
    split; [discriminate |]. split; [intros _; split; [| split] |].
    + exists (take start chunk). symmetry. apply take_drop.
    + intros Hle. rewrite Hstart.
      destruct (Nat.ltb_spec (length chunk) (length value)); [lia |].
      reflexivity.
    + intros Hlt. rewrite length_drop, Hstart.
      destruct (Nat.ltb_spec (length chunk) (length value)); lia.
    + rewrite length_drop, Hstart.
      destruct (Nat.ltb_spec (length chunk) (length value)); split.
      * intros Heq. lia.
      * intros [Hnil | Hle]; [discriminate | lia].
      * intros _. right. lia.
      * intros _. lia.
Qed.

Lemma enter_suffix_witness :
  PathLayer.enter [7; 8] [1; 2; 3; 4; 5] = [4; 5] /\
  length (PathLayer.enter [6; 7; 8; 9] [1; 2; 3]) = 1%nat.
Proof.
  destruct (enter_suffix [7; 8] [1; 2; 3; 4; 5]) as (_ & Hsome & _).
  destruct (Hsome ltac:(discriminate)) as (_ & Hlast & _).
  destruct (enter_suffix [6; 7; 8; 9] [1; 2; 3]) as (_ & Hsome' & _).
  destruct (Hsome' ltac:(discriminate)) as (_ & _ & Hshort).
  split.
  - exact (Hlast ltac:(simpl; lia)).
  - exact (Hshort ltac:(simpl; lia)).
Defined.

(** [draw] overrides exactly seven uniforms and passes every other one
    through: whatever the incoming object holds, the object given to the
    model has the layer's [jointType], [billboard], [alignMode],
    [widthScale], [miterLimit], [widthMinPixels] and [widthMaxPixels],
    [widthScale] being the prop itself unless the width unit is pixels,
    and any other key reads as in the incoming object. *)
Theorem draw_uniforms :
  forall (props : PathLayer.DrawProps) (metersPerPixel2 : Z)
         (s : PathLayer.LayerState) (uniforms : gmap string PathLayer.uniform)
         (m : nat),
    PathLayer.model s = Some m ->
    exists given : gmap string PathLayer.uniform,
      PathLayer.draw props metersPerPixel2 s uniforms = Ok given /\
      given !! "jointType"
        = Some (PathLayer.UNumber (if PathLayer.rounded props then 1 else 0)) /\
      given !! "billboard"
        = Some (PathLayer.UBoolean (PathLayer.billboard props)) /\
      given !! "alignMode"
        = Some (PathLayer.UNumber
                  (if PathLayer.dashJustified props then 1 else 0)) /\
      given !! "widthScale"
        = Some (PathLayer.UNumber
                  (if String.eqb (PathLayer.widthUnits props) "pixels"
                   then PathLayer.widthScale props * metersPerPixel2
                   else PathLayer.widthScale props)) /\
      given !! "miterLimit"
        = Some (PathLayer.UNumber (PathLayer.miterLimit props)) /\
      given !! "widthMinPixels"
        = Some (PathLayer.UNumber (PathLayer.widthMinPixels props)) /\
      given !! "widthMaxPixels"
        = Some (PathLayer.UNumber (PathLayer.widthMaxPixels props)) /\
      forall k : string,
        k ∉ ["jointType"; "billboard"; "alignMode"; "widthScale";
             "miterLimit"; "widthMinPixels"; "widthMaxPixels"] ->
        given !! k = uniforms !! k.
Proof.
  intros props mpp s uniforms m Hmodel. unfold PathLayer.draw.
  rewrite Hmodel. eexists. split; [reflexivity |].
  repeat (split; [repeat (rewrite lookup_insert_ne by discriminate);
                  rewrite lookup_insert_eq; unfold PathLayer.Number_of_bool;
                  try reflexivity |]).
  - do 2 f_equal. destruct (String.eqb _ _); [reflexivity | lia].
  - intros k Hk.
    repeat (rewrite lookup_insert_ne;
            [| intros <-; apply Hk; set_solver]).
    reflexivity.
Qed.

Lemma draw_uniforms_witness :
  exists given : gmap string PathLayer.uniform,
    PathLayer.draw (PathLayer.mkDrawProps true false 4 "pixels" 3 0 100 false) 5
      (PathLayer.updateState
         (PathLayer.mkLayerProps [corner_path] id PathTesselator.XYZ)
         (PathLayer.mkChangeFlags true None true) PathLayer.initializeState)
      {[ "widthScale" := PathLayer.UNumber 1;
         "opacity" := PathLayer.UNumber 9 ]}
    = Ok given /\
    given !! "widthScale" = Some (PathLayer.UNumber 15) /\
    given !! "opacity" = Some (PathLayer.UNumber 9).
Proof.
  destruct (draw_uniforms (PathLayer.mkDrawProps true false 4 "pixels" 3 0 100 false)
              5
              (PathLayer.updateState
                 (PathLayer.mkLayerProps [corner_path] id PathTesselator.XYZ)
                 (PathLayer.mkChangeFlags true None true)
                 PathLayer.initializeState)
              {[ "widthScale" := PathLayer.UNumber 1;
                 "opacity" := PathLayer.UNumber 9 ]} 0%nat eq_refl)
    as (given & Hdraw & _ & _ & _ & Hscale & _ & _ & _ & Hother).
  exists given. split; [exact Hdraw |]. split; [exact Hscale |].
  rewrite (Hother "opacity").
  - vm_compute. reflexivity.
  - intros Hin. repeat (apply elem_of_cons in Hin; destruct Hin as [Hin | Hin];
                        [discriminate |]).
    apply elem_of_nil in Hin. exact Hin.
Defined.

(** [draw] needs a model: on the state [initializeState] leaves it throws,
    and after any [updateState] whose change flags carry
    [extensionsChanged] (as the first update of a layer does) it returns,
    whatever the state was before. *)
Theorem draw_needs_model :
  forall (R : Type) (drawProps : PathLayer.DrawProps) (metersPerPixel2 : Z)
         (uniforms : gmap string PathLayer.uniform),
    (exists msg : string,
       PathLayer.draw drawProps metersPerPixel2 PathLayer.initializeState
         uniforms = TypeError msg) /\
    (forall (props : PathLayer.LayerProps R)
            (changeFlags : PathLayer.ChangeFlags) (s : PathLayer.LayerState),
       PathLayer.extensionsChanged changeFlags = true ->
       exists given : gmap string PathLayer.uniform,
         PathLayer.draw drawProps metersPerPixel2
           (PathLayer.updateState props changeFlags s) uniforms = Ok given) /\
    (forall (props : PathLayer.LayerProps R)
            (changeFlags : PathLayer.ChangeFlags) (s : PathLayer.LayerState),
       PathLayer.extensionsChanged changeFlags = false ->
       PathLayer.model (PathLayer.updateState props changeFlags s)
       = PathLayer.model s).
Proof.
  intros R drawProps mpp uniforms. split; [| split].
  - eexists. reflexivity.
  - intros props changeFlags s Hext.
    unfold PathLayer.draw, PathLayer.updateState. rewrite Hext.
    cbn [PathLayer.invalidateAll PathLayer.replaceModel PathLayer.model].
    eexists. reflexivity.
  - intros props changeFlags s Hext.
    unfold PathLayer.updateState, PathLayer.super_updateState. rewrite Hext.
    destruct (PathLayer.geometryChanged changeFlags);
      destruct (PathLayer.dataChanged changeFlags); reflexivity.
Qed.

Lemma draw_needs_model_witness :
  exists given : gmap string PathLayer.uniform,
    PathLayer.draw (PathLayer.mkDrawProps true false 4 "meters" 3 0 100 false) 5
      (PathLayer.updateState
         (PathLayer.mkLayerProps [corner_path] id PathTesselator.XYZ)
         (PathLayer.mkChangeFlags true None true) PathLayer.initializeState)
      ∅ = Ok given.
Proof.
  apply (proj1 (proj2 (draw_needs_model (list PathTesselator.Point)
                         (PathLayer.mkDrawProps true false 4 "meters" 3 0 100
                            false) 5 ∅))).
  reflexivity.
Defined.

(** [updateState] recomputes only what changed.  Without a geometry
    change the tesselator, [numInstances] and [bufferLayout] are left as
    they were, also when the model is replaced; without a geometry or an
    extension change the whole state is left as it was. *)
Theorem updateState_frame :
  forall (R : Type) (props : PathLayer.LayerProps R)
         (changeFlags : PathLayer.ChangeFlags) (s : PathLayer.LayerState),
    PathLayer.geometryChanged changeFlags = false ->
    let s' := PathLayer.updateState props changeFlags s in
    PathLayer.pathTesselator s' = PathLayer.pathTesselator s /\
    PathLayer.numInstances s' = PathLayer.numInstances s /\
    PathLayer.bufferLayout s' = PathLayer.bufferLayout s /\
    (PathLayer.extensionsChanged changeFlags = false -> s' = s).
Proof.
  intros R props changeFlags s Hgeo s'. subst s'.
  assert (Hdata : PathLayer.dataChanged changeFlags = false).
  { unfold PathLayer.geometryChanged in Hgeo.
    destruct (PathLayer.dataChanged changeFlags); [discriminate | reflexivity]. }
  unfold PathLayer.updateState, PathLayer.super_updateState.
  rewrite Hgeo, Hdata.
  destruct (PathLayer.extensionsChanged changeFlags).
  - repeat split. discriminate.
  - repeat split.
Qed.

Lemma updateState_frame_witness :
  PathLayer.updateState
    (PathLayer.mkLayerProps [corner_path] id PathTesselator.XYZ)
    (PathLayer.mkChangeFlags false
       (Some (PathLayer.mkUpdateTriggers false false)) false)
    PathLayer.initializeState
  = PathLayer.initializeState.
Proof.
  destruct (updateState_frame (list PathTesselator.Point)
              (PathLayer.mkLayerProps [corner_path] id PathTesselator.XYZ)
              (PathLayer.mkChangeFlags false
                 (Some (PathLayer.mkUpdateTriggers false false)) false)
              PathLayer.initializeState eq_refl) as (_ & _ & _ & Hidle).
  apply Hidle. reflexivity.
Defined.

(** Whenever [updateState] re-tesselates on an update trigger alone (no
    data change), or replaces the model, it invalidates all attributes
    itself; and it never clears an invalidation that was pending. *)
Theorem updateState_invalidates :
  forall (R : Type) (props : PathLayer.LayerProps R)
         (changeFlags : PathLayer.ChangeFlags) (s : PathLayer.LayerState),
    let s' := PathLayer.updateState props changeFlags s in
    ((PathLayer.geometryChanged changeFlags = true /\
      PathLayer.dataChanged changeFlags = false) \/
     PathLayer.extensionsChanged changeFlags = true ->
     PathLayer.invalidated s' = true) /\
    (PathLayer.invalidated s = true -> PathLayer.invalidated s' = true).
Proof.
  intros R props changeFlags s s'. subst s'.
  unfold PathLayer.updateState, PathLayer.super_updateState. split.
  - intros [[Hgeo Hdata] | Hext].
    + rewrite Hgeo, Hdata.
      destruct (PathLayer.extensionsChanged changeFlags); reflexivity.
    + rewrite Hext. reflexivity.
  - intros Hinv.
    destruct (PathLayer.geometryChanged changeFlags);
      destruct (PathLayer.dataChanged changeFlags);
      destruct (PathLayer.extensionsChanged changeFlags);
      cbn; try reflexivity; exact Hinv.
Qed.

Lemma updateState_invalidates_witness :
  PathLayer.invalidated
    (PathLayer.updateState
       (PathLayer.mkLayerProps [corner_path] id PathTesselator.XYZ)
       (PathLayer.mkChangeFlags false
          (Some (PathLayer.mkUpdateTriggers false true)) false)
       PathLayer.initializeState)
  = true.
Proof.
  apply (proj1 (updateState_invalidates (list PathTesselator.Point)
                  (PathLayer.mkLayerProps [corner_path] id PathTesselator.XYZ)
                  (PathLayer.mkChangeFlags false
                     (Some (PathLayer.mkUpdateTriggers false true)) false)
                  PathLayer.initializeState)).
  left. split; reflexivity.
Defined.

(** The segment geometry of [_getModel] is well formed: the index buffer
    is four triangles, every index addresses one of the six vertices the
    position buffer holds (three numbers each), every vertex is drawn, and
    each vertex is the start (0) or the end (1) of the segment, on the
    left (-1), center (0) or right (1), and an offset (0) or joint (1)
    point. *)
Theorem segment_geometry_well_formed :
  length PathLayer.SEGMENT_INDICES = (3 * 4)%nat /\
  length PathLayer.SEGMENT_POSITIONS = (3 * 6)%nat /\
  (forall i : Z,
     i ∈ PathLayer.SEGMENT_INDICES ->
     0 <= i < 6 /\
     exists end_ side role : Z,
       PathLayer.SEGMENT_POSITIONS !! Z.to_nat (3 * i) = Some end_ /\
       PathLayer.SEGMENT_POSITIONS !! Z.to_nat (3 * i + 1) = Some side /\
       PathLayer.SEGMENT_POSITIONS !! Z.to_nat (3 * i + 2) = Some role /\
       (end_ = 0 \/ end_ = 1) /\ -1 <= side <= 1 /\ (role = 0 \/ role = 1)) /\
  (forall v : Z, 0 <= v < 6 -> v ∈ PathLayer.SEGMENT_INDICES).
Proof.
  split; [reflexivity |]. split; [reflexivity |]. split.
  - intros i Hi. unfold PathLayer.SEGMENT_INDICES in Hi.
    repeat (apply elem_of_cons in Hi; destruct Hi as [-> | Hi];
            [split; [lia |]; eexists; eexists; eexists;
             repeat (split; [reflexivity |]); repeat split; lia |]).
    apply elem_of_nil in Hi. contradiction.
  - intros v Hv. unfold PathLayer.SEGMENT_INDICES.
    assert (Hcases : v = 0 \/ v = 1 \/ v = 2 \/ v = 3 \/ v = 4 \/ v = 5) by lia.
    clear Hv.
    destruct Hcases as [H | [H | [H | [H | [H | H]]]]]; rewrite H;
      set_solver.
Qed.

Lemma segment_geometry_well_formed_witness :
  0 <= 4 < 6 /\
  exists end_ side role : Z,
    PathLayer.SEGMENT_POSITIONS !! Z.to_nat (3 * 4) = Some end_ /\
    PathLayer.SEGMENT_POSITIONS !! Z.to_nat (3 * 4 + 1) = Some side /\
    PathLayer.SEGMENT_POSITIONS !! Z.to_nat (3 * 4 + 2) = Some role /\
    (end_ = 0 \/ end_ = 1) /\ -1 <= side <= 1 /\ (role = 0 \/ role = 1).
Proof.
  destruct segment_geometry_well_formed as (_ & _ & Hbounds & Hused).
  apply Hbounds. apply Hused. lia.
Defined.

(** * The character set as a set, and paragraphs in sequence *)

Lemma forEachChar_firstOccurrences (widthOf : string -> Z)
    fontHeight buffer maxCanvasWidth yOffset0
    (chars seen : list string) (i j : nat) (st : Packing) :
  (forall c : string, c ∈ seen -> is_Some (pk_mapping st !! c)) ->
  forEachChar (fun c _ => widthOf c) fontHeight buffer maxCanvasWidth yOffset0
    i chars st =
  forEachChar (fun c _ => widthOf c) fontHeight buffer maxCanvasWidth yOffset0
    j (firstOccurrences seen chars) st.
Proof.
  revert seen i j st. induction chars as [| c rest IH];
    intros seen i j st Hseen; cbn [firstOccurrences forEachChar].
  - reflexivity.
  - destruct (bool_decide_reflect (c ∈ seen)) as [Hin | Hout].
    + rewrite placeChar_known by (apply Hseen; exact Hin).
      apply IH. exact Hseen.
    + cbn [forEachChar].
      replace (placeChar (fun c _ => widthOf c) fontHeight buffer
                 maxCanvasWidth yOffset0 st c j)
        with (placeChar (fun c _ => widthOf c) fontHeight buffer
                maxCanvasWidth yOffset0 st c i) by reflexivity.
      apply IH. intros c' Hc'. apply placeChar_dom.
      apply elem_of_cons in Hc'. destruct Hc' as [-> | Hc'].
      * right. reflexivity.
      * left. apply Hseen. exact Hc'.
Qed.

(** [buildMapping] treats the character set as a set.  When the width of
    a character does not depend on its index, repeating characters in the
    character set changes nothing: the call returns what it returns on the
    characters in the order of their first occurrence. *)
Theorem buildMapping_duplicates :
  forall (widthOf : string -> Z) (characterSet : list string)
         fontHeight buffer maxCanvasWidth (mapping0 : gmap string Frame)
         xOffset0 yOffset0,
    buildMapping characterSet (fun c _ => widthOf c) fontHeight buffer
      maxCanvasWidth mapping0 xOffset0 yOffset0 =
    buildMapping (firstOccurrences [] characterSet) (fun c _ => widthOf c)
      fontHeight buffer maxCanvasWidth mapping0 xOffset0 yOffset0.
Proof.
  intros widthOf cs fh b mcw m0 x0 y0. unfold buildMapping.
  rewrite (forEachChar_firstOccurrences widthOf fh b mcw y0 cs [] 0 0).
  - reflexivity.
  - intros c Hc. apply elem_of_nil in Hc. contradiction.
Qed.

(** Paragraphs laid out one after the other do not disturb each other.
    When a second call of [transformParagraph] continues from the store
    and the [transformedData] a first call left, the records of the first
    paragraph stay in front of those of the second, the two paragraphs
    have different [size] arrays, and every array the first call left,
    its [size] array included, reads as before. *)
Theorem transformParagraph_sequential :
  forall (T : Type) measure measure' (h : list (list Z)) props props'
         (transformCharacter transformCharacter' : Datum -> T)
         (transformedData : list T) (first second : Laid T),
    transformParagraph measure h props transformCharacter transformedData
      = Ok first ->
    transformParagraph measure' (laid_store first) props' transformCharacter'
      (laid_data first) = Ok second ->
    (exists more : list T,
       laid_data second = (laid_data first ++ more)%list /\
       length more
       = length (List.filter notNewline (Array_from (paragraph props')))) /\
    laid_size second <> laid_size first /\
    (forall l : nat, (l < length (laid_store first))%nat ->
       laid_store second !! l = laid_store first !! l) /\
    laid_store second !! laid_size first
    = laid_store first !! laid_size first.
Proof.
  intros T measure measure' h props props' tc tc' transformedData first second
    Hfirst Hsecond.
  destruct (transformParagraph_inv _ _ _ _ _ _ Hfirst)
    as (Hsize1 & rs1 & Hrows1 & _ & _).
  destruct (transformParagraph_store _ _ _ _ _ _ rs1 Hfirst Hrows1)
    as (Hlen1 & _ & _ & _).
  destruct (transformParagraph_inv _ _ _ _ _ _ Hsecond)
    as (Hsize2 & rs & Hrows & Hdata & _).
  destruct (transformParagraph_store _ _ _ _ _ _ rs Hsecond Hrows)
    as (_ & Hold & _ & _).
  split; [| split; [| split]].
  - eexists. split; [exact Hdata |].
    rewrite length_map, <- (length_map text), layout_texts.
    rewrite (rows_texts measure' props' _ rs Hrows), split_newline_characters.
    reflexivity.
  - rewrite Hsize1, Hsize2, Hlen1. lia.
  - exact Hold.
  - apply Hold. rewrite Hsize1, Hlen1. lia.
Qed.

Lemma transformParagraph_sequential_witness :
  exists first second : Laid Datum,
    transformParagraph (fun _ _ => mkDOMRect 0 0 0 0) [] abcd_props id []
      = Ok first /\
    transformParagraph (fun _ _ => mkDOMRect 0 0 0 0) (laid_store first)
      abcd_props id (laid_data first) = Ok second /\
    laid_size second <> laid_size first /\
    laid_store second !! laid_size first = laid_store first !! laid_size first.
Proof.
  destruct (transformParagraph_returns (fun _ _ => mkDOMRect 0 0 0 0) []
              abcd_props id [] (or_introl eq_refl)) as [first Hfirst].
  destruct (transformParagraph_returns (fun _ _ => mkDOMRect 0 0 0 0)
              (laid_store first) abcd_props id (laid_data first)
              (or_introl eq_refl)) as [second Hsecond].
  destruct (transformParagraph_sequential Datum _ _ _ _ _ _ _ _ first second
              Hfirst Hsecond) as (_ & Hne & _ & Hkeep).
  exists first, second. split; [exact Hfirst |]. split; [exact Hsecond |].
  split; [exact Hne | exact Hkeep].
Defined.
